(** * Veo Studio: the generation lifecycle of [VideoStudio]

    A shallow embedding of the video-generation front end:

    - [src/services/geminiService.ts]: the three adapter calls
      [generateVeoVideo], [getOperationStatus], [fetchVideoBlobUrl]
      (module [Service]; the sources also keep an earlier text of this
      file, whose [getOperationStatus] and [fetchVideoBlobUrl] do not look
      for the missing-entity message: it is not embedded);
    - the [VideoStudio] component, of which the sources hold three
      versions: [Studio1] (src/App.tsx, first component), [Studio2]
      (src/unnamed/part_000) and [Studio3] (src/App.tsx, second component,
      the one with [parseErrorMessage]).  They differ in their texts, in
      the [catch] block of [startGeneration] and in the handling of
      [operation.error].

    The component is an event-driven program: [startGeneration] is an
    [async] function, so it is embedded as a machine ([step]) whose steps
    are the pieces of code between two [await]s, next to the handlers of
    the controls.  The state of the machine is the [useState] cells, the
    suspended invocations of [startGeneration] with the variables their
    closures captured, and the log of the calls that leave the component.
    What the outside answers (the operations the service returns, the
    errors it throws, the HTTP response, the clock, the random draw for the
    status line) comes with the events.

    The platform primitives the code calls ([includes], [trim],
    [toLowerCase], [match] with the regular expression of
    [parseErrorMessage], [JSON.parse]) are written out as executable
    functions.

    Not modelled: [console.error]; the reset of the file input element in
    [clearImage]; which of the two image controls is shown (the file input
    while no image is selected, the clear button while one is: the machine
    takes both events in every state).

    The machine of [VideoStudio] logs the call of [onKeyReset] and goes
    on; what the parent component [App] does with it, and the key prompt
    [ApiKeyRequired], are embedded after it (module [App]). *)

From Stdlib Require Import List NArith ZArith Bool String Ascii Lia Arith.
Import ListNotations.

Set Implicit Arguments.
Set Warnings "-register-all".

(** ** JavaScript strings *)

(** A string is its sequence of UTF-16 code units. *)
Definition jstring := list N.

(** Literals are written as Rocq strings; every character is one code unit. *)
Definition str (s : string) : jstring :=
  List.map N_of_ascii (list_ascii_of_string s).

(** JSON text in literals is written with ['] for the double quote. *)
Definition jsonText (s : string) : jstring :=
  List.map (fun c => if N.eqb c 39 then 34%N else c) (str s).

Module Js.

(** [a === b] on strings. *)
Fixpoint eqb (a b : jstring) : bool :=
  match a, b with
  | [], [] => true
  | x :: a', y :: b' => N.eqb x y && eqb a' b'
  | _, _ => false
  end.

Fixpoint startsWith (s needle : jstring) {struct needle} : bool :=
  match needle, s with
  | [], _ => true
  | n :: needle', c :: s' => N.eqb n c && startsWith s' needle'
  | _ :: _, [] => false
  end.

(** [s.includes(needle)]: [needle] occurs in [s] as a contiguous run. *)
Fixpoint includes (s needle : jstring) : bool :=
  startsWith s needle ||
  match s with
  | [] => false
  | _ :: s' => includes s' needle
  end.

(** WhiteSpace and LineTerminator code points of ECMAScript, all of them
    single code units: what [trim] strips. *)
Definition isWhiteSpace (c : N) : bool :=
  ((9 <=? c) && (c <=? 13) || (c =? 32) || (c =? 160) || (c =? 5760)
   || ((8192 <=? c) && (c <=? 8202)) || (c =? 8232) || (c =? 8233)
   || (c =? 8239) || (c =? 8287) || (c =? 12288) || (c =? 65279))%N.

Fixpoint trimStart (s : jstring) : jstring :=
  match s with
  | c :: s' => if isWhiteSpace c then trimStart s' else s
  | [] => []
  end.

Definition trimEnd (s : jstring) : jstring := rev (trimStart (rev s)).

Definition trim (s : jstring) : jstring := trimEnd (trimStart s).

(** [toLowerCase], code unit by code unit: the letters A-Z and the capital
    letters of Latin-1.  Code units above U+00FF are left as they are; the
    result is only ever searched for the word [quota], and no character
    outside A-Z lower-cases to one of its letters. *)
Definition lowerChar (c : N) : N :=
  (if (65 <=? c) && (c <=? 90) then c + 32
   else if (192 <=? c) && (c <=? 222) && negb (c =? 215) then c + 32
   else c)%N.

Definition toLowerCase (s : jstring) : jstring := List.map lowerChar s.

(** LineTerminator: what [.] of a regular expression does not match. *)
Definition isLineTerminator (c : N) : bool :=
  ((c =? 10) || (c =? 13) || (c =? 8232) || (c =? 8233))%N.

(** A string is truthy when it is not empty. *)
Definition nonEmpty (s : jstring) : bool :=
  match s with [] => false | _ :: _ => true end.

(** [a || b] on strings. *)
Definition orElse (a b : jstring) : jstring := if nonEmpty a then a else b.

(** [n.toString()] for a non-negative integer. *)
Fixpoint digits (d : Decimal.uint) : jstring :=
  match d with
  | Decimal.Nil => []
  | Decimal.D0 d' => 48%N :: digits d'
  | Decimal.D1 d' => 49%N :: digits d'
  | Decimal.D2 d' => 50%N :: digits d'
  | Decimal.D3 d' => 51%N :: digits d'
  | Decimal.D4 d' => 52%N :: digits d'
  | Decimal.D5 d' => 53%N :: digits d'
  | Decimal.D6 d' => 54%N :: digits d'
  | Decimal.D7 d' => 55%N :: digits d'
  | Decimal.D8 d' => 56%N :: digits d'
  | Decimal.D9 d' => 57%N :: digits d'
  end.

Definition numberToString (n : N) : jstring := digits (N.to_uint n).

End Js.

(** ** JavaScript values and [JSON.parse] *)

(** The values [JSON.parse] can return, and [undefined].  A number keeps the
    literal it was written with. *)
Inductive value : Type :=
| VUndefined
| VNull
| VBool (b : bool)
| VNumber (literal : jstring)
| VString (s : jstring)
| VArray (items : list value)
| VObject (fields : list (jstring * value)).

Module Json.

(** Outcome of a parser on an input: [OutOfFuel] is an artefact of the
    recursion bound (never reached from [parse], see [parse_fuel]),
    [SyntaxError] is the exception [JSON.parse] throws. *)
Inductive result (A : Type) : Type :=
| OutOfFuel
| SyntaxError
| Parsed (a : A) (rest : jstring).
Arguments OutOfFuel {A}.
Arguments SyntaxError {A}.

Definition bind {A B} (r : result A) (k : A -> jstring -> result B) : result B :=
  match r with
  | OutOfFuel => OutOfFuel
  | SyntaxError => SyntaxError
  | Parsed a rest => k a rest
  end.

Definition isWs (c : N) : bool :=
  ((c =? 9) || (c =? 10) || (c =? 13) || (c =? 32))%N.

Fixpoint skipWs (s : jstring) : jstring :=
  match s with
  | c :: s' => if isWs c then skipWs s' else s
  | [] => []
  end.

(** The next token must be the character [c]. *)
Definition expect (c : N) (s : jstring) : result unit :=
  match skipWs s with
  | d :: r => if N.eqb c d then Parsed tt r else SyntaxError
  | [] => SyntaxError
  end.

Definition isDigit (c : N) : bool := ((48 <=? c) && (c <=? 57))%N.

Definition hexVal (c : N) : option N :=
  (if (48 <=? c) && (c <=? 57) then Some (c - 48)
   else if (97 <=? c) && (c <=? 102) then Some (c - 87)
   else if (65 <=? c) && (c <=? 70) then Some (c - 55)
   else None)%N.

Definition hex4 (a b c d : N) : option N :=
  match hexVal a, hexVal b, hexVal c, hexVal d with
  | Some x, Some y, Some z, Some w => Some (((x * 16 + y) * 16 + z) * 16 + w)%N
  | _, _, _, _ => None
  end.

(** The character an escape stands for: quote, backslash, slash, then
    b, f, n, r, t (the hexadecimal escape is handled apart). *)
Definition escapeChar (e : N) : option N :=
  (if e =? 34 then Some 34
   else if e =? 92 then Some 92
   else if e =? 47 then Some 47
   else if e =? 98 then Some 8
   else if e =? 102 then Some 12
   else if e =? 110 then Some 10
   else if e =? 114 then Some 13
   else if e =? 116 then Some 9
   else None)%N.

Definition consChar (c : N) (r : result jstring) : result jstring :=
  bind r (fun s rest => Parsed (c :: s) rest).

(** The characters of a string literal, after its opening quote, up to
    and including the closing quote. *)
Fixpoint parseChars (s : jstring) : result jstring :=
  match s with
  | [] => SyntaxError
  | c :: r =>
    if N.eqb c 34 then Parsed [] r
    else if N.eqb c 92 then
      match r with
      | [] => SyntaxError
      | e :: r1 =>
        if N.eqb e 117 then
          match r1 with
          | h1 :: h2 :: h3 :: h4 :: r2 =>
            match hex4 h1 h2 h3 h4 with
            | Some u => consChar u (parseChars r2)
            | None => SyntaxError
            end
          | _ => SyntaxError
          end
        else
          match escapeChar e with
          | Some x => consChar x (parseChars r1)
          | None => SyntaxError
          end
      end
    else if N.ltb c 32 then SyntaxError
    else consChar c (parseChars r)
  end.

Fixpoint spanDigits (s : jstring) : jstring * jstring :=
  match s with
  | c :: r =>
    if isDigit c then let (d, rest) := spanDigits r in (c :: d, rest)
    else ([], s)
  | [] => ([], [])
  end.

(** One or more digits. *)
Definition digits1 (s : jstring) : result jstring :=
  match spanDigits s with
  | ([], _) => SyntaxError
  | (d, rest) => Parsed d rest
  end.

(** The integer part: a single [0], or digits that start with 1-9. *)
Definition intPart (s : jstring) : result jstring :=
  match s with
  | c :: r =>
    if N.eqb c 48 then Parsed [c] r
    else digits1 s
  | [] => SyntaxError
  end.

Definition fracPart (s : jstring) : result jstring :=
  match s with
  | c :: r =>
    if N.eqb c 46 then bind (digits1 r) (fun d rest => Parsed (c :: d) rest)
    else Parsed [] s
  | [] => Parsed [] s
  end.

Definition expPart (s : jstring) : result jstring :=
  match s with
  | c :: r =>
    if N.eqb c 101 || N.eqb c 69 then
      match r with
      | sg :: r1 =>
        if N.eqb sg 43 || N.eqb sg 45
        then bind (digits1 r1) (fun d rest => Parsed (c :: sg :: d) rest)
        else bind (digits1 r) (fun d rest => Parsed (c :: d) rest)
      | [] => SyntaxError
      end
    else Parsed [] s
  | [] => Parsed [] s
  end.

Definition unsignedNumber (s : jstring) : result jstring :=
  bind (intPart s) (fun i r1 =>
  bind (fracPart r1) (fun f r2 =>
  bind (expPart r2) (fun e r3 => Parsed (i ++ f ++ e) r3))).

Definition parseNumber (s : jstring) : result jstring :=
  match s with
  | c :: r =>
    if N.eqb c 45 then bind (unsignedNumber r) (fun n rest => Parsed (c :: n) rest)
    else unsignedNumber s
  | [] => SyntaxError
  end.

(** The keyword [w] at the head of [s]. *)
Definition keyword (w : string) (v : value) (s : jstring) : result value :=
  if Js.startsWith s (str w) then Parsed v (skipn (List.length (str w)) s)
  else SyntaxError.

Fixpoint parseValue (fuel : nat) (s : jstring) {struct fuel} : result value :=
  match fuel with
  | O => OutOfFuel
  | S fuel' =>
    match skipWs s with
    | [] => SyntaxError
    | c :: r =>
      if N.eqb c 34 then bind (parseChars r) (fun x rest => Parsed (VString x) rest)
      else if N.eqb c 123 then
        match expect 125 r with
        | Parsed _ rest => Parsed (VObject []) rest
        | _ => bind (parseMembers fuel' r) (fun fs rest => Parsed (VObject fs) rest)
        end
      else if N.eqb c 91 then
        match expect 93 r with
        | Parsed _ rest => Parsed (VArray []) rest
        | _ => bind (parseElements fuel' r) (fun xs rest => Parsed (VArray xs) rest)
        end
      else if N.eqb c 116 then keyword "true" (VBool true) (c :: r)
      else if N.eqb c 102 then keyword "false" (VBool false) (c :: r)
      else if N.eqb c 110 then keyword "null" VNull (c :: r)
      else bind (parseNumber (c :: r)) (fun n rest => Parsed (VNumber n) rest)
    end
  end

with parseMembers (fuel : nat) (s : jstring) {struct fuel}
  : result (list (jstring * value)) :=
  match fuel with
  | O => OutOfFuel
  | S fuel' =>
    bind (expect 34 s) (fun _ r0 =>
    bind (parseChars r0) (fun k r1 =>
    bind (expect 58 r1) (fun _ r2 =>
    bind (parseValue fuel' r2) (fun v r3 =>
    match expect 44 r3 with
    | Parsed _ r4 =>
      bind (parseMembers fuel' r4) (fun fs rest => Parsed ((k, v) :: fs) rest)
    | _ => bind (expect 125 r3) (fun _ rest => Parsed [(k, v)] rest)
    end))))
  end

with parseElements (fuel : nat) (s : jstring) {struct fuel}
  : result (list value) :=
  match fuel with
  | O => OutOfFuel
  | S fuel' =>
    bind (parseValue fuel' s) (fun v r1 =>
    match expect 44 r1 with
    | Parsed _ r2 =>
      bind (parseElements fuel' r2) (fun xs rest => Parsed (v :: xs) rest)
    | _ => bind (expect 93 r1) (fun _ rest => Parsed [v] rest)
    end)
  end.

(** [JSON.parse(text)]: one value, then nothing but white space.  [None]
    stands for the [SyntaxError] exception.  The recursion bound is large
    enough for every text ([parse_fuel]). *)
Definition parse (text : jstring) : option value :=
  match parseValue (S (2 * List.length text)) text with
  | Parsed v rest => match skipWs rest with [] => Some v | _ :: _ => None end
  | _ => None
  end.

End Json.

(** ** Reading a parsed value *)

Module Val.

(** *** The zero test of a number

    The value of a number literal is the double nearest to the decimal
    number it writes, [m * 10^e] with [m] its digits up to the exponent
    mark read as one natural number; of two nearest doubles the one with
    the even significand is taken.  The least positive double is
    [2^-1074], so the value is zero ([+0] or [-0], both falsy) exactly when
    [m * 10^e <= 2^-1075]. *)

(** The text before the exponent mark ([e] or [E]) and the text after it. *)
Fixpoint splitExponent (lit : jstring) : jstring * jstring :=
  match lit with
  | [] => ([], [])
  | c :: r =>
    if N.eqb c 101 || N.eqb c 69 then ([], r)
    else let (m, e) := splitExponent r in (c :: m, e)
  end.

(** The digits of [s] read as one decimal number; sign and point are
    passed over. *)
Fixpoint natural (acc : N) (s : jstring) : N :=
  match s with
  | [] => acc
  | c :: r =>
    if Json.isDigit c then natural (10 * acc + (c - 48)) r else natural acc r
  end.

(** How many digits follow the decimal point. *)
Fixpoint fractionDigits (m : jstring) : N :=
  match m with
  | [] => 0
  | c :: r => if N.eqb c 46 then N.of_nat (List.length r) else fractionDigits r
  end.

(** The exponent after the mark, with its sign. *)
Definition exponent (e : jstring) : Z :=
  match e with
  | c :: r => if N.eqb c 45 then (- Z.of_N (natural 0 r))%Z else Z.of_N (natural 0 e)
  | [] => 0%Z
  end.

(** [m * 10^e <= 2^-1075] in whole numbers, [e] being the exponent written
    less the number of digits after the point: with [e >= 0] only [m = 0]
    does, with [e < 0] the test is [m * 2^1075 <= 10^(-e)]. *)
Definition isZero (lit : jstring) : bool :=
  let (m, e) := splitExponent lit in
  let digits := natural 0 m in
  let scale := (exponent e - Z.of_N (fractionDigits m))%Z in
  if N.eqb digits 0 then true
  else if (0 <=? scale)%Z then false
  else (Z.of_N digits * 2 ^ 1075 <=? 10 ^ (- scale))%Z.

(** Truthiness: what [if (v)] and [v || w] test. *)
Definition truthy (v : value) : bool :=
  match v with
  | VUndefined | VNull => false
  | VBool b => b
  | VNumber lit => negb (isZero lit)
  | VString s => Js.nonEmpty s
  | VArray _ | VObject _ => true
  end.

(** The property [k] of a parsed object: of two members with the same
    name the later one wins. *)
Fixpoint findField (k : jstring) (fields : list (jstring * value)) : option value :=
  match fields with
  | [] => None
  | (k', v) :: fs =>
    match findField k fs with
    | Some w => Some w
    | None => if Js.eqb k k' then Some v else None
    end
  end.

(** [v.name], for the two names the code reads, [error] and [message],
    which only an object's own members can define.  [None] is the
    [TypeError] of reading a property of [null] or [undefined]. *)
Definition getProp (v : value) (name : jstring) : option value :=
  match v with
  | VUndefined | VNull => None
  | VObject fs =>
    Some (match findField name fs with Some w => w | None => VUndefined end)
  | VBool _ | VNumber _ | VString _ | VArray _ => Some VUndefined
  end.

(** [v?.name] *)
Definition getPropOpt (v : value) (name : jstring) : option value :=
  match v with
  | VUndefined | VNull => Some VUndefined
  | _ => getProp v name
  end.

(** [parsed.error?.message] *)
Definition errorMessage (parsed : value) : option value :=
  match getProp parsed (str "error") with
  | Some e => getPropOpt e (str "message")
  | None => None
  end.

(** [a === b] where [b] is a string. *)
Definition isString (a : value) (b : jstring) : bool :=
  match a with
  | VString s => Js.eqb s b
  | _ => false
  end.

(** [v.includes(needle)] for a truthy [v]: the string method, the array
    method (membership), and the [TypeError] of calling what is not a
    function otherwise. *)
Definition includes (v : value) (needle : jstring) : option bool :=
  match v with
  | VString s => Some (Js.includes s needle)
  | VArray items => Some (existsb (fun x => isString x needle) items)
  | _ => None
  end.

(** [v.toLowerCase().includes(needle)]: only strings have [toLowerCase]. *)
Definition lowerIncludes (v : value) (needle : jstring) : option bool :=
  match v with
  | VString s => Some (Js.includes (Js.toLowerCase s) needle)
  | _ => None
  end.

End Val.

(** ** The regular expression of [parseErrorMessage] *)

Module Regex.

(** [.*\}] from the start of [s]: the longest run of characters other
    than line terminators that ends in a closing brace. *)
Fixpoint uptoLastBrace (s : jstring) : option jstring :=
  match s with
  | [] => None
  | c :: r =>
    if Js.isLineTerminator c then None
    else match uptoLastBrace r with
         | Some m => Some (c :: m)
         | None => if N.eqb c 125 then Some [c] else None
         end
  end.

(** [s.match(/\{.*\}/)], the matched text ([jsonMatch[0]]) or [None] for
    [null]: the leftmost opening brace that has a closing brace after it
    on its line, up to the last closing brace of that line. *)
Fixpoint matchBraces (s : jstring) : option jstring :=
  match s with
  | [] => None
  | c :: r =>
    if N.eqb c 123 then
      match uptoLastBrace r with
      | Some m => Some (c :: m)
      | None => matchBraces r
      end
    else matchBraces r
  end.

End Regex.

(** ** Data of the application (src/types.ts and the component state) *)

Inductive Resolution : Type := R720p | R1080p.
Inductive AspectRatio : Type := Ratio16x9 | Ratio9x16.

(** [GeneratedVideo] of src/types.ts *)
Module Video.
Record t : Type := {
  id : jstring;
  url : jstring;
  prompt : jstring;
  resolution : Resolution;
  aspectRatio : AspectRatio;
  createdAt : N
}.
End Video.

(** A value that was thrown: what the code reads from it.  [message] is
    [err.message], empty when the value has none; [text] is [String(err)];
    [json] is [JSON.stringify(err)]. *)
Module Thrown.
Record t : Type := {
  message : jstring;
  text : jstring;
  json : jstring
}.
End Thrown.

(** [new Error(m)] *)
Definition newError (m : jstring) : Thrown.t :=
  {| Thrown.message := m;
     Thrown.text := if Js.nonEmpty m then str "Error: " ++ m else str "Error";
     Thrown.json := str "{}" |}.

(** The operation object of the SDK, as far as the code looks into it:
    [done] is the truthiness of [operation.done]; [error] is
    [operation.error], given by its [message] (empty when it has none);
    [uri] is [operation.response?.generatedVideos?.[0]?.video?.uri]. *)
Module Op.
Record t : Type := {
  name : jstring;
  done : bool;
  error : option jstring;
  uri : option jstring
}.
End Op.

(** The [Response] of [fetch]: [objectUrl] is what [URL.createObjectURL]
    returns for its body. *)
Module Resp.
Record t : Type := {
  status : N;
  body : jstring;
  objectUrl : jstring
}.
Definition ok (r : t) : bool := (N.leb 200 (status r)) && (N.leb (status r) 299).
End Resp.

Record File : Type := { fileType : jstring; fileName : jstring }.

(** [preview] is [reader.result] at [onloadend]: the data URL, or [null]
    ([None]) when the read failed. *)
Record SelectedImage : Type := { file : File; preview : option jstring }.

(** [ImagePayload] of the service; [imageBytes] is [None] when the data
    URL has no comma ([split(',')[1]] is then [undefined]). *)
Record ImagePayload : Type := { imageBytes : option jstring; mimeType : jstring }.

(** The error banner of the component state. *)
Record ErrorInfo : Type := { message : value; isQuota : bool }.

(** Calls that leave the component. *)
Inductive Effect : Type :=
| ReadAsDataURL (f : File)
| GenerateVideos (apiKey model prompt : jstring) (image : option ImagePayload)
                 (numberOfVideos : N) (r : Resolution) (a : AspectRatio)
| GetVideosOperation (apiKey : jstring) (operation : Op.t)
| SetTimeout (ms : N)
| Fetch (resource : jstring)
| RevokeObjectURL (u : jstring)
| OnKeyReset.

(** Where an invocation of [startGeneration] is suspended. *)
Inductive Phase : Type :=
| ReadingFile (img : SelectedImage)   (* await fileToBase64(selectedImage.file) *)
| Submitting                          (* await generateVeoVideo(...) *)
| Sleeping (operation : Op.t)         (* await new Promise(... setTimeout ...) *)
| Polling (operation : Op.t)          (* await getOperationStatus(operation) *)
| Fetching.                           (* await fetchVideoBlobUrl(videoUri) *)

(** A suspended invocation: the state variables its closure captured when
    it was called, and its suspension point. *)
Record Job : Type := {
  jobPrompt : jstring;
  jobResolution : Resolution;
  jobAspectRatio : AspectRatio;
  phase : Phase
}.

(** The [useState] cells of [VideoStudio], the readers [handleImageSelect]
    started and whose [onloadend] has not run yet (each with the file its
    handler captured), the suspended invocations of [startGeneration], and
    the calls made so far (oldest first). *)
Record State : Type := {
  prompt : jstring;
  resolution : Resolution;
  aspectRatio : AspectRatio;
  isGenerating : bool;
  statusMessage : jstring;
  history : list Video.t;
  error : option ErrorInfo;
  selectedImage : option SelectedImage;
  readers : list File;
  jobs : list Job;
  log : list Effect
}.

Definition initialState : State :=
  {| prompt := []; resolution := R720p; aspectRatio := Ratio16x9;
     isGenerating := false; statusMessage := []; history := [];
     error := None; selectedImage := None; readers := [];
     jobs := []; log := [] |}.

Definition setPrompt (x : jstring) (s : State) : State :=
  {| prompt := x; resolution := resolution s; aspectRatio := aspectRatio s;
     isGenerating := isGenerating s; statusMessage := statusMessage s;
     history := history s; error := error s; selectedImage := selectedImage s;
     readers := readers s; jobs := jobs s; log := log s |}.

Definition setResolution (x : Resolution) (s : State) : State :=
  {| prompt := prompt s; resolution := x; aspectRatio := aspectRatio s;
     isGenerating := isGenerating s; statusMessage := statusMessage s;
     history := history s; error := error s; selectedImage := selectedImage s;
     readers := readers s; jobs := jobs s; log := log s |}.

Definition setAspectRatio (x : AspectRatio) (s : State) : State :=
  {| prompt := prompt s; resolution := resolution s; aspectRatio := x;
     isGenerating := isGenerating s; statusMessage := statusMessage s;
     history := history s; error := error s; selectedImage := selectedImage s;
     readers := readers s; jobs := jobs s; log := log s |}.

Definition setIsGenerating (x : bool) (s : State) : State :=
  {| prompt := prompt s; resolution := resolution s; aspectRatio := aspectRatio s;
     isGenerating := x; statusMessage := statusMessage s;
     history := history s; error := error s; selectedImage := selectedImage s;
     readers := readers s; jobs := jobs s; log := log s |}.

Definition setStatusMessage (x : jstring) (s : State) : State :=
  {| prompt := prompt s; resolution := resolution s; aspectRatio := aspectRatio s;
     isGenerating := isGenerating s; statusMessage := x;
     history := history s; error := error s; selectedImage := selectedImage s;
     readers := readers s; jobs := jobs s; log := log s |}.

Definition setHistory (f : list Video.t -> list Video.t) (s : State) : State :=
  {| prompt := prompt s; resolution := resolution s; aspectRatio := aspectRatio s;
     isGenerating := isGenerating s; statusMessage := statusMessage s;
     history := f (history s); error := error s; selectedImage := selectedImage s;
     readers := readers s; jobs := jobs s; log := log s |}.

Definition setError (x : option ErrorInfo) (s : State) : State :=
  {| prompt := prompt s; resolution := resolution s; aspectRatio := aspectRatio s;
     isGenerating := isGenerating s; statusMessage := statusMessage s;
     history := history s; error := x; selectedImage := selectedImage s;
     readers := readers s; jobs := jobs s; log := log s |}.

Definition setSelectedImage (x : option SelectedImage) (s : State) : State :=
  {| prompt := prompt s; resolution := resolution s; aspectRatio := aspectRatio s;
     isGenerating := isGenerating s; statusMessage := statusMessage s;
     history := history s; error := error s; selectedImage := x;
     readers := readers s; jobs := jobs s; log := log s |}.

Definition setReaders (x : list File) (s : State) : State :=
  {| prompt := prompt s; resolution := resolution s; aspectRatio := aspectRatio s;
     isGenerating := isGenerating s; statusMessage := statusMessage s;
     history := history s; error := error s; selectedImage := selectedImage s;
     readers := x; jobs := jobs s; log := log s |}.

Definition setJobs (x : list Job) (s : State) : State :=
  {| prompt := prompt s; resolution := resolution s; aspectRatio := aspectRatio s;
     isGenerating := isGenerating s; statusMessage := statusMessage s;
     history := history s; error := error s; selectedImage := selectedImage s;
     readers := readers s; jobs := x; log := log s |}.

(** One more call to the outside. *)
Definition call (x : Effect) (s : State) : State :=
  {| prompt := prompt s; resolution := resolution s; aspectRatio := aspectRatio s;
     isGenerating := isGenerating s; statusMessage := statusMessage s;
     history := history s; error := error s; selectedImage := selectedImage s;
     readers := readers s; jobs := jobs s; log := log s ++ [x] |}.

Definition setPhase (p : Phase) (j : Job) : Job :=
  {| jobPrompt := jobPrompt j; jobResolution := jobResolution j;
     jobAspectRatio := jobAspectRatio j; phase := p |}.

Fixpoint replaceAt {A} (i : nat) (x : A) (l : list A) : list A :=
  match l, i with
  | [], _ => []
  | _ :: l', O => x :: l'
  | y :: l', S i' => y :: replaceAt i' x l'
  end.

Fixpoint removeAt {A} (i : nat) (l : list A) : list A :=
  match l, i with
  | [], _ => []
  | _ :: l', O => l'
  | y :: l', S i' => y :: removeAt i' l'
  end.

(** The invocation [i] suspends at [p]. *)
Definition suspend (i : nat) (j : Job) (p : Phase) (s : State) : State :=
  setJobs (replaceAt i (setPhase p j) (jobs s)) s.

(** ** The service adapter (src/services/geminiService.ts) *)

Definition NOT_FOUND : jstring := str "Requested entity was not found".
Definition API_KEY_RESET_REQUIRED : jstring := str "API_KEY_RESET_REQUIRED".

Module Service.

(** The [catch] block of [generateVeoVideo] and of [getOperationStatus]:
    the error that leaves the adapter when the SDK call threw [error]. *)
Definition rethrow (error : Thrown.t) : Thrown.t :=
  let errorStr := Thrown.json error ++ Js.orElse (Thrown.message error) [] in
  if Js.includes errorStr NOT_FOUND
  then newError API_KEY_RESET_REQUIRED
  else error.

(** The call [generateVeoVideo] makes to [ai.models.generateVideos]. *)
Definition generateVeoVideo (apiKey prompt : jstring)
    (resolution : Resolution) (aspectRatio : AspectRatio)
    (image : option ImagePayload) : Effect :=
  GenerateVideos apiKey (str "veo-3.1-fast-generate-preview")
    (Js.orElse prompt (str "Animate this image with natural motion"))
    image 1 resolution aspectRatio.

(** The call [getOperationStatus] makes. *)
Definition getOperationStatus (apiKey : jstring) (operation : Op.t) : Effect :=
  GetVideosOperation apiKey operation.

(** The request of [fetchVideoBlobUrl]. *)
Definition fetchRequest (apiKey uri : jstring) : Effect :=
  Fetch (uri ++ str "&key=" ++ apiKey).

(** [fetchVideoBlobUrl] once [fetch] has answered with [response]: the
    object URL, or the error thrown. *)
Definition fetchVideoBlobUrl (response : Resp.t) : Thrown.t + jstring :=
  if negb (Resp.ok response) then
    let text := Resp.body response in
    if Js.includes text NOT_FOUND || N.eqb (Resp.status response) 404
    then inl (newError API_KEY_RESET_REQUIRED)
    else inl (newError (str "Failed to fetch video content: "
                          ++ Js.numberToString (Resp.status response)
                          ++ str " " ++ text))
  else inr (Resp.objectUrl response).

End Service.

(** ** The component [VideoStudio] *)

(** The three versions of the component in the sources. *)
Inductive Version : Type :=
| Studio1   (* src/App.tsx, lines 45-465 *)
| Studio2   (* src/unnamed/part_000 *)
| Studio3.  (* src/App.tsx, lines 466-877 *)

(** What a run reads from its surroundings: which component it is, and
    [process.env.API_KEY]. *)
Record Env : Type := { version : Version; API_KEY : jstring }.

(** The bucket [Math.random()] falls in, out of five of equal width. *)
Inductive Stage : Type := Stage0 | Stage1 | Stage2 | Stage3 | Stage4.

Definition stageMessage (v : Version) (st : Stage) : jstring :=
  match v, st with
  | Studio1, Stage0 => str "Analyzing source details..."
  | Studio1, Stage1 => str "Calculating motion vectors..."
  | Studio1, Stage2 => str "Rendering physics..."
  | Studio1, Stage3 => str "Refining consistency..."
  | Studio1, Stage4 => str "Applying final color grading..."
  | Studio2, Stage0 => str "Analyzing source image details..."
  | Studio2, Stage1 => str "Interpolating motion vectors..."
  | Studio2, Stage2 => str "Rendering physics and light rays..."
  | Studio2, Stage3 => str "Refining temporal consistency..."
  | Studio2, Stage4 => str "Applying final color grading..."
  | Studio3, Stage0 => str "Analyzing source details..."
  | Studio3, Stage1 => str "Calculating motion vectors..."
  | Studio3, Stage2 => str "Rendering physics and light..."
  | Studio3, Stage3 => str "Refining temporal consistency..."
  | Studio3, Stage4 => str "Applying final cinematic grade..."
  end.

(** The prompt recorded for a video that was made from an image alone. *)
Definition placeholderPrompt (v : Version) : jstring :=
  match v with
  | Studio1 | Studio3 => str "Image-to-Video Animation"
  | Studio2 => str "Image-to-Video Generation"
  end.

(** The message thrown when the operation is done and has no video. *)
Definition noContentMessage (v : Version) : jstring :=
  match v with
  | Studio1 => str "Generation completed but no video content was returned. This can happen if the content was flagged by safety filters."
  | Studio2 => str "Video generation completed but no video content was returned. This might be a temporary API issue."
  | Studio3 => str "Generation completed but no video content was returned."
  end.

(** The banner text of a quota failure in [Studio1] and [Studio2]. *)
Definition quotaMessage (v : Version) : jstring :=
  match v with
  | Studio2 => str "You've exceeded your current API quota. Please check your billing plan or usage limits in the Google AI Studio console."
  | _ => str "API Quota Exceeded. Please check your billing project in Google AI Studio or try again in a few minutes."
  end.

Definition PRECONDITION_MESSAGE : jstring :=
  str "Please provide at least a prompt or an image.".

(** [handleImageSelect] for a chosen file: a file that is not an image
    is refused with a banner; for an image a reader is started, whose
    [onloadend] handler keeps the file. *)
Definition handleImageSelect (f : File) (s : State) : State :=
  if negb (Js.startsWith (fileType f) (str "image/"))
  then setError (Some {| message := VString (str "Please select a valid image file.");
                         isQuota := false |}) s
  else call (ReadAsDataURL f) (setReaders (readers s ++ [f]) s).

(** [reader.onloadend] of the reader [k], which read [f], with
    [reader.result]. *)
Definition onloadend (k : nat) (f : File) (result : option jstring) (s : State)
    : State :=
  setSelectedImage (Some {| file := f; preview := result |})
    (setReaders (removeAt k (readers s)) s).

Definition clearImage (s : State) : State := setSelectedImage None s.

(** [(reader.result as string).split(',')[1]] of [fileToBase64] *)
Fixpoint untilComma (s : jstring) : jstring :=
  match s with
  | [] => []
  | c :: r => if N.eqb c 44 then [] else c :: untilComma r
  end.

Fixpoint secondPiece (s : jstring) : option jstring :=
  match s with
  | [] => None
  | c :: r => if N.eqb c 44 then Some (untilComma r) else secondPiece r
  end.

(** [parseErrorMessage] of [Studio3] *)
Definition parseErrorMessage (err : Thrown.t) : value :=
  let msg := Js.orElse (Thrown.message err) (Thrown.text err) in
  match Regex.matchBraces msg with
  | Some jsonMatch =>
    match Json.parse jsonMatch with
    | Some parsed =>
      match Val.errorMessage parsed with
      | Some m =>
        if Val.truthy m then m
        else match Val.getProp parsed (str "message") with
             | Some m' => if Val.truthy m' then m' else VString msg
             | None => VString msg
             end
      | None => VString msg
      end
    | None => VString msg
    end
  | None => VString msg
  end.

(** The unwrapping step written inline in [Studio1] and [Studio2]:
    [cleanMsg] after the inner [try]. *)
Definition cleanMessage (rawMsg : jstring) : value :=
  match Json.parse rawMsg with
  | Some parsed =>
    match Val.errorMessage parsed with
    | Some m => if Val.truthy m then m else VString rawMsg
    | None => VString rawMsg
    end
  | None => VString rawMsg
  end.

(** [a || b || c] over tests that may throw: the first that holds ends the
    evaluation. *)
Definition orThen (a : option bool) (b : option bool) : option bool :=
  match a with
  | Some true => Some true
  | Some false => b
  | None => None
  end.

(** [isQuotaError]: [None] when the expression throws a [TypeError]. *)
Definition isQuotaError (cleanMsg : value) : option bool :=
  orThen (Val.includes cleanMsg (str "RESOURCE_EXHAUSTED"))
    (orThen (Val.includes cleanMsg (str "429"))
       (Val.lowerIncludes cleanMsg (str "quota"))).

(** [cleanMsg || 'An unexpected error occurred during generation.'] *)
Definition orUnexpected (cleanMsg : value) : value :=
  if Val.truthy cleanMsg then cleanMsg
  else VString (str "An unexpected error occurred during generation.").

(** The [catch] block of [startGeneration].  When the block itself throws,
    it has changed nothing. *)
Definition catchBlock (v : Version) (err : Thrown.t) (s : State) : State :=
  match v with
  | Studio1 | Studio2 =>
    let rawMsg := Js.orElse (Thrown.message err) [] in
    let cleanMsg := cleanMessage rawMsg in
    match isQuotaError cleanMsg with
    | None => s
    | Some quota =>
      if Js.eqb rawMsg API_KEY_RESET_REQUIRED then call OnKeyReset (setError None s)
      else if quota
      then setError (Some {| message := VString (quotaMessage v); isQuota := true |}) s
      else setError (Some {| message := orUnexpected cleanMsg; isQuota := false |}) s
    end
  | Studio3 =>
    let cleanMsg := parseErrorMessage err in
    match
      (if Js.eqb (Thrown.message err) API_KEY_RESET_REQUIRED then Some true
       else Val.includes cleanMsg NOT_FOUND)
    with
    | None => s
    | Some true => call OnKeyReset s
    | Some false =>
      match isQuotaError cleanMsg with
      | None => s
      | Some quota => setError (Some {| message := cleanMsg; isQuota := quota |}) s
      end
    end
  end.

(** The [finally] block. *)
Definition finallyBlock (s : State) : State :=
  setStatusMessage [] (setIsGenerating false s).

(** The invocation [i] returns. *)
Definition finish (i : nat) (s : State) : State :=
  setJobs (removeAt i (jobs s)) (finallyBlock s).

(** An exception reaches the [catch] of invocation [i]. *)
Definition throw (env : Env) (i : nat) (err : Thrown.t) (s : State) : State :=
  finish i (catchBlock (version env) err s).

(** [generateVeoVideo(prompt, { resolution, aspectRatio }, imagePayload)] is
    called by invocation [i], which suspends until it settles. *)
Definition submit (env : Env) (i : nat) (j : Job) (image : option ImagePayload)
    (s : State) : State :=
  suspend i j Submitting
    (call (Service.generateVeoVideo (API_KEY env) (jobPrompt j)
             (jobResolution j) (jobAspectRatio j) image) s).

(** The code after the [while] loop, with the final [operation]. *)
Definition afterLoop (env : Env) (i : nat) (j : Job) (operation : Op.t)
    (s : State) : State :=
  match Op.error operation with
  | Some m =>
    match version env with
    | Studio1 | Studio2 =>
      throw env i
        (newError (Js.orElse m (str "The video generation failed on the server."))) s
    | Studio3 =>
      let opErrorMsg := Js.orElse m (str "Generation failed") in
      if Js.includes opErrorMsg NOT_FOUND
      then throw env i (newError API_KEY_RESET_REQUIRED) s
      else throw env i (newError opErrorMsg) s
    end
  | None =>
    match Op.uri operation with
    | Some (c :: u) =>
      suspend i j Fetching
        (call (Service.fetchRequest (API_KEY env) (c :: u))
           (setStatusMessage (str "Finalizing download link...") s))
    | Some [] | None => throw env i (newError (noContentMessage (version env))) s
    end
  end.

(** The test of the [while] loop on [operation], and one pass through its
    body up to the timer, or the code after the loop. *)
Definition loopTest (env : Env) (i : nat) (j : Job) (operation : Op.t)
    (stage : Stage) (s : State) : State :=
  if negb (Op.done operation) then
    suspend i j (Sleeping operation)
      (call (SetTimeout 10000)
         (setStatusMessage (stageMessage (version env) stage) s))
  else afterLoop env i j operation s.

(** [startGeneration], from its call to its first [await] (or its
    [return]). *)
Definition startGeneration (env : Env) (s : State) : State :=
  if negb (Js.nonEmpty (Js.trim (prompt s)))
     && match selectedImage s with None => true | Some _ => false end
  then setError (Some {| message := VString PRECONDITION_MESSAGE; isQuota := false |}) s
  else
    let s1 := setStatusMessage (str "Preparing cinematic assets...")
                (setError None (setIsGenerating true s)) in
    let i := List.length (jobs s1) in
    let j := {| jobPrompt := prompt s; jobResolution := resolution s;
                jobAspectRatio := aspectRatio s; phase := Submitting |} in
    let s2 := setJobs (jobs s1 ++ [j]) s1 in
    match selectedImage s with
    | Some img => suspend i j (ReadingFile img) (call (ReadAsDataURL (file img)) s2)
    | None => submit env i j None s2
    end.

(** After [await fileToBase64(...)]. *)
Definition afterFileRead (env : Env) (i : nat) (j : Job) (img : SelectedImage)
    (dataUrl : jstring) (s : State) : State :=
  let imagePayload := {| imageBytes := secondPiece dataUrl;
                         mimeType := fileType (file img) |} in
  submit env i j (Some imagePayload) s.

(** After [await generateVeoVideo(...)]. *)
Definition afterSubmit (env : Env) (i : nat) (j : Job) (operation : Op.t)
    (stage : Stage) (s : State) : State :=
  loopTest env i j operation stage
    (setStatusMessage (str "Model is dreaming... this may take a few minutes.") s).

(** After the timer of the loop body: [getOperationStatus(operation)]. *)
Definition afterTimer (env : Env) (i : nat) (j : Job) (operation : Op.t)
    (s : State) : State :=
  suspend i j (Polling operation)
    (call (Service.getOperationStatus (API_KEY env) operation) s).

(** After [await fetchVideoBlobUrl(videoUri)] when [fetch] answered:
    [now1] and [now2] are the two readings of [Date.now()]. *)
Definition afterFetch (env : Env) (i : nat) (j : Job) (response : Resp.t)
    (now1 now2 : N) (s : State) : State :=
  match Service.fetchVideoBlobUrl response with
  | inl err => throw env i err s
  | inr blobUrl =>
    let newVideo :=
      {| Video.id := Js.numberToString now1;
         Video.url := blobUrl;
         Video.prompt := Js.orElse (jobPrompt j) (placeholderPrompt (version env));
         Video.resolution := jobResolution j;
         Video.aspectRatio := jobAspectRatio j;
         Video.createdAt := now2 |} in
    finish i (clearImage (setPrompt [] (setHistory (fun prev => newVideo :: prev) s)))
  end.

(** [removeVideo] *)
Definition removeVideo (id : jstring) (s : State) : State :=
  let prev := history s in
  let video := find (fun v => Js.eqb (Video.id v) id) prev in
  let s' := match video with
            | Some v => call (RevokeObjectURL (Video.url v)) s
            | None => s
            end in
  setHistory (fun _ => filter (fun v => negb (Js.eqb (Video.id v) id)) prev) s'.

(** The [disabled] attribute of the submit button. *)
Definition submitDisabled (s : State) : bool :=
  isGenerating s
  || (negb (Js.nonEmpty (Js.trim (prompt s)))
      && match selectedImage s with None => true | Some _ => false end).

(** ** The machine *)

(** What happens to the component: the user acts on a control, a reader of
    [handleImageSelect] ends, or an awaited promise of invocation [i]
    settles. *)
Inductive Event : Type :=
| ChangePrompt (text : jstring)
| ClickResolution (r : Resolution)
| ClickAspectRatio (a : AspectRatio)
| SelectFile (f : File)
| LoadEnds (k : nat) (result : option jstring)
| ClickClearImage
| ClickGenerate
| ClickRemove (id : jstring)
| FileRead (i : nat) (dataUrl : jstring)
| FileReadFails (i : nat) (e : Thrown.t)
| SubmitReturns (i : nat) (operation : Op.t) (stage : Stage)
| SubmitThrows (i : nat) (e : Thrown.t)
| TimerFires (i : nat)
| PollReturns (i : nat) (operation : Op.t) (stage : Stage)
| PollThrows (i : nat) (e : Thrown.t)
| FetchResponds (i : nat) (response : Resp.t) (now1 now2 : N)
| FetchThrows (i : nat) (e : Thrown.t).

(** The continuation of invocation [i], suspended as [j], on a settlement;
    [None] when [j] does not wait for it. *)
Definition resume (env : Env) (i : nat) (j : Job) (e : Event) (s : State)
    : option State :=
  match phase j, e with
  | ReadingFile img, FileRead _ dataUrl => Some (afterFileRead env i j img dataUrl s)
  | ReadingFile _, FileReadFails _ err => Some (throw env i err s)
  | Submitting, SubmitReturns _ operation stage =>
    Some (afterSubmit env i j operation stage s)
  | Submitting, SubmitThrows _ err => Some (throw env i (Service.rethrow err) s)
  | Sleeping operation, TimerFires _ => Some (afterTimer env i j operation s)
  | Polling _, PollReturns _ operation stage =>
    Some (loopTest env i j operation stage s)
  | Polling _, PollThrows _ err => Some (throw env i (Service.rethrow err) s)
  | Fetching, FetchResponds _ response now1 now2 =>
    Some (afterFetch env i j response now1 now2 s)
  | Fetching, FetchThrows _ err => Some (throw env i err s)
  | _, _ => None
  end.

(** The invocation an event settles a promise of. *)
Definition target (e : Event) : option nat :=
  match e with
  | FileRead i _ | FileReadFails i _ | SubmitReturns i _ _ | SubmitThrows i _
  | TimerFires i | PollReturns i _ _ | PollThrows i _
  | FetchResponds i _ _ _ | FetchThrows i _ => Some i
  | _ => None
  end.

(** One step of the component.  A control that is disabled ignores the
    user; a settlement nobody waits for cannot happen ([None]). *)
Definition step (env : Env) (s : State) (e : Event) : option State :=
  match e with
  | ChangePrompt text => Some (if isGenerating s then s else setPrompt text s)
  | ClickResolution r => Some (if isGenerating s then s else setResolution r s)
  | ClickAspectRatio a => Some (if isGenerating s then s else setAspectRatio a s)
  | SelectFile f => Some (handleImageSelect f s)
  | LoadEnds k result =>
    match nth_error (readers s) k with
    | Some f => Some (onloadend k f result s)
    | None => None
    end
  | ClickClearImage => Some (clearImage s)
  | ClickGenerate => Some (if submitDisabled s then s else startGeneration env s)
  | ClickRemove id => Some (removeVideo id s)
  | _ =>
    match target e with
    | Some i =>
      match nth_error (jobs s) i with
      | Some j => resume env i j e s
      | None => None
      end
    | None => None
    end
  end.

Fixpoint exec (env : Env) (s : State) (events : list Event) : option State :=
  match events with
  | [] => Some s
  | e :: events' =>
    match step env s e with
    | Some s' => exec env s' events'
    | None => None
    end
  end.

(** The states the component can be in. *)
Definition reachable (env : Env) (s : State) : Prop :=
  exists events, exec env initialState events = Some s.

(** ** Notions used to state the properties *)

(** The prompt is empty or made of white space only. *)
Definition blank (s : jstring) : Prop :=
  Forall (fun c => Js.isWhiteSpace c = true) s.

(** [needle] occurs in [s]. *)
Definition occurs (needle s : jstring) : Prop :=
  exists pre suf, s = pre ++ needle ++ suf.

(** [c] is the letter [d] (a lower-case letter a-z), in either case. *)
Definition sameLetter (c d : N) : Prop := c = d \/ (c + 32 = d)%N.

(** The word [needle], written in lower-case letters a-z, occurs in [s]
    in some mix of cases. *)
Definition occursIgnoringCase (needle s : jstring) : Prop :=
  exists pre mid suf, s = pre ++ mid ++ suf /\ Forall2 sameLetter mid needle.

(** The events by which the polls of invocation [i] settle, each poll
    returning an operation. *)
Fixpoint pollEvents (i : nat) (polls : list (Op.t * Stage)) : list Event :=
  match polls with
  | [] => []
  | (operation, stage) :: polls' =>
    TimerFires i :: PollReturns i operation stage :: pollEvents i polls'
  end.

(** The calls made by the loop, entered with [operation], while the polls
    of [polls] return pending operations: each poll asks for the operation
    the previous one returned, and is followed by the next timer. *)
Fixpoint pollCalls (apiKey : jstring) (operation : Op.t)
    (polls : list (Op.t * Stage)) : list Effect :=
  match polls with
  | [] => []
  | (operation', _) :: polls' =>
    GetVideosOperation apiKey operation :: SetTimeout 10000
      :: pollCalls apiKey operation' polls'
  end.

(** The operation the service reported last. *)
Fixpoint lastOperation (operation : Op.t) (polls : list (Op.t * Stage)) : Op.t :=
  match polls with
  | [] => operation
  | (operation', _) :: polls' => lastOperation operation' polls'
  end.

(** All the operations of [polls] are pending. *)
Definition allPending (polls : list (Op.t * Stage)) : Prop :=
  Forall (fun p => Op.done (fst p) = false) polls.

(** The message the [catch] block of version [v] classifies: the unwrapped
    [err.message]. *)
Definition unwrappedMessage (v : Version) (err : Thrown.t) : value :=
  match v with
  | Studio1 | Studio2 => cleanMessage (Js.orElse (Thrown.message err) [])
  | Studio3 => parseErrorMessage err
  end.

(** The error is a credential-reset signal for version [v], [c] being its
    unwrapped message. *)
Definition resetSignal (v : Version) (err : Thrown.t) (c : jstring) : Prop :=
  Thrown.message err = API_KEY_RESET_REQUIRED
  \/ (v = Studio3 /\ occurs NOT_FOUND c).

(** The banner text of a failure of unwrapped message [c]. *)
Definition bannerText (v : Version) (quota : bool) (c : jstring) : value :=
  match v with
  | Studio1 | Studio2 =>
    if quota then VString (quotaMessage v) else orUnexpected (VString c)
  | Studio3 => VString c
  end.

(** A character that stands for itself in a JSON string literal and that
    [.] of a regular expression matches. *)
Definition plainChar (c : N) : Prop :=
  (32 <= c)%N /\ c <> 34%N /\ c <> 92%N /\ c <> 8232%N /\ c <> 8233%N.

(** A non-empty text of such characters. *)
Definition plainText (x : jstring) : Prop := Forall plainChar x /\ x <> [].

(** The JSON text of an object with an [error.message] member. *)
Definition errorJson (x : jstring) : jstring :=
  jsonText "{'error':{'message':'" ++ x ++ jsonText "'}}".


(** No invocation of [startGeneration] is under way. *)
Definition idle (s : State) : Prop := jobs s = [] /\ isGenerating s = false.

(** The operations a run sees, [operation] from the submission and then
    those of [polls], end with one that is done: every one before the last
    is pending. *)
Fixpoint endsDone (operation : Op.t) (polls : list (Op.t * Stage)) : Prop :=
  match polls with
  | [] => Op.done operation = true
  | (operation', _) :: polls' =>
    Op.done operation = false /\ endsDone operation' polls'
  end.

(** The events of one run of [startGeneration] from an idle state [s], up
    to the end of its loop: the click, the file being read when an image
    is selected, the submission returning [operation], and the polls. *)
Definition runEvents (s : State) (dataUrl : jstring) (operation : Op.t)
    (stage : Stage) (polls : list (Op.t * Stage)) : list Event :=
  ClickGenerate
    :: match selectedImage s with
       | Some _ => [FileRead 0 dataUrl]
       | None => []
       end
    ++ SubmitReturns 0 operation stage :: pollEvents 0 polls.

(** The calls of the [while] loop entered with [operation], as the polls
    return the operations of [polls]: before each poll a timer of ten
    seconds, then the poll, which asks for the operation returned last. *)
Fixpoint loopCalls (apiKey : jstring) (operation : Op.t)
    (polls : list (Op.t * Stage)) : list Effect :=
  match polls with
  | [] => []
  | (operation', _) :: polls' =>
    SetTimeout 10000 :: GetVideosOperation apiKey operation
      :: loopCalls apiKey operation' polls'
  end.

(** An endless sequence of results, [results 0] from the submission and
    [results (S k)] from the poll number [k]; the events by which the
    submission and the first [n] polls settle. *)
Definition loopEvents (results : nat -> Op.t * Stage) (n : nat) : list Event :=
  SubmitReturns 0 (fst (results 0)) (snd (results 0))
    :: pollEvents 0 (List.map results (seq 1 n)).

(** The only invocation is inside the [while] loop: it waits for the
    timer or for the poll. *)
Definition inLoop (s : State) : Prop :=
  exists j operation,
    jobs s = [j] /\ (phase j = Sleeping operation \/ phase j = Polling operation).

(** The video a successful run records. *)
Definition recordedVideo (env : Env) (s : State) (response : Resp.t)
    (now1 now2 : N) : Video.t :=
  {| Video.id := Js.numberToString now1;
     Video.url := Resp.objectUrl response;
     Video.prompt := Js.orElse (prompt s) (placeholderPrompt (version env));
     Video.resolution := resolution s;
     Video.aspectRatio := aspectRatio s;
     Video.createdAt := now2 |}.

(** [s'] differs from [s] at most in its status line, its suspended
    invocations and its calls. *)
Definition sameCells (s s' : State) : Prop :=
  prompt s' = prompt s /\ resolution s' = resolution s
  /\ aspectRatio s' = aspectRatio s /\ isGenerating s' = isGenerating s
  /\ history s' = history s /\ error s' = error s
  /\ selectedImage s' = selectedImage s.

(** The calls of a run up to its submission: the file is read when an
    image is selected, then the request goes to the service. *)
Definition submitCalls (env : Env) (s : State) (dataUrl : jstring) : list Effect :=
  match selectedImage s with
  | Some img =>
    [ReadAsDataURL (file img);
     Service.generateVeoVideo (API_KEY env) (prompt s) (resolution s) (aspectRatio s)
       (Some {| imageBytes := secondPiece dataUrl; mimeType := fileType (file img) |})]
  | None =>
    [Service.generateVeoVideo (API_KEY env) (prompt s) (resolution s) (aspectRatio s)
       None]
  end.

(** [s1] is a state of the run that was started in [s], with [j1] its only
    invocation and [calls] the calls made since. *)
Definition midRun (s : State) (calls : list Effect) (j1 : Job) (s1 : State) : Prop :=
  jobs s1 = [j1]
  /\ jobPrompt j1 = prompt s /\ jobResolution j1 = resolution s
  /\ jobAspectRatio j1 = aspectRatio s
  /\ prompt s1 = prompt s /\ resolution s1 = resolution s
  /\ aspectRatio s1 = aspectRatio s /\ isGenerating s1 = true
  /\ history s1 = history s /\ error s1 = None
  /\ selectedImage s1 = selectedImage s
  /\ log s1 = log s ++ calls.

(** ** Sample data *)

Module Sample.

Definition env (v : Version) : Env := {| version := v; API_KEY := str "KEY" |}.

Definition image : SelectedImage :=
  {| file := {| fileType := str "image/png"; fileName := str "cat.png" |};
     preview := Some (str "data:image/png;base64,AAAA") |}.

Definition pending : Op.t :=
  {| Op.name := str "operations/1"; Op.done := false;
     Op.error := None; Op.uri := None |}.

Definition finished : Op.t :=
  {| Op.name := str "operations/1"; Op.done := true;
     Op.error := None; Op.uri := Some (str "https://video.example/v?alt=media") |}.

(** Done, with a job-level error and no video. *)
Definition failed : Op.t :=
  {| Op.name := str "operations/1"; Op.done := true;
     Op.error := Some (str "The prompt was rejected."); Op.uri := None |}.

(** Done, with neither error nor video. *)
Definition empty : Op.t :=
  {| Op.name := str "operations/1"; Op.done := true;
     Op.error := None; Op.uri := None |}.

Definition okResponse : Resp.t :=
  {| Resp.status := 200; Resp.body := []; Resp.objectUrl := str "blob:1" |}.

(** A state with a prompt typed in. *)
Definition typed : State := setPrompt (str "a cat on a skateboard") initialState.

(** A state with an image selected and no prompt. *)
Definition imageOnly : State := setSelectedImage (Some image) initialState.

End Sample.

(** The outcome [r] of a step from [s] is a credential reset of invocation
    [i]: the notification is sent, the invocation returns, and the [catch]
    block has set no error (in [Studio1] and [Studio2] it clears the
    banner, in [Studio3] it does not touch it). *)
Definition resetOutcome (env : Env) (i : nat) (s : State) (r : option State) : Prop :=
  exists s',
    r = Some s'
    /\ log s' = log s ++ [OnKeyReset]
    /\ error s' = match version env with Studio3 => error s | _ => None end
    /\ (error s = None -> error s' = None)
    /\ isGenerating s' = false
    /\ jobs s' = removeAt i (jobs s)
    /\ history s' = history s.

(** At most one invocation of [startGeneration] is under way, and the
    generating flag tells whether one is. *)
Definition oneJob (s : State) : Prop :=
  (jobs s = [] /\ isGenerating s = false)
  \/ (exists j, jobs s = [j] /\ isGenerating s = true).

(** The history [h'] is [h], or [h] with one video put at its head, or [h]
    without the videos of some id. *)
Definition historyChange (h h' : list Video.t) : Prop :=
  h' = h
  \/ (exists v, h' = v :: h)
  \/ (exists id, h' = filter (fun v => negb (Js.eqb (Video.id v) id)) h).

(** What a continuation of invocation [i] does to the job list, the
    generating flag and the history: it suspends again or it returns, and
    it leaves the history alone or puts one video at its head. *)
Definition continues (i : nat) (j : Job) (s s' : State) : Prop :=
  (history s' = history s \/ exists v, history s' = v :: history s)
  /\ ((exists p, jobs s' = replaceAt i (setPhase p j) (jobs s)
                 /\ isGenerating s' = isGenerating s)
      \/ (jobs s' = removeAt i (jobs s) /\ isGenerating s' = false)).


(** A parser that, when it succeeds, has consumed at least one character. *)
Definition consumes {A} (p : jstring -> Json.result A) : Prop :=
  forall s a r, p s = Json.Parsed a r -> List.length r < List.length s.

(** A parser that does not need fuel. *)
Definition fuelFree {A} (p : jstring -> Json.result A) : Prop :=
  forall s, p s <> Json.OutOfFuel.


(** * More of the component: what every reachable state satisfies *)

(** The invocation [j] suspends at [p] after the call [c]: the four places
    where a continuation of [startGeneration] awaits again. *)
Definition suspension (env : Env) (j : Job) (p : Phase) (c : Effect) : Prop :=
  (p = Submitting
   /\ exists img dataUrl,
       phase j = ReadingFile img
       /\ c = Service.generateVeoVideo (API_KEY env) (jobPrompt j) (jobResolution j)
                (jobAspectRatio j)
                (Some {| imageBytes := secondPiece dataUrl;
                         mimeType := fileType (file img) |}))
  \/ (exists operation,
         p = Sleeping operation /\ Op.done operation = false /\ c = SetTimeout 10000)
  \/ (exists operation,
         p = Polling operation /\ phase j = Sleeping operation
         /\ c = GetVideosOperation (API_KEY env) operation)
  \/ (exists u, p = Fetching /\ u <> [] /\ c = Service.fetchRequest (API_KEY env) u).

(** The three ways a continuation of invocation [i] ends its step: it
    suspends again after one call, it throws into the [catch] block, or it
    records a video and returns. *)
Definition resumed (env : Env) (i : nat) (j : Job) (s s' : State) : Prop :=
  (sameCells s s'
   /\ (statusMessage s <> [] -> statusMessage s' <> [])
   /\ exists p c,
       jobs s' = replaceAt i (setPhase p j) (jobs s)
       /\ log s' = log s ++ [c]
       /\ suspension env j p c)
  \/ (exists err s0,
         s' = throw env i err s0
         /\ sameCells s s0 /\ jobs s0 = jobs s /\ log s0 = log s)
  \/ (exists blobUrl now1 now2,
         phase j = Fetching
         /\ s' = finish i
                  (clearImage
                     (setPrompt []
                        (setHistory
                           (fun prev =>
                              {| Video.id := Js.numberToString now1;
                                 Video.url := blobUrl;
                                 Video.prompt :=
                                   Js.orElse (jobPrompt j)
                                     (placeholderPrompt (version env));
                                 Video.resolution := jobResolution j;
                                 Video.aspectRatio := jobAspectRatio j;
                                 Video.createdAt := now2 |} :: prev) s)))).

(** The file is an image by its MIME type, as [handleImageSelect] tests
    it. *)
Definition imageFile (f : File) : Prop :=
  Js.startsWith (fileType f) (str "image/") = true.

Definition imageTyped (img : SelectedImage) : Prop := imageFile (file img).

(** What holds of every call the component makes. *)
Definition okCall (env : Env) (c : Effect) : Prop :=
  match c with
  | ReadAsDataURL f => imageFile f
  | GenerateVideos key model p image n _ _ =>
    key = API_KEY env
    /\ model = str "veo-3.1-fast-generate-preview"
    /\ p <> []
    /\ n = 1%N
    /\ match image with
       | Some payload => Js.startsWith (mimeType payload) (str "image/") = true
       | None => ~ blank p
       end
  | GetVideosOperation key operation =>
    key = API_KEY env /\ Op.done operation = false
  | SetTimeout ms => ms = 10000%N
  | Fetch resource =>
    exists uri, uri <> [] /\ resource = uri ++ str "&key=" ++ API_KEY env
  | RevokeObjectURL _ => True
  | OnKeyReset => True
  end.

(** What holds of a suspended invocation [j] in the state [s]: the inputs
    its closure captured are still the inputs shown, the file it reads is
    an image, the operation it polls is pending. *)
Definition jobInv (s : State) (j : Job) : Prop :=
  jobPrompt j = prompt s
  /\ jobResolution j = resolution s
  /\ jobAspectRatio j = aspectRatio s
  /\ match phase j with
     | ReadingFile img => imageTyped img
     | Sleeping operation | Polling operation => Op.done operation = false
     | Submitting | Fetching => True
     end.

(** The invariant of the component. *)
Definition wellFormed (env : Env) (s : State) : Prop :=
  oneJob s
  /\ (jobs s = [] <-> statusMessage s = [])
  /\ (forall j, In j (jobs s) -> jobInv s j)
  /\ Forall (fun v => Video.prompt v <> []) (history s)
  /\ (forall img, selectedImage s = Some img -> imageTyped img)
  /\ Forall imageFile (readers s)
  /\ Forall (okCall env) (log s).

(** The events of a request from a prompt, up to its first poll. *)
Definition polling : list Event :=
  [ChangePrompt (str "a cat on a skateboard"); ClickGenerate;
   SubmitReturns 0 Sample.pending Stage0; TimerFires 0].

(** A run from an image alone, up to the recorded video. *)
Definition imageRun : list Event :=
  [SelectFile (file Sample.image); LoadEnds 0 (preview Sample.image);
   ClickGenerate; FileRead 0 (str "data:image/png;base64,AAAA");
   SubmitReturns 0 Sample.pending Stage0; TimerFires 0;
   PollReturns 0 Sample.finished Stage1;
   FetchResponds 0 Sample.okResponse 1700000000000 1700000000001].

(** A file that is not an image. *)
Definition textFile : File :=
  {| fileType := str "text/plain"; fileName := str "notes.txt" |}.

(** What [reader.onerror] of [fileToBase64] rejects with: the event, which
    has no [message]. *)
Definition progressEvent : Thrown.t :=
  {| Thrown.message := [];
     Thrown.text := str "[object ProgressEvent]";
     Thrown.json := jsonText "{'isTrusted':true}" |}.

(** The unwrapped message is a value without [includes]. *)
Definition notText (u : value) : Prop :=
  match u with
  | VString _ | VArray _ => False
  | _ => True
  end.

(** The run of invocation [i] has ended in [s'] without a call. *)
Definition endsQuietly (i : nat) (s : State) (r : option State) : Prop :=
  exists s',
    r = Some s'
    /\ log s' = log s
    /\ jobs s' = removeAt i (jobs s)
    /\ isGenerating s' = false
    /\ statusMessage s' = []
    /\ history s' = history s.

(** ** The component [App] and the key prompt

    [App] (src/App.tsx, lines 1-44) asks once whether a key is selected
    and then shows [VideoStudio] or [ApiKeyRequired]
    (src/components/ApiKeyRequired.tsx).  The two are different components
    at the same place of the tree: when one replaces the other, it is
    mounted anew, and the state of the one that leaves is dropped.  A
    studio that leaves has no invocation of [startGeneration] under way,
    since it leaves in the [catch] block of its only one. *)

(** The events of [VideoStudio]. *)
Definition StudioEvent : Type := Event.

Module App.

(** The calls to [window.aistudio]. *)
Inductive Call : Type := HasSelectedApiKey | OpenSelectKey.

Inductive View : Type := Spinner | KeyPrompt | Studio.

(** The state cell [hasKey] ([None] is [null]), the pending [checkKey],
    the invocations of [handleSelectKey] that await [openSelectKey], the
    state of the studio when one is mounted, and the calls made. *)
Record t : Type := {
  hasKey : option bool;
  checking : bool;
  dialogs : nat;
  studio : option State;
  calls : list Call
}.

(** After the first rendering and its effect, which calls [checkKey]. *)
Definition initial : t :=
  {| hasKey := None; checking := true; dialogs := 0; studio := None;
     calls := [HasSelectedApiKey] |}.

(** What [App] renders. *)
Definition view (g : t) : View :=
  match hasKey g with
  | None => Spinner
  | Some true => Studio
  | Some false => KeyPrompt
  end.

(** [setHasKey(b)] and the rendering that follows: a studio that was
    shown stays, one that was not is mounted in its initial state, and
    with [false] there is none. *)
Definition setHasKey (b : bool) (g : t) : t :=
  {| hasKey := Some b; checking := checking g; dialogs := dialogs g;
     studio := if b
               then match hasKey g with
                    | Some true => studio g
                    | _ => Some initialState
                    end
               else None;
     calls := calls g |}.

Definition setChecking (b : bool) (g : t) : t :=
  {| hasKey := hasKey g; checking := b; dialogs := dialogs g;
     studio := studio g; calls := calls g |}.

Definition setDialogs (n : nat) (g : t) : t :=
  {| hasKey := hasKey g; checking := checking g; dialogs := n;
     studio := studio g; calls := calls g |}.

Definition setStudio (st : State) (g : t) : t :=
  {| hasKey := hasKey g; checking := checking g; dialogs := dialogs g;
     studio := Some st; calls := calls g |}.

(** [handleSelectKey] up to its [await]. *)
Definition handleSelectKey (g : t) : t :=
  {| hasKey := hasKey g; checking := checking g; dialogs := S (dialogs g);
     studio := studio g; calls := calls g ++ [OpenSelectKey] |}.

Definition handleKeySelected (g : t) : t := setHasKey true g.

Definition handleKeyReset (g : t) : t := setHasKey false g.

(** The calls the studio made in the step from [st] to [st']. *)
Definition newCalls (st st' : State) : list Effect :=
  skipn (List.length (log st)) (log st').

Definition isKeyReset (c : Effect) : bool :=
  match c with
  | OnKeyReset => true
  | _ => false
  end.

Inductive Event : Type :=
| CheckReturns (selected : bool)
| CheckThrows
| ClickSelectKey
| DialogResolves
| DialogRejects
| InStudio (e : StudioEvent).

(** One step of [App].  The prompt's button exists only while the prompt
    is shown; a settlement nobody waits for, or an event of a studio that
    is not there, cannot happen ([None]). *)
Definition step (env : Env) (g : t) (e : Event) : option t :=
  match e with
  | CheckReturns selected =>
    if checking g then Some (setHasKey selected (setChecking false g)) else None
  | CheckThrows =>
    if checking g then Some (setHasKey false (setChecking false g)) else None
  | ClickSelectKey =>
    match view g with
    | KeyPrompt => Some (handleSelectKey g)
    | _ => Some g
    end
  | DialogResolves =>
    match dialogs g with
    | S n => Some (handleKeySelected (setDialogs n g))
    | O => None
    end
  | DialogRejects =>
    match dialogs g with
    | S n => Some (setDialogs n g)
    | O => None
    end
  | InStudio e =>
    match studio g with
    | Some st =>
      match step env st e with
      | Some st' =>
        Some (if existsb isKeyReset (newCalls st st')
              then handleKeyReset g
              else setStudio st' g)
      | None => None
      end
    | None => None
    end
  end.

Fixpoint exec (env : Env) (g : t) (events : list Event) : option t :=
  match events with
  | [] => Some g
  | e :: events' =>
    match step env g e with
    | Some g' => exec env g' events'
    | None => None
    end
  end.

Definition reachable (env : Env) (g : t) : Prop :=
  exists events, exec env initial events = Some g.

End App.

(** What holds of [App] in every state: the spinner is shown exactly
    while the check is pending, and then no dialog is open; a studio is
    mounted exactly when the key is taken as selected, and its state is
    one the studio can be in. *)
Definition appInv (env : Env) (g : App.t) : Prop :=
  (App.hasKey g = None <-> App.checking g = true)
  /\ (App.checking g = true -> App.dialogs g = 0)
  /\ (App.hasKey g = Some true <-> App.studio g <> None)
  /\ (forall st, App.studio g = Some st -> reachable env st).

(** A session: the key is found, a video is made from an image, and the
    next request is answered with the missing-entity text. *)
Definition session : list App.Event :=
  App.CheckReturns true
  :: List.map App.InStudio
       (imageRun
        ++ [ChangePrompt (str "a dog"); ClickGenerate;
            SubmitThrows 0 (newError (str "Requested entity was not found."))]).

Unset Implicit Arguments.

(** ** Facts about strings *)

Lemma Js_eqb_eq (a b : jstring) : Js.eqb a b = true <-> a = b.
Proof.
  revert b; induction a as [|x a IH]; intros [|y b]; simpl; split;
    try congruence; try reflexivity.
  - rewrite andb_true_iff, N.eqb_eq, IH. intros [-> ->]; reflexivity.
  - intros H; injection H as -> ->. rewrite N.eqb_refl. simpl. now apply IH.
Qed.

Lemma Js_eqb_refl (a : jstring) : Js.eqb a a = true.
Proof. now apply Js_eqb_eq. Qed.

Lemma Js_eqb_neq (a b : jstring) : Js.eqb a b = false <-> a <> b.
Proof.
  rewrite <- Js_eqb_eq. destruct (Js.eqb a b); split; congruence.
Qed.

Lemma startsWith_spec (s needle : jstring) :
  Js.startsWith s needle = true <-> exists suf, s = needle ++ suf.
Proof.
  revert s; induction needle as [|n needle IH]; intros s; simpl.
  - split; [exists s; reflexivity | reflexivity].
  - destruct s as [|c s].
    + split; [discriminate | intros [suf H]; discriminate].
    + rewrite andb_true_iff, N.eqb_eq, IH. split.
      * intros [-> [suf ->]]. now exists suf.
      * intros [suf H]. injection H as -> ->. split; [reflexivity | now exists suf].
Qed.

(** [includes] finds exactly the contiguous occurrences. *)
Lemma includes_spec (s needle : jstring) :
  Js.includes s needle = true <-> exists pre suf, s = pre ++ needle ++ suf.
Proof.
  induction s as [|c s IH].
  - simpl. rewrite orb_false_r, startsWith_spec. split.
    + intros [suf H]. now exists [], suf.
    + intros [pre [suf H]]. destruct pre; [now exists suf | discriminate].
  - cbn [Js.includes]. rewrite orb_true_iff, startsWith_spec, IH. split.
    + intros [[suf H] | [pre [suf H]]].
      * now exists [], suf.
      * exists (c :: pre), suf. now rewrite H.
    + intros [[|d pre] [suf H]].
      * left. now exists suf.
      * right. injection H as -> ->. now exists pre, suf.
Qed.

Lemma includes_app_r (a b needle : jstring) :
  Js.includes b needle = true -> Js.includes (a ++ b) needle = true.
Proof.
  rewrite !includes_spec. intros [pre [suf ->]].
  exists (a ++ pre), suf. now rewrite app_assoc.
Qed.

Lemma trimStart_nil (s : jstring) :
  Js.trimStart s = [] <-> Forall (fun c => Js.isWhiteSpace c = true) s.
Proof.
  induction s as [|c s IH]; simpl.
  - split; [constructor | reflexivity].
  - destruct (Js.isWhiteSpace c) eqn:E.
    + rewrite IH. split; [now constructor | now inversion 1].
    + split; [discriminate | inversion 1; congruence].
Qed.

(** A prompt trims to nothing exactly when it is empty or white space only. *)
Lemma trimStart_head (s : jstring) c r :
  Js.trimStart s = c :: r -> Js.isWhiteSpace c = false.
Proof.
  induction s as [|d s IH]; simpl; [discriminate|].
  destruct (Js.isWhiteSpace d) eqn:D; [assumption|]. congruence.
Qed.

Lemma trimStart_app_keep (a : jstring) c r :
  Js.isWhiteSpace c = false -> Js.trimStart (a ++ c :: r) <> [].
Proof.
  intros Hc. induction a as [|d a IH]; simpl.
  - rewrite Hc. discriminate.
  - destruct (Js.isWhiteSpace d); [assumption | discriminate].
Qed.

(** A prompt trims to nothing exactly when it is empty or white space only. *)
Lemma trim_nil (s : jstring) :
  Js.trim s = [] <-> Forall (fun c => Js.isWhiteSpace c = true) s.
Proof.
  unfold Js.trim, Js.trimEnd. split.
  - intros H. destruct (Js.trimStart s) as [|c r] eqn:E.
    + now apply trimStart_nil.
    + exfalso. apply trimStart_head in E.
      destruct (Js.trimStart (rev (c :: r))) as [|x l] eqn:F;
        [|simpl in H; destruct (rev l); discriminate].
      revert F. replace (rev (c :: r)) with (rev r ++ [c]) by reflexivity.
      now apply trimStart_app_keep.
  - intros H. apply trimStart_nil in H. rewrite H. reflexivity.
Qed.

(** ** The precondition of [startGeneration] *)

(** C1. With a prompt that is empty or white space only and no image
    selected, [startGeneration] sets the precondition error and returns:
    it makes no call (no submit), starts no job, and leaves the generating
    flag (so a flag that is false stays false) and the history as they
    were. *)
Theorem startGeneration_blank_request (env : Env) (s : State) :
  blank (prompt s) ->
  selectedImage s = None ->
  startGeneration env s
  = setError (Some {| message := VString PRECONDITION_MESSAGE; isQuota := false |}) s
  /\ log (startGeneration env s) = log s
  /\ jobs (startGeneration env s) = jobs s
  /\ isGenerating (startGeneration env s) = isGenerating s
  /\ history (startGeneration env s) = history s.
Proof.
  intros Hblank Himg. unfold startGeneration.
  apply trim_nil in Hblank. rewrite Hblank, Himg. simpl.
  repeat split.
Qed.

Lemma startGeneration_blank_request_witness :
  let s := setPrompt (str "  ") initialState in
  let env := {| version := Studio1; API_KEY := str "k" |} in
  error (startGeneration env s)
  = Some {| message := VString PRECONDITION_MESSAGE; isQuota := false |}
  /\ log (startGeneration env s) = [].
Proof.
  intros s env.
  destruct (startGeneration_blank_request env s) as [H [Hlog _]].
  - unfold blank. simpl. repeat constructor.
  - reflexivity.
  - split; [rewrite H; reflexivity | exact Hlog].
Defined.

(** ** [removeVideo] *)

Lemma find_others (id : jstring) (l : list Video.t) :
  (forall w, In w l -> Video.id w <> id) ->
  find (fun v => Js.eqb (Video.id v) id) l = None.
Proof.
  induction l as [|w l IH]; intros H; simpl; [reflexivity|].
  rewrite (proj2 (Js_eqb_neq _ _)) by (apply H; now left).
  apply IH. intros x Hx. apply H. now right.
Qed.

Lemma filter_others (id : jstring) (l : list Video.t) :
  (forall w, In w l -> Video.id w <> id) ->
  filter (fun v => negb (Js.eqb (Video.id v) id)) l = l.
Proof.
  induction l as [|w l IH]; intros H; simpl; [reflexivity|].
  rewrite (proj2 (Js_eqb_neq _ _)) by (apply H; now left).
  simpl. f_equal. apply IH. intros x Hx. apply H. now right.
Qed.

Lemma find_first (id : jstring) (pre suf : list Video.t) (v : Video.t) :
  (forall w, In w pre -> Video.id w <> id) ->
  Video.id v = id ->
  find (fun v => Js.eqb (Video.id v) id) (pre ++ v :: suf) = Some v.
Proof.
  intros Hpre Hv. induction pre as [|w pre IH]; simpl.
  - now rewrite Hv, Js_eqb_refl.
  - rewrite (proj2 (Js_eqb_neq _ _)) by (apply Hpre; now left).
    apply IH. intros x Hx. apply Hpre. now right.
Qed.

Lemma filter_first (id : jstring) (pre suf : list Video.t) (v : Video.t) :
  (forall w, In w pre -> Video.id w <> id) ->
  Video.id v = id ->
  filter (fun w => negb (Js.eqb (Video.id w) id)) (pre ++ v :: suf)
  = pre ++ filter (fun w => negb (Js.eqb (Video.id w) id)) suf.
Proof.
  intros Hpre Hv. rewrite filter_app, (filter_others id pre Hpre). simpl.
  now rewrite Hv, Js_eqb_refl.
Qed.

(** C7. When the history holds an entry with the id ([v], the first such
    entry), [removeVideo] releases the object URL of [v], once, and the
    history becomes the entries before [v] followed by the entries after it
    that have another id; when [v] is the only entry with the id, that is
    the history without [v], the other entries unchanged and in order.
    When no entry has the id, nothing is released and nothing changes. *)
Theorem removeVideo_spec (id : jstring) (s : State) :
  (forall pre v suf,
      history s = pre ++ v :: suf ->
      Video.id v = id ->
      (forall w, In w pre -> Video.id w <> id) ->
      removeVideo id s
      = setHistory
          (fun _ => pre ++ filter (fun w => negb (Js.eqb (Video.id w) id)) suf)
          (call (RevokeObjectURL (Video.url v)) s)
      /\ log (removeVideo id s) = log s ++ [RevokeObjectURL (Video.url v)]
      /\ ((forall w, In w suf -> Video.id w <> id) ->
          history (removeVideo id s) = pre ++ suf))
  /\ ((forall w, In w (history s) -> Video.id w <> id) -> removeVideo id s = s).
Proof.
  split.
  - intros pre v suf Hh Hv Hpre. unfold removeVideo.
    rewrite Hh, (find_first id pre suf v Hpre Hv), (filter_first id pre suf v Hpre Hv).
    repeat split. intros Hsuf. simpl. now rewrite (filter_others id suf Hsuf).
  - intros Hno. unfold removeVideo.
    rewrite (find_others id _ Hno), (filter_others id _ Hno). now destruct s.
Qed.

Lemma removeVideo_spec_witness :
  let v1 := {| Video.id := str "1"; Video.url := str "blob:a"; Video.prompt := str "p";
               Video.resolution := R720p; Video.aspectRatio := Ratio16x9;
               Video.createdAt := 1 |} in
  let v2 := {| Video.id := str "2"; Video.url := str "blob:b"; Video.prompt := str "q";
               Video.resolution := R1080p; Video.aspectRatio := Ratio9x16;
               Video.createdAt := 2 |} in
  let s := setHistory (fun _ => [v1; v2]) initialState in
  (history (removeVideo (str "2") s) = [v1]
   /\ log (removeVideo (str "2") s) = [RevokeObjectURL (str "blob:b")])
  /\ removeVideo (str "3") s = s.
Proof.
  intros v1 v2 s.
  destruct (removeVideo_spec (str "2") s) as [Hin _].
  destruct (removeVideo_spec (str "3") s) as [_ Hout].
  split.
  - destruct (Hin [v1] v2 [] eq_refl eq_refl) as [_ [Hlog Hhist]].
    + intros w [<- | []]. vm_compute. discriminate.
    + split; [apply Hhist; intros w [] | exact Hlog].
  - apply Hout. intros w [<- | [<- | []]]; vm_compute; discriminate.
Defined.

(** ** Case-insensitive search *)

Lemma lowerChar_letter (c d : N) :
  (97 <= d <= 122)%N -> Js.lowerChar c = d <-> sameLetter c d.
Proof.
  intros Hd. unfold Js.lowerChar, sameLetter.
  destruct (N.leb_spec 65 c), (N.leb_spec c 90), (N.leb_spec 192 c),
    (N.leb_spec c 222), (N.eqb_spec c 215); simpl; lia.
Qed.

Lemma toLowerCase_word (mid needle : jstring) :
  Forall (fun d => (97 <= d <= 122)%N) needle ->
  Js.toLowerCase mid = needle <-> Forall2 sameLetter mid needle.
Proof.
  intros Hn. revert mid. induction Hn as [|d needle Hd Hn IH]; intros mid.
  - destruct mid; simpl; split; intros H;
      try discriminate; try reflexivity; try constructor; inversion H.
  - destruct mid as [|c mid]; simpl.
    + split; [discriminate | inversion 1].
    + split.
      * intros H. injection H as Hc Hm. constructor.
        -- now apply lowerChar_letter.
        -- now apply IH.
      * inversion 1; subst. f_equal.
        -- now apply lowerChar_letter.
        -- now apply IH.
Qed.

(** Searching the lower-cased text for a lower-case word finds the word
    in any mix of cases. *)
Lemma lowerIncludes_spec (s needle : jstring) :
  Forall (fun d => (97 <= d <= 122)%N) needle ->
  Js.includes (Js.toLowerCase s) needle = true <-> occursIgnoringCase needle s.
Proof.
  intros Hn. rewrite includes_spec. unfold occursIgnoringCase, Js.toLowerCase. split.
  - intros [pre [suf H]].
    apply map_eq_app in H. destruct H as [p [r [-> [Hp Hr]]]].
    apply map_eq_app in Hr. destruct Hr as [m [q [-> [Hm Hq]]]].
    exists p, m, q. split; [reflexivity|]. now apply toLowerCase_word.
  - intros [pre [mid [suf [-> H]]]].
    exists (List.map Js.lowerChar pre), (List.map Js.lowerChar suf).
    rewrite !map_app. do 2 f_equal.
    now apply (toLowerCase_word mid _ Hn).
Qed.

(** ** Classification of failures *)

Lemma orElse_nil (a : jstring) : Js.orElse a [] = a.
Proof. now destruct a. Qed.

Lemma includes_false (s needle : jstring) :
  ~ occurs needle s -> Js.includes s needle = false.
Proof.
  intros H. destruct (Js.includes s needle) eqn:E; [|reflexivity].
  exfalso. apply H. now apply includes_spec.
Qed.

Lemma quota_letters : Forall (fun d => (97 <= d <= 122)%N) (str "quota").
Proof. repeat constructor; vm_compute; discriminate. Qed.

(** The quota test on a string message. *)
Lemma isQuotaError_string (c : jstring) :
  exists quota,
    isQuotaError (VString c) = Some quota
    /\ (quota = true <->
        occurs (str "RESOURCE_EXHAUSTED") c \/ occurs (str "429") c
        \/ occursIgnoringCase (str "quota") c).
Proof.
  exists (Js.includes c (str "RESOURCE_EXHAUSTED")
          || (Js.includes c (str "429")
              || Js.includes (Js.toLowerCase c) (str "quota"))).
  split.
  - unfold isQuotaError. cbn [Val.includes Val.lowerIncludes orThen].
    destruct (Js.includes c (str "RESOURCE_EXHAUSTED")); [reflexivity|].
    destruct (Js.includes c (str "429")); reflexivity.
  - rewrite !orb_true_iff, (lowerIncludes_spec c _ quota_letters), !includes_spec.
    reflexivity.
Qed.

(** C4. A failure that is not a credential-reset signal and whose
    unwrapped message is a text [c] sets the error banner, flagged as a
    quota failure exactly when [c] contains [RESOURCE_EXHAUSTED], or [429],
    or the word [quota] in any mix of cases, and as a generic failure
    otherwise.  The text [quota exceeded RESOURCE_EXHAUSTED] is a quota
    failure and [internal server error] is a generic one.  (The unwrapped
    message is what the JSON text of the failure holds at [error.message];
    when that is not a text, no banner is set, as the lemma after the
    example shows.) *)
Theorem quota_classification :
  (forall (v : Version) (err : Thrown.t) (c : jstring) (s : State),
      unwrappedMessage v err = VString c ->
      ~ resetSignal v err c ->
      exists quota,
        catchBlock v err s
        = setError (Some {| message := bannerText v quota c; isQuota := quota |}) s
        /\ (quota = true <->
            occurs (str "RESOURCE_EXHAUSTED") c \/ occurs (str "429") c
            \/ occursIgnoringCase (str "quota") c))
  /\ (forall (v : Version) (s : State),
        catchBlock v (newError (str "quota exceeded RESOURCE_EXHAUSTED")) s
        = setError (Some {| message :=
                              bannerText v true (str "quota exceeded RESOURCE_EXHAUSTED");
                            isQuota := true |}) s)
  /\ (forall (v : Version) (s : State),
        catchBlock v (newError (str "internal server error")) s
        = setError (Some {| message := VString (str "internal server error");
                            isQuota := false |}) s).
Proof.
  split; [|split].
  - intros v err c s Hc Hreset.
    destruct (isQuotaError_string c) as [quota [Hq Hiff]].
    exists quota. split; [|exact Hiff].
    assert (Hmsg : Js.eqb (Thrown.message err) API_KEY_RESET_REQUIRED = false).
    { apply Js_eqb_neq. intros E. apply Hreset. now left. }
    destruct v; unfold catchBlock; unfold unwrappedMessage in Hc.
    + rewrite Hc, Hq, orElse_nil, Hmsg. now destruct quota.
    + rewrite Hc, Hq, orElse_nil, Hmsg. now destruct quota.
    + rewrite Hc, Hmsg, Hq. cbn [Val.includes].
      rewrite includes_false; [reflexivity|].
      intros O. apply Hreset. right. now split.
  - intros v s. destruct v; vm_compute; reflexivity.
  - intros v s. destruct v; vm_compute; reflexivity.
Qed.

Lemma quota_classification_witness :
  let err := newError (str "Rate limit: Quota used up") in
  exists quota,
    catchBlock Studio1 err initialState
    = setError (Some {| message := bannerText Studio1 quota (Thrown.message err);
                        isQuota := quota |}) initialState
    /\ quota = true.
Proof.
  intros err.
  destruct (proj1 quota_classification Studio1 err (Thrown.message err) initialState)
    as [quota [H Hiff]].
  - vm_compute. reflexivity.
  - intros [E | [E _]]; vm_compute in E; discriminate.
  - exists quota. split; [exact H|]. apply Hiff. right. right.
    exists (str "Rate limit: "), (str "Quota"), (str " used up").
    split; [reflexivity|].
    constructor; [right; reflexivity|].
    repeat (constructor; [left; reflexivity|]). constructor.
Defined.

(** A failure whose message is the JSON text [{"error":{"message":429}}] is
    not a reset signal and unwraps to the number 429, which has neither
    [includes] nor [toLowerCase]: the [catch] block throws at the quota
    test and sets no banner, neither a quota failure nor a generic one. *)
Lemma quota_classification_number_counterexample :
  let err := newError (jsonText "{'error':{'message':429}}") in
  Thrown.message err <> API_KEY_RESET_REQUIRED
  /\ (forall v, unwrappedMessage v err = VNumber (str "429"))
  /\ (forall v, isQuotaError (unwrappedMessage v err) = None)
  /\ (forall v s, catchBlock v err s = s)
  /\ (forall v, error (catchBlock v err initialState) = None).
Proof.
  intros err. repeat apply conj.
  - vm_compute. discriminate.
  - intros v. destruct v; vm_compute; reflexivity.
  - intros v. destruct v; vm_compute; reflexivity.
  - intros v s. destruct v; vm_compute; reflexivity.
  - intros v. destruct v; vm_compute; reflexivity.
Qed.

(** ** The recursion bound of the JSON parser *)

Lemma bind_Parsed {A B} (r : Json.result A) (k : A -> jstring -> Json.result B)
    (b : B) (rest : jstring) :
  Json.bind r k = Json.Parsed b rest ->
  exists a r', r = Json.Parsed a r' /\ k a r' = Json.Parsed b rest.
Proof. destruct r; simpl; try discriminate. intros H. eauto. Qed.

Lemma bind_fuel {A B} (r : Json.result A) (k : A -> jstring -> Json.result B) :
  r <> Json.OutOfFuel ->
  (forall a r', r = Json.Parsed a r' -> k a r' <> Json.OutOfFuel) ->
  Json.bind r k <> Json.OutOfFuel.
Proof.
  destruct r; simpl; intros H1 H2.
  - now contradiction H1.
  - discriminate.
  - now apply H2.
Qed.

Lemma skipWs_le (s : jstring) : List.length (Json.skipWs s) <= List.length s.
Proof.
  induction s as [|c s IH]; simpl; [lia|].
  destruct (Json.isWs c); simpl; lia.
Qed.

Lemma expect_consumes (c : N) : consumes (Json.expect c).
Proof.
  intros s a r. unfold Json.expect. pose proof (skipWs_le s) as Hle.
  destruct (Json.skipWs s) as [|d r0]; [discriminate|].
  destruct (N.eqb c d); [|discriminate]. intros [= _ <-]. simpl in Hle. lia.
Qed.

Lemma expect_fuel (c : N) : fuelFree (Json.expect c).
Proof.
  intros s. unfold Json.expect. destruct (Json.skipWs s) as [|d r0]; [discriminate|].
  destruct (N.eqb c d); discriminate.
Qed.

Lemma parseChars_props (n : nat) :
  forall s, List.length s <= n ->
    Json.parseChars s <> Json.OutOfFuel
    /\ forall x r, Json.parseChars s = Json.Parsed x r -> List.length r < List.length s.
Proof.
  induction n as [|n IH]; intros s Hn.
  - destruct s; [|simpl in Hn; lia]. simpl. split; [discriminate | discriminate].
  - destruct s as [|c r0]; [simpl; split; discriminate|].
    simpl in Hn. cbn [Json.parseChars].
    assert (Hcons : forall (d : N) (t : jstring),
               List.length t <= n ->
               Json.consChar d (Json.parseChars t) <> Json.OutOfFuel
               /\ forall x r, Json.consChar d (Json.parseChars t) = Json.Parsed x r ->
                              List.length r < List.length t).
    { intros d t Ht. destruct (IH t Ht) as [Hf Hl]. unfold Json.consChar. split.
      - apply bind_fuel; [exact Hf | discriminate].
      - intros x r H. apply bind_Parsed in H. destruct H as [a [r' [Hp H]]].
        injection H as _ <-. exact (Hl a r' Hp). }
    destruct (N.eqb c 34).
    { split; [discriminate|]. intros x r [= _ <-]. simpl. lia. }
    destruct (N.eqb c 92).
    + destruct r0 as [|e r1]; [split; discriminate|]. simpl in Hn.
      destruct (N.eqb e 117).
      * destruct r1 as [|h1 [|h2 [|h3 [|h4 r2]]]]; try (split; discriminate).
        simpl in Hn. destruct (Json.hex4 h1 h2 h3 h4); [|split; discriminate].
        destruct (Hcons n0 r2 ltac:(lia)) as [Hf Hl]. split; [exact Hf|].
        intros x r H. specialize (Hl x r H). simpl. lia.
      * destruct (Json.escapeChar e); [|split; discriminate].
        destruct (Hcons n0 r1 ltac:(lia)) as [Hf Hl]. split; [exact Hf|].
        intros x r H. specialize (Hl x r H). simpl. lia.
    + destruct (N.ltb c 32); [split; discriminate|].
      destruct (Hcons c r0 ltac:(lia)) as [Hf Hl]. split; [exact Hf|].
      intros x r H. specialize (Hl x r H). simpl. lia.
Qed.

Lemma parseChars_consumes : consumes Json.parseChars.
Proof.
  intros s x r. exact (proj2 (parseChars_props (List.length s) s (le_n _)) x r).
Qed.

Lemma parseChars_fuel : fuelFree Json.parseChars.
Proof.
  intros s. exact (proj1 (parseChars_props (List.length s) s (le_n _))).
Qed.

Lemma spanDigits_length (s d r : jstring) :
  Json.spanDigits s = (d, r) -> List.length s = List.length d + List.length r.
Proof.
  revert d r. induction s as [|c s IH]; intros d r; simpl.
  - intros [= <- <-]. reflexivity.
  - destruct (Json.isDigit c).
    + destruct (Json.spanDigits s) as [d' r'] eqn:E. intros [= <- <-].
      simpl. rewrite (IH d' r' eq_refl). reflexivity.
    + intros [= <- <-]. reflexivity.
Qed.

Lemma digits1_consumes : consumes Json.digits1.
Proof.
  intros s d r. unfold Json.digits1.
  destruct (Json.spanDigits s) as [d' r'] eqn:E. apply spanDigits_length in E.
  destruct d'; [discriminate|]. intros [= _ <-]. simpl in E. lia.
Qed.

Lemma digits1_fuel : fuelFree Json.digits1.
Proof.
  intros s. unfold Json.digits1. destruct (Json.spanDigits s) as [[|c d] r]; discriminate.
Qed.

Lemma intPart_consumes : consumes Json.intPart.
Proof.
  intros s d r. unfold Json.intPart. destruct s as [|c s']; [discriminate|].
  destruct (N.eqb c 48).
  - intros [= _ <-]. simpl. lia.
  - apply digits1_consumes.
Qed.

Lemma intPart_fuel : fuelFree Json.intPart.
Proof.
  intros s. unfold Json.intPart. destruct s as [|c s']; [discriminate|].
  destruct (N.eqb c 48); [discriminate | apply digits1_fuel].
Qed.

Lemma fracPart_le (s d r : jstring) :
  Json.fracPart s = Json.Parsed d r -> List.length r <= List.length s.
Proof.
  unfold Json.fracPart. destruct s as [|c s']; [intros [= _ <-]; lia|].
  destruct (N.eqb c 46).
  - intros H. apply bind_Parsed in H. destruct H as [a [r' [Hd H]]].
    injection H as _ <-. apply digits1_consumes in Hd. simpl. lia.
  - intros [= _ <-]. lia.
Qed.

Lemma fracPart_fuel : fuelFree Json.fracPart.
Proof.
  intros s. unfold Json.fracPart. destruct s as [|c s']; [discriminate|].
  destruct (N.eqb c 46); [|discriminate].
  apply bind_fuel; [apply digits1_fuel | discriminate].
Qed.

Lemma expPart_le (s d r : jstring) :
  Json.expPart s = Json.Parsed d r -> List.length r <= List.length s.
Proof.
  unfold Json.expPart. destruct s as [|c s']; [intros [= _ <-]; lia|].
  destruct (N.eqb c 101 || N.eqb c 69); [|intros [= _ <-]; lia].
  destruct s' as [|sg r1]; [discriminate|].
  destruct (N.eqb sg 43 || N.eqb sg 45); intros H; apply bind_Parsed in H;
    destruct H as [a [r' [Hd H]]]; injection H as _ <-;
    apply digits1_consumes in Hd; simpl in *; lia.
Qed.

Lemma expPart_fuel : fuelFree Json.expPart.
Proof.
  intros s. unfold Json.expPart. destruct s as [|c s']; [discriminate|].
  destruct (N.eqb c 101 || N.eqb c 69); [|discriminate].
  destruct s' as [|sg r1]; [discriminate|].
  destruct (N.eqb sg 43 || N.eqb sg 45);
    (apply bind_fuel; [apply digits1_fuel | discriminate]).
Qed.

Lemma unsignedNumber_consumes : consumes Json.unsignedNumber.
Proof.
  intros s n r. unfold Json.unsignedNumber. intros H.
  apply bind_Parsed in H. destruct H as [i [r1 [Hi H]]].
  apply bind_Parsed in H. destruct H as [f [r2 [Hf H]]].
  apply bind_Parsed in H. destruct H as [e [r3 [He H]]].
  injection H as _ <-.
  apply intPart_consumes in Hi. apply fracPart_le in Hf. apply expPart_le in He. lia.
Qed.

Lemma unsignedNumber_fuel : fuelFree Json.unsignedNumber.
Proof.
  intros s. unfold Json.unsignedNumber.
  apply bind_fuel; [apply intPart_fuel|]. intros i r1 _.
  apply bind_fuel; [apply fracPart_fuel|]. intros f r2 _.
  apply bind_fuel; [apply expPart_fuel|]. discriminate.
Qed.

Lemma parseNumber_consumes : consumes Json.parseNumber.
Proof.
  intros s n r. unfold Json.parseNumber. destruct s as [|c s']; [discriminate|].
  destruct (N.eqb c 45).
  - intros H. apply bind_Parsed in H. destruct H as [a [r' [Hn H]]].
    injection H as _ <-. apply unsignedNumber_consumes in Hn. simpl. lia.
  - apply unsignedNumber_consumes.
Qed.

Lemma parseNumber_fuel : fuelFree Json.parseNumber.
Proof.
  intros s. unfold Json.parseNumber. destruct s as [|c s']; [discriminate|].
  destruct (N.eqb c 45); [|apply unsignedNumber_fuel].
  apply bind_fuel; [apply unsignedNumber_fuel | discriminate].
Qed.

Lemma keyword_consumes (w : string) (v : value) :
  w <> EmptyString -> consumes (Json.keyword w v).
Proof.
  intros Hw s a r. unfold Json.keyword.
  destruct (Js.startsWith s (str w)) eqn:E; [|discriminate].
  intros [= _ <-]. apply startsWith_spec in E. destruct E as [suf ->].
  assert (Hlen : 0 < List.length (str w)).
  { destruct w; [congruence|]. unfold str. simpl. lia. }
  rewrite skipn_app, Nat.sub_diag, skipn_all, !length_app.
  cbn [skipn List.length]. lia.
Qed.

Lemma keyword_fuel (w : string) (v : value) : fuelFree (Json.keyword w v).
Proof.
  intros s. unfold Json.keyword. destruct (Js.startsWith s (str w)); discriminate.
Qed.

(** A value, a member list and an element list take at least one
    character each. *)
Lemma parse_consumes (fuel : nat) :
  consumes (Json.parseValue fuel)
  /\ consumes (Json.parseMembers fuel)
  /\ consumes (Json.parseElements fuel).
Proof.
  induction fuel as [|f [IHv [IHm IHe]]].
  - repeat split; intros s a r; discriminate.
  - split; [|split]; intros s a r; cbn [Json.parseValue Json.parseMembers Json.parseElements].
    + pose proof (skipWs_le s) as Hle.
      destruct (Json.skipWs s) as [|c r0]; [discriminate|]. simpl in Hle.
      destruct (N.eqb c 34).
      { intros H. apply bind_Parsed in H. destruct H as [x [r' [Hc H]]].
        injection H as _ <-. apply parseChars_consumes in Hc. lia. }
      destruct (N.eqb c 123).
      { destruct (Json.expect 125 r0) as [| |u r1] eqn:E.
        - intros H. apply bind_Parsed in H. destruct H as [x [r' [Hm H]]].
          injection H as _ <-. apply IHm in Hm. lia.
        - intros H. apply bind_Parsed in H. destruct H as [x [r' [Hm H]]].
          injection H as _ <-. apply IHm in Hm. lia.
        - intros [= _ <-]. apply expect_consumes in E. lia. }
      destruct (N.eqb c 91).
      { destruct (Json.expect 93 r0) as [| |u r1] eqn:E.
        - intros H. apply bind_Parsed in H. destruct H as [x [r' [Hm H]]].
          injection H as _ <-. apply IHe in Hm. lia.
        - intros H. apply bind_Parsed in H. destruct H as [x [r' [Hm H]]].
          injection H as _ <-. apply IHe in Hm. lia.
        - intros [= _ <-]. apply expect_consumes in E. lia. }
      destruct (N.eqb c 116).
      { intros H. apply keyword_consumes in H; [simpl in H; lia | discriminate]. }
      destruct (N.eqb c 102).
      { intros H. apply keyword_consumes in H; [simpl in H; lia | discriminate]. }
      destruct (N.eqb c 110).
      { intros H. apply keyword_consumes in H; [simpl in H; lia | discriminate]. }
      intros H. apply bind_Parsed in H. destruct H as [x [r' [Hn H]]].
      injection H as _ <-. apply parseNumber_consumes in Hn. simpl in Hn. lia.
    + intros H.
      apply bind_Parsed in H. destruct H as [u0 [r0 [H0 H]]].
      apply bind_Parsed in H. destruct H as [k [r1 [H1 H]]].
      apply bind_Parsed in H. destruct H as [u2 [r2 [H2 H]]].
      apply bind_Parsed in H. destruct H as [v [r3 [H3 H]]].
      apply expect_consumes in H0, H2. apply parseChars_consumes in H1.
      apply IHv in H3.
      destruct (Json.expect 44 r3) as [| |u4 r4] eqn:E.
      * apply bind_Parsed in H. destruct H as [u5 [r5 [H5 H]]].
        injection H as _ <-. apply expect_consumes in H5. lia.
      * apply bind_Parsed in H. destruct H as [u5 [r5 [H5 H]]].
        injection H as _ <-. apply expect_consumes in H5. lia.
      * apply bind_Parsed in H. destruct H as [fs [r5 [H5 H]]].
        injection H as _ <-. apply expect_consumes in E. apply IHm in H5. lia.
    + intros H.
      apply bind_Parsed in H. destruct H as [v [r1 [H1 H]]].
      apply IHv in H1.
      destruct (Json.expect 44 r1) as [| |u2 r2] eqn:E.
      * apply bind_Parsed in H. destruct H as [u3 [r3 [H3 H]]].
        injection H as _ <-. apply expect_consumes in H3. lia.
      * apply bind_Parsed in H. destruct H as [u3 [r3 [H3 H]]].
        injection H as _ <-. apply expect_consumes in H3. lia.
      * apply bind_Parsed in H. destruct H as [xs [r3 [H3 H]]].
        injection H as _ <-. apply expect_consumes in E. apply IHe in H3. lia.
Qed.

(** With fuel above twice the length of the input, the parsers do not run
    out of it. *)
Lemma parse_enough_fuel (fuel : nat) :
  (forall s, 2 * List.length s + 1 <= fuel -> Json.parseValue fuel s <> Json.OutOfFuel)
  /\ (forall s, 2 * List.length s + 2 <= fuel ->
                Json.parseMembers fuel s <> Json.OutOfFuel)
  /\ (forall s, 2 * List.length s + 2 <= fuel ->
                Json.parseElements fuel s <> Json.OutOfFuel).
Proof.
  induction fuel as [|f [IHv [IHm IHe]]].
  - repeat split; intros s H; lia.
  - destruct (parse_consumes f) as [Cv [Cm Ce]].
    split; [|split]; intros s Hs;
      cbn [Json.parseValue Json.parseMembers Json.parseElements].
    + pose proof (skipWs_le s) as Hle.
      destruct (Json.skipWs s) as [|c r0]; [discriminate|]. simpl in Hle.
      destruct (N.eqb c 34).
      { apply bind_fuel; [apply parseChars_fuel | discriminate]. }
      destruct (N.eqb c 123).
      { destruct (Json.expect 125 r0) as [| |u r1] eqn:E; try discriminate;
          (apply bind_fuel; [apply IHm; lia | discriminate]). }
      destruct (N.eqb c 91).
      { destruct (Json.expect 93 r0) as [| |u r1] eqn:E; try discriminate;
          (apply bind_fuel; [apply IHe; lia | discriminate]). }
      destruct (N.eqb c 116); [apply keyword_fuel|].
      destruct (N.eqb c 102); [apply keyword_fuel|].
      destruct (N.eqb c 110); [apply keyword_fuel|].
      apply bind_fuel; [apply parseNumber_fuel | discriminate].
    + apply bind_fuel; [apply expect_fuel|]. intros u0 r0 H0.
      apply bind_fuel; [apply parseChars_fuel|]. intros k r1 H1.
      apply bind_fuel; [apply expect_fuel|]. intros u2 r2 H2.
      apply expect_consumes in H0, H2. apply parseChars_consumes in H1.
      apply bind_fuel; [apply IHv; lia|]. intros v r3 H3. apply Cv in H3.
      destruct (Json.expect 44 r3) as [| |u4 r4] eqn:E.
      * exfalso. exact (expect_fuel 44 r3 E).
      * apply bind_fuel; [apply expect_fuel | discriminate].
      * apply expect_consumes in E.
        apply bind_fuel; [apply IHm; lia | discriminate].
    + apply bind_fuel; [apply IHv; lia|]. intros v r1 H1. apply Cv in H1.
      destruct (Json.expect 44 r1) as [| |u2 r2] eqn:E.
      * exfalso. exact (expect_fuel 44 r1 E).
      * apply bind_fuel; [apply expect_fuel | discriminate].
      * apply expect_consumes in E.
        apply bind_fuel; [apply IHe; lia | discriminate].
Qed.

(** [parse] never stops for lack of fuel: [None] is a [SyntaxError]. *)
Lemma parse_fuel (text : jstring) :
  Json.parseValue (S (2 * List.length text)) text <> Json.OutOfFuel.
Proof. apply (proj1 (parse_enough_fuel _)). lia. Qed.

(** ** Unwrapping an error message *)

Lemma parseChars_plain (x rest : jstring) :
  Forall plainChar x -> Json.parseChars (x ++ 34%N :: rest) = Json.Parsed x rest.
Proof.
  induction 1 as [|c x [H32 [H34 [H92 _]]] Hx IH]; simpl.
  - reflexivity.
  - rewrite (proj2 (N.eqb_neq c 34) H34), (proj2 (N.eqb_neq c 92) H92).
    rewrite (proj2 (N.ltb_ge c 32) H32). rewrite IH. reflexivity.
Qed.

Lemma parseValue_errorJson (n : nat) (x rest : jstring) :
  Forall plainChar x ->
  Json.parseValue (5 + n) (errorJson x ++ rest)
  = Json.Parsed (VObject [(str "error", VObject [(str "message", VString x)])]) rest.
Proof.
  intros Hx. unfold errorJson.
  set (p := jsonText "{'error':{'message':'"). vm_compute in p. subst p.
  set (q := jsonText "'}}"). vm_compute in q. subst q.
  rewrite <- !app_assoc. cbn. rewrite (parseChars_plain _ _ Hx). reflexivity.
Qed.

Lemma parse_errorJson (x : jstring) :
  Forall plainChar x ->
  Json.parse (errorJson x)
  = Some (VObject [(str "error", VObject [(str "message", VString x)])]).
Proof.
  intros Hx. unfold Json.parse.
  replace (S (2 * List.length (errorJson x)))
    with (5 + (2 * List.length x + 44))
    by (unfold errorJson; rewrite !length_app; simpl; lia).
  rewrite <- (app_nil_r (errorJson x)) at 1.
  now rewrite (parseValue_errorJson _ _ _ Hx).
Qed.

Lemma errorMessage_errorJson (x : jstring) :
  Val.errorMessage (VObject [(str "error", VObject [(str "message", VString x)])])
  = Some (VString x).
Proof. reflexivity. Qed.


Lemma uptoLastBrace_none (s : jstring) :
  Forall (fun c => c <> 125%N) s -> Regex.uptoLastBrace s = None.
Proof.
  induction 1 as [|c s Hc Hs IH]; simpl; [reflexivity|].
  rewrite IH, (proj2 (N.eqb_neq c 125) Hc). now destruct (Js.isLineTerminator c).
Qed.

Lemma uptoLastBrace_found (body suf : jstring) :
  Forall (fun c => Js.isLineTerminator c = false) body ->
  Regex.uptoLastBrace suf = None ->
  Regex.uptoLastBrace (body ++ 125%N :: suf) = Some (body ++ [125%N]).
Proof.
  intros Hb Hs. induction Hb as [|c body Hc Hb IH]; simpl.
  - now rewrite Hs.
  - now rewrite Hc, IH.
Qed.

Lemma matchBraces_skip (pre s : jstring) :
  Forall (fun c => c <> 123%N) pre ->
  Regex.matchBraces (pre ++ s) = Regex.matchBraces s.
Proof.
  induction 1 as [|c pre Hc Hp IH]; simpl; [reflexivity|].
  now rewrite (proj2 (N.eqb_neq c 123) Hc).
Qed.

(** What the regular expression locates: from the first opening brace to
    the last closing brace. *)
Lemma matchBraces_found (pre body suf : jstring) :
  Forall (fun c => c <> 123%N) pre ->
  Forall (fun c => Js.isLineTerminator c = false) body ->
  Forall (fun c => c <> 125%N) suf ->
  Regex.matchBraces (pre ++ 123%N :: body ++ 125%N :: suf)
  = Some (123%N :: body ++ [125%N]).
Proof.
  intros Hp Hb Hs. rewrite (matchBraces_skip _ _ Hp). simpl.
  now rewrite (uptoLastBrace_found _ _ Hb (uptoLastBrace_none _ Hs)).
Qed.


Lemma plainChar_not_terminator (c : N) :
  plainChar c -> Js.isLineTerminator c = false.
Proof.
  intros [H32 [_ [_ [H1 H2]]]]. unfold Js.isLineTerminator.
  destruct (N.eqb_spec c 10), (N.eqb_spec c 13), (N.eqb_spec c 8232),
    (N.eqb_spec c 8233); simpl; try reflexivity; lia.
Qed.


Lemma orElse_nonEmpty (a b : jstring) : a <> [] -> Js.orElse a b = a.
Proof. destruct a; [congruence | reflexivity]. Qed.




(** ** What the [catch] block leaves alone *)

Ltac split_matches :=
  repeat match goal with
         | |- context [match ?x with _ => _ end] => destruct x
         end.

Lemma catchBlock_frame (v : Version) (err : Thrown.t) (s : State) :
  let s' := catchBlock v err s in
  prompt s' = prompt s /\ resolution s' = resolution s
  /\ aspectRatio s' = aspectRatio s /\ isGenerating s' = isGenerating s
  /\ history s' = history s /\ selectedImage s' = selectedImage s
  /\ jobs s' = jobs s.
Proof.
  unfold catchBlock. destruct v; split_matches; cbn; repeat split.
Qed.

(** The adapter turns a rejection that mentions the missing entity into
    the reset signal. *)
Lemma rethrow_not_found (e : Thrown.t) :
  occurs NOT_FOUND (Thrown.message e) ->
  Service.rethrow e = newError API_KEY_RESET_REQUIRED.
Proof.
  intros H. unfold Service.rethrow. rewrite orElse_nil.
  rewrite includes_app_r; [reflexivity|]. now apply includes_spec.
Qed.

Lemma catchBlock_reset (v : Version) (s : State) :
  catchBlock v (newError API_KEY_RESET_REQUIRED) s
  = call OnKeyReset (match v with Studio3 => s | _ => setError None s end).
Proof. destruct v; vm_compute; reflexivity. Qed.
(** ** Steps of a run *)

Lemma setPhase_same (j : Job) (p : Phase) : phase j = p -> setPhase p j = j.
Proof. destruct j; simpl; now intros ->. Qed.

Lemma setPhase_setPhase (j : Job) (p q : Phase) :
  setPhase q (setPhase p j) = setPhase q j.
Proof. reflexivity. Qed.

Lemma sameCells_refl (s : State) : sameCells s s.
Proof. repeat split. Qed.

Lemma sameCells_trans (s1 s2 s3 : State) :
  sameCells s1 s2 -> sameCells s2 s3 -> sameCells s1 s3.
Proof.
  unfold sameCells. intros [? [? [? [? [? [? ?]]]]]] [? [? [? [? [? [? ?]]]]]].
  repeat split; congruence.
Qed.

(** One pass through the loop body while the poll returns a pending
    operation. *)
Lemma loop_round (env : Env) (s : State) (j : Job) (operation operation' : Op.t)
    (stage : Stage) :
  jobs s = [j] ->
  phase j = Sleeping operation ->
  Op.done operation' = false ->
  exists s',
    exec env s [TimerFires 0; PollReturns 0 operation' stage] = Some s'
    /\ jobs s' = [setPhase (Sleeping operation') j]
    /\ log s' = log s ++ [GetVideosOperation (API_KEY env) operation; SetTimeout 10000]
    /\ sameCells s s'.
Proof.
  intros Hjobs Hphase Hdone.
  eexists. split.
  - unfold exec, step. cbn [target]. rewrite Hjobs. cbn [nth_error].
    unfold resume. rewrite Hphase. cbn [target].
    unfold afterTimer at 1. cbn [jobs suspend setJobs call]. rewrite Hjobs.
    cbn [replaceAt nth_error setPhase phase].
    unfold loopTest. rewrite Hdone. cbn [negb]. reflexivity.
  - cbn. rewrite Hjobs. cbn. rewrite <- app_assoc. repeat split.
Qed.

Lemma exec_app (env : Env) (s : State) (es1 es2 : list Event) :
  exec env s (es1 ++ es2)
  = match exec env s es1 with
    | Some s' => exec env s' es2
    | None => None
    end.
Proof.
  revert s. induction es1 as [|e es1 IH]; intros s; simpl; [reflexivity|].
  destruct (step env s e); [apply IH | reflexivity].
Qed.

Lemma pollCalls_loopCalls (key : jstring) (operation : Op.t)
    (polls : list (Op.t * Stage)) :
  SetTimeout 10000 :: pollCalls key operation polls
  = loopCalls key operation polls ++ [SetTimeout 10000].
Proof.
  revert operation. induction polls as [|[operation' st] polls IH]; intros operation.
  - reflexivity.
  - simpl. now rewrite IH.
Qed.

(** While the polls return pending operations the invocation stays in the
    loop, however many they are. *)
Lemma loop_pending (env : Env) (polls : list (Op.t * Stage)) :
  forall (s : State) (j : Job) (operation : Op.t),
    jobs s = [j] ->
    phase j = Sleeping operation ->
    allPending polls ->
    exists s',
      exec env s (pollEvents 0 polls) = Some s'
      /\ jobs s' = [setPhase (Sleeping (lastOperation operation polls)) j]
      /\ log s' = log s ++ pollCalls (API_KEY env) operation polls
      /\ sameCells s s'.
Proof.
  induction polls as [|[operation' st] polls IH]; intros s j operation Hjobs Hphase Hpend.
  - exists s. simpl. rewrite app_nil_r, (setPhase_same _ _ Hphase).
    repeat split. exact Hjobs.
  - inversion Hpend as [|? ? Hd Hrest]; subst. simpl in Hd.
    destruct (loop_round env s j operation operation' st Hjobs Hphase Hd)
      as [s1 [Hexec [Hjobs1 [Hlog1 Hsame1]]]].
    destruct (IH s1 (setPhase (Sleeping operation') j) operation' Hjobs1 eq_refl Hrest)
      as [s2 [Hexec2 [Hjobs2 [Hlog2 Hsame2]]]].
    exists s2. split; [|split; [|split]].
    + change (pollEvents 0 ((operation', st) :: polls))
        with ([TimerFires 0; PollReturns 0 operation' st] ++ pollEvents 0 polls).
      now rewrite exec_app, Hexec.
    + exact Hjobs2.
    + rewrite Hlog2, Hlog1, <- app_assoc. reflexivity.
    + exact (sameCells_trans _ _ _ Hsame1 Hsame2).
Qed.
(** The last pass through the loop body: the poll returns an operation that
    is done, and the code after the loop runs. *)
Lemma loop_exit (env : Env) (s : State) (j : Job) (operation final : Op.t)
    (stage : Stage) :
  jobs s = [j] ->
  phase j = Sleeping operation ->
  Op.done final = true ->
  exec env s [TimerFires 0; PollReturns 0 final stage]
  = Some (afterLoop env 0 (setPhase (Polling operation) j) final
            (afterTimer env 0 j operation s)).
Proof.
  intros Hjobs Hphase Hdone.
  unfold exec, step. cbn [target]. rewrite Hjobs. cbn [nth_error].
  unfold resume. rewrite Hphase. cbn [target].
  unfold afterTimer at 1. cbn [jobs suspend setJobs call]. rewrite Hjobs.
  cbn [replaceAt nth_error setPhase phase].
  unfold loopTest. rewrite Hdone. reflexivity.
Qed.

Lemma endsDone_done (operation : Op.t) (polls : list (Op.t * Stage)) :
  Op.done operation = true -> endsDone operation polls -> polls = [].
Proof.
  intros Hd. destruct polls as [|[operation' st] polls]; [reflexivity|].
  simpl. intros [H _]. congruence.
Qed.

(** From inside the loop to the code after it, when the polls end with an
    operation that is done. *)
Lemma loop_to_end (env : Env) (polls : list (Op.t * Stage)) :
  forall (s : State) (j : Job) (operation : Op.t),
    jobs s = [j] ->
    phase j = Sleeping operation ->
    Op.done operation = false ->
    endsDone operation polls ->
    exists s1 p calls,
      exec env s (pollEvents 0 polls)
      = Some (afterLoop env 0 (setPhase p j) (lastOperation operation polls) s1)
      /\ jobs s1 = [setPhase p j]
      /\ sameCells s s1
      /\ log s1 = log s ++ calls
      /\ SetTimeout 10000 :: calls = loopCalls (API_KEY env) operation polls.
Proof.
  induction polls as [|[operation' st] polls IH]; intros s j operation Hjobs Hphase Hd Hend.
  - simpl in Hend. congruence.
  - destruct Hend as [_ Hend].
    destruct (Op.done operation') eqn:Hd'.
    + pose proof (endsDone_done _ _ Hd' Hend) as Hnil. subst polls.
      exists (afterTimer env 0 j operation s), (Polling operation),
        [GetVideosOperation (API_KEY env) operation].
      split; [|split; [|split; [|split]]].
      * now apply loop_exit.
      * unfold afterTimer, suspend. simpl. now rewrite Hjobs.
      * repeat split.
      * reflexivity.
      * reflexivity.
    + destruct (loop_round env s j operation operation' st Hjobs Hphase Hd')
        as [s' [Hexec [Hjobs' [Hlog' Hsame']]]].
      destruct (IH s' (setPhase (Sleeping operation') j) operation' Hjobs' eq_refl Hd' Hend)
        as [s1 [p [calls [Hexec1 [Hjobs1 [Hsame1 [Hlog1 Hcalls]]]]]]].
      exists s1, p,
        (GetVideosOperation (API_KEY env) operation :: SetTimeout 10000 :: calls).
      split; [|split; [|split; [|split]]].
      * change (pollEvents 0 ((operation', st) :: polls))
          with ([TimerFires 0; PollReturns 0 operation' st] ++ pollEvents 0 polls).
        rewrite exec_app, Hexec. exact Hexec1.
      * exact Hjobs1.
      * exact (sameCells_trans _ _ _ Hsame' Hsame1).
      * rewrite Hlog1, Hlog', <- app_assoc. reflexivity.
      * simpl. now rewrite Hcalls.
Qed.
(** From the click to the submission. *)
Lemma start_run (env : Env) (s : State) (dataUrl : jstring) :
  idle s ->
  submitDisabled s = false ->
  exists s0 j0,
    exec env s (ClickGenerate
                  :: match selectedImage s with
                     | Some _ => [FileRead 0 dataUrl]
                     | None => []
                     end)
    = Some s0
    /\ phase j0 = Submitting
    /\ midRun s (submitCalls env s dataUrl) j0 s0.
Proof.
  intros [Hjobs Hgen] Hdis.
  assert (Hcond : negb (Js.nonEmpty (Js.trim (prompt s)))
                  && match selectedImage s with None => true | Some _ => false end
                  = false).
  { unfold submitDisabled in Hdis. rewrite Hgen in Hdis. exact Hdis. }
  unfold submitCalls.
  destruct (selectedImage s) as [img|] eqn:Himg.
  - eexists. exists (Build_Job (prompt s) (resolution s) (aspectRatio s) Submitting).
    split; [|split].
    + unfold exec, step. rewrite Hdis. unfold startGeneration.
      rewrite Himg, Hcond. cbn [target]. cbn. rewrite Hjobs. cbn. reflexivity.
    + reflexivity.
    + unfold midRun. cbn. rewrite <- app_assoc. repeat split; assumption.
  - eexists. exists (Build_Job (prompt s) (resolution s) (aspectRatio s) Submitting).
    split; [|split].
    + unfold exec, step. rewrite Hdis. unfold startGeneration.
      rewrite Himg, Hcond. cbn. rewrite Hjobs. cbn. reflexivity.
    + reflexivity.
    + unfold midRun. cbn. repeat split; assumption.
Qed.
(** A run from an idle state whose operations end with one that is done
    reaches the code after the loop, with that operation. *)
Lemma run_to_loop_end (env : Env) (s : State) (dataUrl : jstring)
    (operation : Op.t) (stage : Stage) (polls : list (Op.t * Stage)) :
  idle s ->
  submitDisabled s = false ->
  endsDone operation polls ->
  exists s1 j1,
    exec env s (runEvents s dataUrl operation stage polls)
    = Some (afterLoop env 0 j1 (lastOperation operation polls) s1)
    /\ midRun s (submitCalls env s dataUrl ++ loopCalls (API_KEY env) operation polls)
         j1 s1.
Proof.
  intros Hidle Hdis Hend.
  destruct (start_run env s dataUrl Hidle Hdis) as [s0 [j0 [Hexec0 [Hphase0 Hmid0]]]].
  unfold runEvents. rewrite app_comm_cons, exec_app, Hexec0.
  destruct Hmid0 as [Hjobs0 [Hp [Hr [Ha [Hp0 [Hr0 [Ha0 [Hg0 [Hh0 [He0 [Hi0 Hl0]]]]]]]]]]].
  cbn [exec]. unfold step. cbn [target]. rewrite Hjobs0. cbn [nth_error].
  unfold resume. rewrite Hphase0. unfold afterSubmit, loopTest.
  destruct (Op.done operation) eqn:Hd; cbn [negb].
  - pose proof (endsDone_done _ _ Hd Hend) as Hnil. subst polls. cbn [pollEvents exec].
    eexists. exists j0. split; [reflexivity|].
    unfold midRun. cbn. rewrite app_nil_r. repeat split; assumption.
  - match goal with
    | |- context [exec env ?s0' _] =>
      destruct (loop_to_end env polls s0' (setPhase (Sleeping operation) j0) operation)
        as [s1 [p [calls [Hexec1 [Hjobs1 [Hsame1 [Hlog1 Hcalls]]]]]]]
    end.
    + cbn. now rewrite Hjobs0.
    + reflexivity.
    + exact Hd.
    + exact Hend.
    + rewrite Hexec1. exists s1, (setPhase p (setPhase (Sleeping operation) j0)).
      split; [reflexivity|].
      destruct Hsame1 as [H1 [H2 [H3 [H4 [H5 [H6 H7]]]]]].
      unfold midRun. cbn in *. rewrite Hjobs1, H1, H2, H3, H4, H5, H6, H7, Hlog1.
      rewrite Hl0, <- Hcalls, <- !app_assoc. repeat split; assumption.
Qed.
(** ** Runs that end *)

Lemma catchBlock_noContent (v : Version) (s : State) :
  catchBlock v (newError (noContentMessage v)) s
  = setError (Some {| message := VString (noContentMessage v); isQuota := false |}) s.
Proof. destruct v; vm_compute; reflexivity. Qed.

(** The run whose last operation is done, without error and with a video
    URI, whose download succeeds. *)
Lemma run_success (env : Env) (s : State) (dataUrl : jstring)
    (operation : Op.t) (stage : Stage) (polls : list (Op.t * Stage))
    (u : jstring) (response : Resp.t) (now1 now2 : N) :
  idle s ->
  submitDisabled s = false ->
  endsDone operation polls ->
  Op.error (lastOperation operation polls) = None ->
  Op.uri (lastOperation operation polls) = Some u ->
  u <> [] ->
  Resp.ok response = true ->
  exists s',
    exec env s (runEvents s dataUrl operation stage polls
                  ++ [FetchResponds 0 response now1 now2])
    = Some s'
    /\ history s' = recordedVideo env s response now1 now2 :: history s
    /\ prompt s' = [] /\ selectedImage s' = None
    /\ isGenerating s' = false /\ jobs s' = [] /\ error s' = None
    /\ resolution s' = resolution s /\ aspectRatio s' = aspectRatio s
    /\ log s' = log s ++ submitCalls env s dataUrl
                  ++ loopCalls (API_KEY env) operation polls
                  ++ [Service.fetchRequest (API_KEY env) u].
Proof.
  intros Hidle Hdis Hend Herr Huri Hu Hok.
  destruct (run_to_loop_end env s dataUrl operation stage polls Hidle Hdis Hend)
    as [s1 [j1 [Hexec Hmid]]].
  destruct Hmid as [Hjobs [Hp [Hr [Ha [Hp1 [Hr1 [Ha1 [Hg1 [Hh1 [He1 [Hi1 Hl1]]]]]]]]]]].
  rewrite exec_app, Hexec.
  unfold afterLoop. rewrite Herr, Huri.
  destruct u as [|c u]; [congruence|].
  cbn [exec]. unfold step. cbn [target].
  cbn [jobs suspend setJobs call setStatusMessage]. rewrite Hjobs.
  cbn [replaceAt nth_error]. unfold resume. cbn [phase setPhase].
  unfold afterFetch, Service.fetchVideoBlobUrl. rewrite Hok. cbn [negb].
  eexists. split; [reflexivity|].
  unfold recordedVideo. cbn. rewrite Hjobs, Hp, Hr, Ha, Hh1, He1, Hr1, Ha1, Hl1.
  cbn. rewrite <- !app_assoc. repeat split.
Qed.

(** The run whose last operation is done, without error and without a
    video URI. *)
Lemma run_noContent (env : Env) (s : State) (dataUrl : jstring)
    (operation : Op.t) (stage : Stage) (polls : list (Op.t * Stage)) :
  idle s ->
  submitDisabled s = false ->
  endsDone operation polls ->
  Op.error (lastOperation operation polls) = None ->
  Op.uri (lastOperation operation polls) = None
  \/ Op.uri (lastOperation operation polls) = Some [] ->
  exists s',
    exec env s (runEvents s dataUrl operation stage polls) = Some s'
    /\ error s'
       = Some {| message := VString (noContentMessage (version env)); isQuota := false |}
    /\ history s' = history s
    /\ isGenerating s' = false /\ jobs s' = []
    /\ prompt s' = prompt s /\ selectedImage s' = selectedImage s
    /\ log s' = log s ++ submitCalls env s dataUrl
                  ++ loopCalls (API_KEY env) operation polls.
Proof.
  intros Hidle Hdis Hend Herr Huri.
  destruct (run_to_loop_end env s dataUrl operation stage polls Hidle Hdis Hend)
    as [s1 [j1 [Hexec Hmid]]].
  destruct Hmid as [Hjobs [Hp [Hr [Ha [Hp1 [Hr1 [Ha1 [Hg1 [Hh1 [He1 [Hi1 Hl1]]]]]]]]]]].
  rewrite Hexec. eexists. split; [reflexivity|].
  assert (E : afterLoop env 0 j1 (lastOperation operation polls) s1
              = throw env 0 (newError (noContentMessage (version env))) s1).
  { unfold afterLoop. rewrite Herr. now destruct Huri as [-> | ->]. }
  rewrite E. unfold throw. rewrite catchBlock_noContent.
  cbn. rewrite Hjobs. repeat split; assumption.
Qed.
(** C2, as amended.  A run from an idle state whose operations end with
    one that is done, has no error and has a video URI, and whose download
    succeeds, ends without error and with exactly one video put at the head
    of the history: its resolution and aspect ratio are those of the
    request, its prompt is the prompt of the request when that is not
    empty and the placeholder of the version otherwise.  The prompt and the
    selected image are cleared. *)
Theorem successful_run (env : Env) (s : State) (dataUrl : jstring)
    (operation : Op.t) (stage : Stage) (polls : list (Op.t * Stage))
    (u : jstring) (response : Resp.t) (now1 now2 : N) :
  idle s ->
  submitDisabled s = false ->
  endsDone operation polls ->
  Op.error (lastOperation operation polls) = None ->
  Op.uri (lastOperation operation polls) = Some u ->
  u <> [] ->
  Resp.ok response = true ->
  exists s' v,
    exec env s (runEvents s dataUrl operation stage polls
                  ++ [FetchResponds 0 response now1 now2])
    = Some s'
    /\ history s' = v :: history s
    /\ Video.resolution v = resolution s
    /\ Video.aspectRatio v = aspectRatio s
    /\ Video.prompt v
       = (if Js.nonEmpty (prompt s) then prompt s else placeholderPrompt (version env))
    /\ Video.url v = Resp.objectUrl response
    /\ error s' = None /\ isGenerating s' = false /\ jobs s' = []
    /\ prompt s' = [] /\ selectedImage s' = None.
Proof.
  intros Hidle Hdis Hend Herr Huri Hu Hok.
  destruct (run_success env s dataUrl operation stage polls u response now1 now2
              Hidle Hdis Hend Herr Huri Hu Hok)
    as [s' [Hexec [Hh [Hp [Hi [Hg [Hj [He _]]]]]]]].
  exists s', (recordedVideo env s response now1 now2).
  repeat split; assumption.
Qed.

Lemma successful_run_witness :
  exists s' v,
    exec (Sample.env Studio1) Sample.typed
      (runEvents Sample.typed [] Sample.pending Stage0
         [(Sample.pending, Stage3); (Sample.finished, Stage1)]
         ++ [FetchResponds 0 Sample.okResponse 1700000000000 1700000000001])
    = Some s'
    /\ history s' = [v]
    /\ Video.prompt v = str "a cat on a skateboard"
    /\ prompt s' = [].
Proof.
  destruct (successful_run (Sample.env Studio1) Sample.typed [] Sample.pending Stage0
              [(Sample.pending, Stage3); (Sample.finished, Stage1)]
              (str "https://video.example/v?alt=media") Sample.okResponse
              1700000000000 1700000000001)
    as [s' [v [Hexec [Hh [_ [_ [Hp [_ [_ [_ [_ [Hc _]]]]]]]]]]]].
  - split; reflexivity.
  - reflexivity.
  - simpl. repeat split; reflexivity.
  - reflexivity.
  - reflexivity.
  - discriminate.
  - reflexivity.
  - exists s', v. repeat split; assumption.
Defined.

(** With an image and an empty prompt the video recorded by a successful
    run does not carry the prompt of the request. *)
Lemma successful_run_prompt_counterexample :
  exists s' v,
    exec (Sample.env Studio1) Sample.imageOnly
      (runEvents Sample.imageOnly (str "data:image/png;base64,AAAA")
         Sample.pending Stage0 [(Sample.finished, Stage1)]
         ++ [FetchResponds 0 Sample.okResponse 1700000000000 1700000000001])
    = Some s'
    /\ history s' = [v]
    /\ prompt Sample.imageOnly = []
    /\ Video.prompt v = str "Image-to-Video Animation"
    /\ Video.prompt v <> prompt Sample.imageOnly.
Proof.
  eexists. eexists. split; [vm_compute; reflexivity|].
  split; [reflexivity|]. split; [reflexivity|]. split; [reflexivity|].
  vm_compute. discriminate.
Qed.

(** C6, as amended.  A run from an idle state whose operations end with
    one that is done, has no job-level error and has no video URI, fails
    with the message of the version that says that no video content was
    returned (in [Studio1] and [Studio2] followed by a hint), shown as a
    generic failure; the history, the prompt and the selected image are as
    before the run, and nothing was fetched. *)
Theorem empty_result_run (env : Env) (s : State) (dataUrl : jstring)
    (operation : Op.t) (stage : Stage) (polls : list (Op.t * Stage)) :
  idle s ->
  submitDisabled s = false ->
  endsDone operation polls ->
  Op.error (lastOperation operation polls) = None ->
  Op.uri (lastOperation operation polls) = None
  \/ Op.uri (lastOperation operation polls) = Some [] ->
  (exists s',
      exec env s (runEvents s dataUrl operation stage polls) = Some s'
      /\ error s'
         = Some {| message := VString (noContentMessage (version env));
                   isQuota := false |}
      /\ history s' = history s
      /\ isGenerating s' = false /\ jobs s' = []
      /\ prompt s' = prompt s /\ selectedImage s' = selectedImage s
      /\ log s' = log s ++ submitCalls env s dataUrl
                    ++ loopCalls (API_KEY env) operation polls)
  /\ occurs (str "no video content was returned") (noContentMessage (version env))
  /\ noContentMessage Studio1
     = str "Generation completed but no video content was returned."
         ++ str " This can happen if the content was flagged by safety filters."
  /\ noContentMessage Studio2
     = str "Video generation completed but no video content was returned."
         ++ str " This might be a temporary API issue.".
Proof.
  intros Hidle Hdis Hend Herr Huri. split; [|split; [|split]].
  - exact (run_noContent env s dataUrl operation stage polls Hidle Hdis Hend Herr Huri).
  - apply includes_spec. destruct (version env); reflexivity.
  - reflexivity.
  - reflexivity.
Qed.

Lemma empty_result_run_witness :
  exists s',
    exec (Sample.env Studio2) Sample.typed
      (runEvents Sample.typed [] Sample.pending Stage0 [(Sample.empty, Stage2)])
    = Some s'
    /\ error s'
       = Some {| message := VString (noContentMessage Studio2); isQuota := false |}
    /\ history s' = [].
Proof.
  destruct (empty_result_run (Sample.env Studio2) Sample.typed [] Sample.pending Stage0
              [(Sample.empty, Stage2)])
    as [[s' [Hexec [He [Hh _]]]] _].
  - split; reflexivity.
  - reflexivity.
  - simpl. split; reflexivity.
  - reflexivity.
  - left. reflexivity.
  - exists s'. repeat split; assumption.
Defined.

(** A run whose last operation is done without a video URI but with a
    job-level error fails with the message of that error, which says
    nothing about missing content. *)
Lemma empty_result_run_error_counterexample :
  exists s',
    exec (Sample.env Studio1) Sample.typed
      (runEvents Sample.typed [] Sample.pending Stage0 [(Sample.failed, Stage2)])
    = Some s'
    /\ Op.done Sample.failed = true /\ Op.uri Sample.failed = None
    /\ error s'
       = Some {| message := VString (str "The prompt was rejected."); isQuota := false |}
    /\ Js.includes (str "The prompt was rejected.") (str "no video content") = false.
Proof.
  eexists. split; [vm_compute; reflexivity|]. repeat split.
Qed.
(** ** A request made of an image alone *)

Lemma submit_enabled_with_image (s : State) (img : SelectedImage) :
  idle s -> selectedImage s = Some img -> submitDisabled s = false.
Proof.
  intros [_ Hg] Himg. unfold submitDisabled. rewrite Hg, Himg.
  now rewrite andb_false_r.
Qed.

(** C10. For a request with an empty prompt and an image, the prompt sent
    to the service is the fallback text [Animate this image with natural
    motion], and the video a successful run records carries the
    placeholder of the version ([Image-to-Video Animation] in [Studio1]
    and [Studio3], [Image-to-Video Generation] in [Studio2]), not the
    empty prompt. *)
Theorem image_only_request (env : Env) (s : State) (img : SelectedImage)
    (dataUrl : jstring) :
  idle s ->
  prompt s = [] ->
  selectedImage s = Some img ->
  (exists s0,
      exec env s [ClickGenerate; FileRead 0 dataUrl] = Some s0
      /\ log s0
         = log s
             ++ [ReadAsDataURL (file img);
                 GenerateVideos (API_KEY env) (str "veo-3.1-fast-generate-preview")
                   (str "Animate this image with natural motion")
                   (Some {| imageBytes := secondPiece dataUrl;
                            mimeType := fileType (file img) |})
                   1 (resolution s) (aspectRatio s)])
  /\ (forall (operation : Op.t) (stage : Stage) (polls : list (Op.t * Stage))
             (u : jstring) (response : Resp.t) (now1 now2 : N),
         endsDone operation polls ->
         Op.error (lastOperation operation polls) = None ->
         Op.uri (lastOperation operation polls) = Some u ->
         u <> [] ->
         Resp.ok response = true ->
         exists s' v,
           exec env s (runEvents s dataUrl operation stage polls
                         ++ [FetchResponds 0 response now1 now2])
           = Some s'
           /\ history s' = v :: history s
           /\ Video.prompt v = placeholderPrompt (version env)
           /\ Video.prompt v <> prompt s)
  /\ placeholderPrompt Studio1 = str "Image-to-Video Animation"
  /\ placeholderPrompt Studio2 = str "Image-to-Video Generation"
  /\ placeholderPrompt Studio3 = str "Image-to-Video Animation".
Proof.
  intros Hidle Hprompt Himg.
  pose proof (submit_enabled_with_image s img Hidle Himg) as Hdis.
  split; [|split; [|repeat split]].
  - destruct (start_run env s dataUrl Hidle Hdis) as [s0 [j0 [Hexec [_ Hmid]]]].
    rewrite Himg in Hexec. exists s0. split; [exact Hexec|].
    destruct Hmid as [_ [_ [_ [_ [_ [_ [_ [_ [_ [_ [_ Hlog]]]]]]]]]]].
    rewrite Hlog. unfold submitCalls. rewrite Himg, Hprompt. reflexivity.
  - intros operation stage polls u response now1 now2 Hend Herr Huri Hu Hok.
    destruct (run_success env s dataUrl operation stage polls u response now1 now2
                Hidle Hdis Hend Herr Huri Hu Hok)
      as [s' [Hexec [Hh _]]].
    exists s', (recordedVideo env s response now1 now2).
    split; [exact Hexec|]. split; [exact Hh|].
    unfold recordedVideo. cbn [Video.prompt]. rewrite Hprompt.
    split; [reflexivity|]. destruct (version env); discriminate.
Qed.

Lemma image_only_request_witness :
  exists s0,
    exec (Sample.env Studio2) Sample.imageOnly
      [ClickGenerate; FileRead 0 (str "data:image/png;base64,AAAA")]
    = Some s0
    /\ log s0
       = [ReadAsDataURL (file Sample.image);
          GenerateVideos (str "KEY") (str "veo-3.1-fast-generate-preview")
            (str "Animate this image with natural motion")
            (Some {| imageBytes := Some (str "AAAA"); mimeType := str "image/png" |})
            1 R720p Ratio16x9].
Proof.
  destruct (image_only_request (Sample.env Studio2) Sample.imageOnly Sample.image
              (str "data:image/png;base64,AAAA"))
    as [[s0 [Hexec Hlog]] _].
  - split; reflexivity.
  - reflexivity.
  - reflexivity.
  - exists s0. split; [exact Hexec | exact Hlog].
Defined.
(** ** The poll loop *)

Lemma catchBlock_log (v : Version) (err : Thrown.t) (s : State) :
  log (catchBlock v err s) = log s
  \/ log (catchBlock v err s) = log s ++ [OnKeyReset].
Proof.
  unfold catchBlock. destruct v; split_matches; cbn; auto.
Qed.

(** After the loop the invocation either has returned or waits for the
    download; it has made at most one more call, and none to the timer or
    to the poll. *)
Lemma afterLoop_shape (env : Env) (j1 : Job) (final : Op.t) (s1 : State) :
  jobs s1 = [j1] ->
  let s' := afterLoop env 0 j1 final s1 in
  (jobs s' = [] \/ jobs s' = [setPhase Fetching j1])
  /\ exists tail,
      log s' = log s1 ++ tail
      /\ (tail = [] \/ tail = [OnKeyReset]
          \/ exists u, tail = [Service.fetchRequest (API_KEY env) u]).
Proof.
  intros Hjobs.
  assert (Hthrow : forall err,
             let s' := throw env 0 err s1 in
             (jobs s' = [] \/ jobs s' = [setPhase Fetching j1])
             /\ exists tail,
                 log s' = log s1 ++ tail
                 /\ (tail = [] \/ tail = [OnKeyReset]
                     \/ exists u, tail = [Service.fetchRequest (API_KEY env) u])).
  { intros err. unfold throw, finish. cbn [jobs log setJobs finallyBlock
      setStatusMessage setIsGenerating].
    destruct (catchBlock_frame (version env) err s1) as [_ [_ [_ [_ [_ [_ Hj]]]]]].
    rewrite Hj, Hjobs. split; [now left|].
    destruct (catchBlock_log (version env) err s1) as [-> | ->].
    - exists []. rewrite app_nil_r. auto.
    - exists [OnKeyReset]. auto. }
  unfold afterLoop.
  destruct (Op.error final) as [m|].
  - destruct (version env); try apply Hthrow.
    destruct (Js.includes _ _); apply Hthrow.
  - destruct (Op.uri final) as [[|c u]|]; try apply Hthrow.
    cbn. rewrite Hjobs. split; [now right|].
    eexists. split; [reflexivity|]. right. right. eexists. reflexivity.
Qed.

Lemma not_inLoop_after (j1 : Job) (s' : State) :
  jobs s' = [] \/ jobs s' = [setPhase Fetching j1] -> ~ inLoop s'.
Proof.
  intros [H | H] [j [operation [Hj Hp]]]; rewrite H in Hj.
  - discriminate.
  - injection Hj as <-. cbn in Hp. destruct Hp; discriminate.
Qed.

Lemma no_poll_after (env : Env) (j1 : Job) (s' : State) :
  jobs s' = [] \/ jobs s' = [setPhase Fetching j1] ->
  step env s' (TimerFires 0) = None
  /\ forall operation stage, step env s' (PollReturns 0 operation stage) = None.
Proof.
  intros [H | H]; unfold step; cbn [target]; rewrite H; split; reflexivity.
Qed.

(** From the submission to the code after the loop. *)
Lemma submitted_to_loop_end (env : Env) (s : State) (j : Job)
    (operation : Op.t) (stage : Stage) (polls : list (Op.t * Stage)) :
  jobs s = [j] ->
  phase j = Submitting ->
  endsDone operation polls ->
  exists s1 j1,
    exec env s (SubmitReturns 0 operation stage :: pollEvents 0 polls)
    = Some (afterLoop env 0 j1 (lastOperation operation polls) s1)
    /\ jobs s1 = [j1]
    /\ log s1 = log s ++ loopCalls (API_KEY env) operation polls.
Proof.
  intros Hjobs Hphase Hend.
  cbn [exec]. unfold step. cbn [target]. rewrite Hjobs. cbn [nth_error].
  unfold resume. rewrite Hphase. unfold afterSubmit, loopTest.
  destruct (Op.done operation) eqn:Hd; cbn [negb].
  - pose proof (endsDone_done _ _ Hd Hend) as Hnil. subst polls. cbn [pollEvents exec].
    eexists. exists j. split; [reflexivity|]. cbn. now rewrite app_nil_r.
  - match goal with
    | |- context [exec env ?s0' _] =>
      destruct (loop_to_end env polls s0' (setPhase (Sleeping operation) j) operation)
        as [s1 [p [calls [Hexec1 [Hjobs1 [_ [Hlog1 Hcalls]]]]]]]
    end.
    + cbn. now rewrite Hjobs.
    + reflexivity.
    + exact Hd.
    + exact Hend.
    + rewrite Hexec1. exists s1, (setPhase p (setPhase (Sleeping operation) j)).
      split; [reflexivity|]. split; [exact Hjobs1|].
      rewrite Hlog1. cbn. rewrite <- Hcalls, <- app_assoc. reflexivity.
Qed.

(** From the submission on, while every operation is pending. *)
Lemma submitted_pending (env : Env) (s : State) (j : Job)
    (operation : Op.t) (stage : Stage) (polls : list (Op.t * Stage)) :
  jobs s = [j] ->
  phase j = Submitting ->
  allPending ((operation, stage) :: polls) ->
  exists s',
    exec env s (SubmitReturns 0 operation stage :: pollEvents 0 polls) = Some s'
    /\ jobs s' = [setPhase (Sleeping (lastOperation operation polls)) j]
    /\ log s' = log s ++ loopCalls (API_KEY env) operation polls ++ [SetTimeout 10000]
    /\ isGenerating s' = isGenerating s.
Proof.
  intros Hjobs Hphase Hpend.
  inversion Hpend as [|? ? Hd Hrest]; subst. cbn [fst] in Hd.
  cbn [exec]. unfold step. cbn [target]. rewrite Hjobs. cbn [nth_error].
  unfold resume. rewrite Hphase. unfold afterSubmit, loopTest. rewrite Hd. cbn [negb].
  match goal with
  | |- context [exec env ?s0' _] =>
    destruct (loop_pending env polls s0' (setPhase (Sleeping operation) j) operation)
      as [s' [Hexec [Hjobs' [Hlog' Hsame]]]]
  end.
  - cbn. now rewrite Hjobs.
  - reflexivity.
  - exact Hrest.
  - exists s'. split; [exact Hexec|]. split; [exact Hjobs'|]. split.
    + rewrite Hlog'. cbn. rewrite <- app_assoc. cbn.
      now rewrite pollCalls_loopCalls.
    + destruct Hsame as [_ [_ [_ [Hg _]]]]. exact Hg.
Qed.

Lemma allPending_prefix (results : nat -> Op.t * Stage) (n : nat) :
  forall m,
    (forall i, m <= i < m + n -> Op.done (fst (results i)) = false) ->
    allPending (List.map results (seq m n)).
Proof.
  induction n as [|n IH]; intros m H; simpl.
  - constructor.
  - constructor.
    + apply H. lia.
    + apply IH. intros i Hi. apply H. lia.
Qed.

Lemma endsDone_prefix (results : nat -> Op.t * Stage) (n : nat) :
  forall m,
    (forall i, m <= i < m + n -> Op.done (fst (results i)) = false) ->
    Op.done (fst (results (m + n))) = true ->
    endsDone (fst (results m)) (List.map results (seq (S m) n)).
Proof.
  induction n as [|n IH]; intros m Hpend Hdone; simpl.
  - now rewrite Nat.add_0_r in Hdone.
  - destruct (results (S m)) as [operation' st] eqn:E. split.
    + apply Hpend. lia.
    + replace operation' with (fst (results (S m))) by now rewrite E.
      apply IH.
      * intros i Hi. apply Hpend. lia.
      * now replace (S m + n) with (m + S n) by lia.
Qed.
(** C9. Once the request is submitted, the loop waits ten seconds before
    each poll ([loopCalls]) and goes on exactly as long as the operations
    returned are pending: after any number of pending results the
    invocation is still in the loop, waiting for the next timer; after a
    result that is done it has left the loop and neither a timer nor a
    poll is awaited any more.  So for an endless sequence of results, the
    polls go on for ever exactly when none of the results is done. *)
Theorem poll_loop (env : Env) (s : State) (j : Job) :
  jobs s = [j] ->
  phase j = Submitting ->
  (forall operation stage polls,
      allPending ((operation, stage) :: polls) ->
      exists s',
        exec env s (SubmitReturns 0 operation stage :: pollEvents 0 polls) = Some s'
        /\ jobs s' = [setPhase (Sleeping (lastOperation operation polls)) j]
        /\ log s' = log s ++ loopCalls (API_KEY env) operation polls
                      ++ [SetTimeout 10000])
  /\ (forall operation stage polls,
         endsDone operation polls ->
         exists s' tail,
           exec env s (SubmitReturns 0 operation stage :: pollEvents 0 polls) = Some s'
           /\ ~ inLoop s'
           /\ step env s' (TimerFires 0) = None
           /\ (forall operation' stage',
                  step env s' (PollReturns 0 operation' stage') = None)
           /\ log s' = log s ++ loopCalls (API_KEY env) operation polls ++ tail
           /\ (tail = [] \/ tail = [OnKeyReset]
               \/ exists u, tail = [Service.fetchRequest (API_KEY env) u]))
  /\ (forall results : nat -> Op.t * Stage,
         (forall n, exists s',
               exec env s (loopEvents results n) = Some s' /\ inLoop s')
         <-> (forall k, Op.done (fst (results k)) = false)).
Proof.
  intros Hjobs Hphase.
  assert (Hpending : forall operation stage polls,
             allPending ((operation, stage) :: polls) ->
             exists s',
               exec env s (SubmitReturns 0 operation stage :: pollEvents 0 polls) = Some s'
               /\ jobs s' = [setPhase (Sleeping (lastOperation operation polls)) j]
               /\ log s' = log s ++ loopCalls (API_KEY env) operation polls
                             ++ [SetTimeout 10000]).
  { intros operation stage polls Hp.
    destruct (submitted_pending env s j operation stage polls Hjobs Hphase Hp)
      as [s' [He [Hj [Hl _]]]].
    exists s'. auto. }
  assert (Hdone : forall operation stage polls,
             endsDone operation polls ->
             exists s' tail,
               exec env s (SubmitReturns 0 operation stage :: pollEvents 0 polls) = Some s'
               /\ ~ inLoop s'
               /\ step env s' (TimerFires 0) = None
               /\ (forall operation' stage',
                      step env s' (PollReturns 0 operation' stage') = None)
               /\ log s' = log s ++ loopCalls (API_KEY env) operation polls ++ tail
               /\ (tail = [] \/ tail = [OnKeyReset]
                   \/ exists u, tail = [Service.fetchRequest (API_KEY env) u])).
  { intros operation stage polls Hend.
    destruct (submitted_to_loop_end env s j operation stage polls Hjobs Hphase Hend)
      as [s1 [j1 [Hexec [Hjobs1 Hlog1]]]].
    destruct (afterLoop_shape env j1 (lastOperation operation polls) s1 Hjobs1)
      as [Hshape [tail [Hlog Htail]]].
    eexists. exists tail. split; [exact Hexec|].
    split; [exact (not_inLoop_after j1 _ Hshape)|].
    destruct (no_poll_after env j1 _ Hshape) as [Ht Hp].
    split; [exact Ht|]. split; [exact Hp|].
    split; [|exact Htail]. rewrite Hlog, Hlog1, <- app_assoc. reflexivity. }
  split; [exact Hpending|]. split; [exact Hdone|].
  intros results. split.
  - intros Hforever k. induction k as [k IH] using lt_wf_ind.
    destruct (Op.done (fst (results k))) eqn:Hk; [exfalso|reflexivity].
    destruct (Hdone (fst (results 0)) (snd (results 0)) (List.map results (seq 1 k)))
      as [s' [tail [Hexec [Hout _]]]].
    { apply endsDone_prefix; [|exact Hk]. intros i Hi. apply IH. lia. }
    destruct (Hforever k) as [s'' [Hexec' Hin]].
    unfold loopEvents in Hexec'. rewrite Hexec in Hexec'.
    injection Hexec' as <-. contradiction.
  - intros Hnever n.
    destruct (Hpending (fst (results 0)) (snd (results 0)) (List.map results (seq 1 n)))
      as [s' [Hexec [Hj _]]].
    { constructor; [apply Hnever|]. apply allPending_prefix. intros i _. apply Hnever. }
    exists s'. split; [exact Hexec|].
    eexists. eexists. split; [exact Hj|]. left. reflexivity.
Qed.

Lemma poll_loop_witness :
  exists s',
    exec (Sample.env Studio1)
      (setJobs [Build_Job (str "a cat") R720p Ratio16x9 Submitting]
         (setIsGenerating true initialState))
      (SubmitReturns 0 Sample.pending Stage0
         :: pollEvents 0 [(Sample.pending, Stage1); (Sample.pending, Stage2)])
    = Some s'
    /\ log s'
       = [SetTimeout 10000; GetVideosOperation (str "KEY") Sample.pending;
          SetTimeout 10000; GetVideosOperation (str "KEY") Sample.pending;
          SetTimeout 10000].
Proof.
  destruct (poll_loop (Sample.env Studio1)
              (setJobs [Build_Job (str "a cat") R720p Ratio16x9 Submitting]
                 (setIsGenerating true initialState))
              (Build_Job (str "a cat") R720p Ratio16x9 Submitting)
              eq_refl eq_refl)
    as [Hpending _].
  destruct (Hpending Sample.pending Stage0
              [(Sample.pending, Stage1); (Sample.pending, Stage2)])
    as [s' [Hexec [_ Hlog]]].
  - repeat constructor.
  - exists s'. split; [exact Hexec | exact Hlog].
Defined.
(** A poll that is rejected ends the run through the [catch] block. *)
Lemma poll_rejected (env : Env) (s : State) (j : Job) (operation : Op.t)
    (e : Thrown.t) :
  jobs s = [j] ->
  phase j = Polling operation ->
  exists s',
    step env s (PollThrows 0 e) = Some s'
    /\ jobs s' = [] /\ isGenerating s' = false /\ history s' = history s.
Proof.
  intros Hjobs Hphase. unfold step. cbn [target]. rewrite Hjobs. cbn [nth_error].
  unfold resume. rewrite Hphase. eexists. split; [reflexivity|].
  unfold throw, finish.
  destruct (catchBlock_frame (version env) (Service.rethrow e) s)
    as [_ [_ [_ [_ [Hh [_ Hj]]]]]].
  cbn. rewrite Hj, Hjobs, Hh. repeat split.
Qed.

(** ** Credential reset *)

Lemma throw_reset (env : Env) (i : nat) (s : State) :
  resetOutcome env i s (Some (throw env i (newError API_KEY_RESET_REQUIRED) s)).
Proof.
  eexists. split; [reflexivity|]. unfold throw. rewrite catchBlock_reset.
  destruct (version env); cbn; repeat split; auto.
Qed.

(** C3. A rejection of the service at the submission or at a poll whose
    message contains [Requested entity was not found], and an answer to
    the download that is not ok and whose body contains it, make the
    controller send the credential-reset notification and end the run
    without an error in the banner, whatever else the message contains
    (quota markers included).  (A download that fails without an answer
    is not among them, as the lemma after the example shows.) *)
Theorem credential_reset (env : Env) (s : State) (i : nat) (j : Job) :
  nth_error (jobs s) i = Some j ->
  (forall e,
      phase j = Submitting ->
      occurs NOT_FOUND (Thrown.message e) ->
      resetOutcome env i s (step env s (SubmitThrows i e)))
  /\ (forall operation e,
         phase j = Polling operation ->
         occurs NOT_FOUND (Thrown.message e) ->
         resetOutcome env i s (step env s (PollThrows i e)))
  /\ (forall response now1 now2,
         phase j = Fetching ->
         Resp.ok response = false ->
         occurs NOT_FOUND (Resp.body response) ->
         resetOutcome env i s (step env s (FetchResponds i response now1 now2))).
Proof.
  intros Hnth. split; [|split].
  - intros e Hphase Hocc. unfold step. cbn [target]. rewrite Hnth.
    unfold resume. rewrite Hphase, (rethrow_not_found e Hocc). apply throw_reset.
  - intros operation e Hphase Hocc. unfold step. cbn [target]. rewrite Hnth.
    unfold resume. rewrite Hphase, (rethrow_not_found e Hocc). apply throw_reset.
  - intros response now1 now2 Hphase Hok Hocc. unfold step. cbn [target].
    rewrite Hnth. unfold resume. rewrite Hphase.
    unfold afterFetch, Service.fetchVideoBlobUrl. rewrite Hok. cbn [negb].
    rewrite (proj2 (includes_spec _ _) Hocc). cbn [orb]. apply throw_reset.
Qed.

Lemma credential_reset_witness :
  let s := setJobs [Build_Job (str "a cat") R720p Ratio16x9 Submitting]
             (setIsGenerating true Sample.typed) in
  let e := newError (str "429 RESOURCE_EXHAUSTED quota: Requested entity was not found.") in
  resetOutcome (Sample.env Studio1) 0 s
    (step (Sample.env Studio1) s (SubmitThrows 0 e)).
Proof.
  intros s e.
  destruct (credential_reset (Sample.env Studio1) s 0
              (Build_Job (str "a cat") R720p Ratio16x9 Submitting) eq_refl)
    as [Hsubmit _].
  apply Hsubmit.
  - reflexivity.
  - exists (str "429 RESOURCE_EXHAUSTED quota: "), (str "."). reflexivity.
Defined.

(** [fetchVideoBlobUrl] awaits [fetch] outside any [try]: when [fetch]
    itself rejects, the rejection reaches the [catch] block of
    [startGeneration] as it is.  With the message [quota: Requested entity
    was not found] the first two versions of the component show the quota
    banner and do not send the notification. *)
Lemma credential_reset_fetch_counterexample :
  let e := newError (str "quota: Requested entity was not found") in
  occurs NOT_FOUND (Thrown.message e)
  /\ forall v, v = Studio1 \/ v = Studio2 ->
       exists s1 s',
         exec (Sample.env v) initialState
           [ChangePrompt (str "a cat"); ClickGenerate;
            SubmitReturns 0 Sample.finished Stage0] = Some s1
         /\ List.map phase (jobs s1) = [Fetching]
         /\ step (Sample.env v) s1 (FetchThrows 0 e) = Some s'
         /\ log s' = log s1
         /\ ~ In OnKeyReset (log s')
         /\ error s' = Some {| message := VString (quotaMessage v); isQuota := true |}
         /\ jobs s' = [].
Proof.
  intros e. split.
  - exists (str "quota: "), []. reflexivity.
  - intros v [-> | ->]; eexists; eexists;
      (split; [vm_compute; reflexivity|]);
      (split; [reflexivity|]);
      (split; [vm_compute; reflexivity|]);
      (split; [reflexivity|]);
      (split; [intros [H | [H | []]]; discriminate|]);
      split; reflexivity.
Qed.
(** ** One job at a time *)

Lemma throw_continues (env : Env) (i : nat) (j : Job) (err : Thrown.t) (s s1 : State) :
  history s1 = history s -> jobs s1 = jobs s ->
  continues i j s (throw env i err s1).
Proof.
  intros Hh Hj. unfold continues, throw, finish.
  destruct (catchBlock_frame (version env) err s1) as [_ [_ [_ [_ [Hh' [_ Hj']]]]]].
  cbn. rewrite Hh', Hj', Hh, Hj. split; [now left | now right].
Qed.

Lemma suspend_continues (i : nat) (j j1 : Job) (p : Phase) (s s1 : State) :
  history s1 = history s -> jobs s1 = jobs s -> isGenerating s1 = isGenerating s ->
  (exists q, setPhase p j1 = setPhase q j) ->
  continues i j s (suspend i j1 p s1).
Proof.
  intros Hh Hj Hg [q Hq]. unfold continues, suspend. cbn.
  rewrite Hh, Hj, Hg, Hq. split; [now left|]. left. now exists q.
Qed.

Lemma afterLoop_continues (env : Env) (i : nat) (j : Job) (final : Op.t)
    (s s1 : State) :
  history s1 = history s -> jobs s1 = jobs s -> isGenerating s1 = isGenerating s ->
  continues i j s (afterLoop env i j final s1).
Proof.
  intros Hh Hj Hg. unfold afterLoop.
  destruct (Op.error final) as [m|].
  - destruct (version env); try (now apply throw_continues).
    destruct (Js.includes _ _); now apply throw_continues.
  - destruct (Op.uri final) as [[|c u]|]; try (now apply throw_continues).
    apply suspend_continues; try assumption. now exists Fetching.
Qed.

Lemma loopTest_continues (env : Env) (i : nat) (j : Job) (operation : Op.t)
    (stage : Stage) (s s1 : State) :
  history s1 = history s -> jobs s1 = jobs s -> isGenerating s1 = isGenerating s ->
  continues i j s (loopTest env i j operation stage s1).
Proof.
  intros Hh Hj Hg. unfold loopTest. destruct (negb (Op.done operation)).
  - apply suspend_continues; try assumption. now exists (Sleeping operation).
  - now apply afterLoop_continues.
Qed.

Lemma resume_continues (env : Env) (i : nat) (j : Job) (e : Event) (s s' : State) :
  resume env i j e s = Some s' -> continues i j s s'.
Proof.
  unfold resume. destruct (phase j) eqn:Hp, e; try discriminate; intros [= <-].
  - unfold afterFileRead, submit. apply suspend_continues; try reflexivity.
    now exists Submitting.
  - now apply throw_continues.
  - unfold afterSubmit. now apply loopTest_continues.
  - now apply throw_continues.
  - unfold afterTimer. apply suspend_continues; try reflexivity.
    now exists (Polling operation).
  - now apply loopTest_continues.
  - now apply throw_continues.
  - unfold afterFetch. destruct (Service.fetchVideoBlobUrl response).
    + now apply throw_continues.
    + unfold continues, finish. cbn. split; [right; eexists; reflexivity | now right].
  - now apply throw_continues.
Qed.

Lemma nth_error_single {A} (x y : A) (i : nat) :
  nth_error [x] i = Some y -> i = 0 /\ y = x.
Proof.
  destruct i as [|i]; simpl.
  - intros [= <-]. now split.
  - destruct i; discriminate.
Qed.

Lemma startGeneration_oneJob (env : Env) (s : State) :
  jobs s = [] -> submitDisabled s = false -> oneJob (startGeneration env s).
Proof.
  intros Hj Hdis. unfold submitDisabled in Hdis.
  apply orb_false_iff in Hdis. destruct Hdis as [_ Hcond].
  unfold startGeneration. rewrite Hcond. right.
  destruct (selectedImage s); cbn; rewrite Hj; cbn; eexists; split; reflexivity.
Qed.

Lemma continues_oneJob (i : nat) (j : Job) (s s' : State) :
  oneJob s -> nth_error (jobs s) i = Some j -> continues i j s s' -> oneJob s'.
Proof.
  intros [[Hj _] | [j0 [Hj Hg]]] Hnth [_ Hc]; rewrite Hj in Hnth.
  - destruct i; discriminate.
  - apply nth_error_single in Hnth. destruct Hnth as [-> ->].
    rewrite Hj in Hc. cbn in Hc. destruct Hc as [[p [Hj' Hg']] | [Hj' Hg']].
    + right. exists (setPhase p j0). split; [exact Hj' | congruence].
    + left. now split.
Qed.

(** Every step keeps the invocations at most one. *)
Lemma step_oneJob (env : Env) (s : State) (e : Event) (s' : State) :
  oneJob s -> step env s e = Some s' -> oneJob s'.
Proof.
  intros Hinv Hstep.
  assert (Hsettle : forall i,
             match nth_error (jobs s) i with
             | Some j => resume env i j e s
             | None => None
             end = Some s' -> oneJob s').
  { intros i H. destruct (nth_error (jobs s) i) as [j|] eqn:Hnth; [|discriminate].
    exact (continues_oneJob i j s s' Hinv Hnth (resume_continues env i j e s s' H)). }
  destruct e; cbn [step target] in Hstep; try (exact (Hsettle _ Hstep));
    try (destruct (nth_error (readers s) k); [|discriminate]);
    injection Hstep as <-.
  - destruct (isGenerating s); exact Hinv.
  - destruct (isGenerating s); exact Hinv.
  - destruct (isGenerating s); exact Hinv.
  - unfold handleImageSelect. destruct (negb _); exact Hinv.
  - exact Hinv.
  - exact Hinv.
  - destruct (submitDisabled s) eqn:Hdis; [exact Hinv|].
    apply startGeneration_oneJob; [|exact Hdis].
    destruct Hinv as [[Hj _] | [j [_ Hg]]]; [exact Hj|].
    unfold submitDisabled in Hdis. rewrite Hg in Hdis. discriminate.
  - unfold removeVideo. destruct (find _ _); exact Hinv.
Qed.

Lemma exec_oneJob (env : Env) (events : list Event) :
  forall s s', oneJob s -> exec env s events = Some s' -> oneJob s'.
Proof.
  induction events as [|e events IH]; intros s s' Hinv Hexec; simpl in Hexec.
  - now injection Hexec as <-.
  - destruct (step env s e) as [s1|] eqn:Hstep; [|discriminate].
    exact (IH s1 s' (step_oneJob env s e s1 Hinv Hstep) Hexec).
Qed.

(** Every step changes the history by at most a video put at its head or
    the removal of the videos of one id. *)
Lemma step_history (env : Env) (s : State) (e : Event) (s' : State) :
  step env s e = Some s' -> historyChange (history s) (history s').
Proof.
  intros Hstep.
  assert (Hsettle : forall i,
             match nth_error (jobs s) i with
             | Some j => resume env i j e s
             | None => None
             end = Some s' -> historyChange (history s) (history s')).
  { intros i H. destruct (nth_error (jobs s) i) as [j|] eqn:Hnth; [|discriminate].
    destruct (resume_continues env i j e s s' H) as [[Hh | [v Hh]] _].
    - now left.
    - right. left. now exists v. }
  destruct e; cbn [step target] in Hstep; try (exact (Hsettle _ Hstep));
    try (destruct (nth_error (readers s) k); [|discriminate]);
    injection Hstep as <-.
  - left. now destruct (isGenerating s).
  - left. now destruct (isGenerating s).
  - left. now destruct (isGenerating s).
  - left. unfold handleImageSelect. now destruct (negb _).
  - now left.
  - now left.
  - left. destruct (submitDisabled s); [reflexivity|].
    unfold startGeneration. destruct (_ && _); [reflexivity|].
    now destruct (selectedImage s).
  - right. right. exists id. unfold removeVideo. now destruct (find _ _).
Qed.

(** C8. In every reachable state at most one invocation of
    [startGeneration] is under way, and the generating flag is set exactly
    when one is.  While the flag is set the submit button is disabled: a
    click changes nothing, so no call is made.  Every step leaves the
    history as it is, puts one video at its head, or removes the videos of
    one id; it is never reordered. *)
Theorem one_job_at_a_time :
  (forall env s,
      reachable env s ->
      List.length (jobs s) <= 1
      /\ (isGenerating s = true <-> List.length (jobs s) = 1))
  /\ (forall env s,
         isGenerating s = true -> step env s ClickGenerate = Some s)
  /\ (forall env s e s',
         step env s e = Some s' -> historyChange (history s) (history s')).
Proof.
  split; [|split].
  - intros env s [events Hexec].
    assert (Hinv : oneJob s).
    { apply (exec_oneJob env events initialState s); [|exact Hexec].
      left. split; reflexivity. }
    destruct Hinv as [[Hj Hg] | [j [Hj Hg]]]; rewrite Hj, Hg; cbn; split;
      try lia; split; intros; congruence.
  - intros env s Hg. cbn. unfold submitDisabled. now rewrite Hg.
  - exact step_history.
Qed.

Lemma one_job_at_a_time_witness :
  let env := Sample.env Studio3 in
  exists s,
    exec env initialState [ChangePrompt (str "a cat"); ClickGenerate] = Some s
    /\ List.length (jobs s) = 1
    /\ step env s ClickGenerate = Some s.
Proof.
  intros env.
  destruct one_job_at_a_time as [Hone [Hclick _]].
  eexists. split; [reflexivity|].
  match goal with
  | |- List.length (jobs ?s) = 1 /\ _ =>
    destruct (Hone env s) as [_ [Hflag _]];
      [exists [ChangePrompt (str "a cat"); ClickGenerate]; reflexivity|];
      split; [apply Hflag; reflexivity | apply Hclick; reflexivity]
  end.
Defined.

(** [startGeneration] itself does not look at the generating flag: called
    while a job is under way it would start a second one.  Only the button
    keeps the jobs at one. *)
Lemma startGeneration_unguarded (env : Env) (s : State) (j : Job) :
  jobs s = [j] -> Js.trim (prompt s) <> [] ->
  List.length (jobs (startGeneration env s)) = 2.
Proof.
  intros Hj Htrim. unfold startGeneration.
  destruct (Js.trim (prompt s)) as [|c r] eqn:E; [congruence|]. cbn.
  destruct (selectedImage s); cbn; rewrite Hj; reflexivity.
Qed.

(** * More of the component *)

(** ** How a continuation ends its step *)

Lemma sameCells_status (m : jstring) (s : State) : sameCells s (setStatusMessage m s).
Proof. repeat split. Qed.

Lemma stageMessage_nonEmpty (v : Version) (st : Stage) : stageMessage v st <> [].
Proof. destruct v, st; discriminate. Qed.

Lemma afterLoop_resumed (env : Env) (i : nat) (j : Job) (final : Op.t) (s s0 : State) :
  sameCells s s0 -> jobs s0 = jobs s -> log s0 = log s ->
  resumed env i j s (afterLoop env i j final s0).
Proof.
  intros Hsame Hj Hl. unfold afterLoop.
  assert (Hthrow : forall err, resumed env i j s (throw env i err s0)).
  { intros err. right. left. exists err, s0. auto. }
  destruct (Op.error final) as [m|].
  - destruct (version env); try apply Hthrow.
    destruct (Js.includes _ _); apply Hthrow.
  - destruct (Op.uri final) as [[|c u]|]; try apply Hthrow.
    left. split; [|split].
    + unfold sameCells in *. cbn. exact Hsame.
    + intros _. cbn. discriminate.
    + exists Fetching, (Service.fetchRequest (API_KEY env) (c :: u)).
      cbn. rewrite Hj, Hl. repeat split.
      right. right. right. exists (c :: u). repeat split. discriminate.
Qed.

Lemma loopTest_resumed (env : Env) (i : nat) (j : Job) (operation : Op.t)
    (stage : Stage) (s s0 : State) :
  sameCells s s0 -> jobs s0 = jobs s -> log s0 = log s ->
  resumed env i j s (loopTest env i j operation stage s0).
Proof.
  intros Hsame Hj Hl. unfold loopTest.
  destruct (Op.done operation) eqn:Hd; cbn [negb].
  - now apply afterLoop_resumed.
  - left. split; [|split].
    + unfold sameCells in *. cbn. exact Hsame.
    + intros _. cbn. apply stageMessage_nonEmpty.
    + exists (Sleeping operation), (SetTimeout 10000).
      cbn. rewrite Hj, Hl. repeat split.
      right. left. exists operation. auto.
Qed.

(** Every continuation of [startGeneration] ends its step in one of the
    three ways. *)
Lemma resume_resumed (env : Env) (i : nat) (j : Job) (e : Event) (s s' : State) :
  resume env i j e s = Some s' -> resumed env i j s s'.
Proof.
  unfold resume. destruct (phase j) eqn:Hp, e; try discriminate; intros [= <-].
  - left. split; [repeat split|]. split; [intros H; exact H|].
    exists Submitting. eexists. cbn. repeat split.
    left. split; [reflexivity|]. exists img, dataUrl. split; [exact Hp | reflexivity].
  - right. left. exists e, s. repeat split.
  - unfold afterSubmit. apply loopTest_resumed; try reflexivity. apply sameCells_status.
  - right. left. exists (Service.rethrow e), s. repeat split.
  - left. split; [repeat split|]. split; [intros H; exact H|].
    exists (Polling operation), (GetVideosOperation (API_KEY env) operation).
    cbn. repeat split. right. right. left. exists operation. auto.
  - apply loopTest_resumed; try reflexivity. apply sameCells_refl.
  - right. left. exists (Service.rethrow e), s. repeat split.
  - unfold afterFetch. destruct (Service.fetchVideoBlobUrl response) as [err|blobUrl].
    + right. left. exists err, s. repeat split.
    + right. right. exists blobUrl, now1, now2. split; [exact Hp | reflexivity].
  - right. left. exists e, s. repeat split.
Qed.

(** ** The invariant *)

Lemma orElse_nonEmpty_r (a b : jstring) : b <> [] -> Js.orElse a b <> [].
Proof. intros Hb. destruct a; simpl; [exact Hb | discriminate]. Qed.

Lemma placeholder_nonEmpty (v : Version) : placeholderPrompt v <> [].
Proof. destruct v; discriminate. Qed.

(** What a step that throws into the [catch] block leaves behind. *)
Lemma throw_fields (env : Env) (i : nat) (err : Thrown.t) (s0 : State) :
  let s' := throw env i err s0 in
  prompt s' = prompt s0 /\ resolution s' = resolution s0
  /\ aspectRatio s' = aspectRatio s0
  /\ history s' = history s0 /\ selectedImage s' = selectedImage s0
  /\ jobs s' = removeAt i (jobs s0)
  /\ isGenerating s' = false /\ statusMessage s' = []
  /\ (log s' = log s0 \/ log s' = log s0 ++ [OnKeyReset]).
Proof.
  unfold throw, finish.
  destruct (catchBlock_frame (version env) err s0) as [H1 [H2 [H3 [_ [H5 [H6 H7]]]]]].
  cbn. rewrite H7. repeat split; try assumption.
  apply catchBlock_log.
Qed.

Lemma catchBlock_readers (v : Version) (err : Thrown.t) (s : State) :
  readers (catchBlock v err s) = readers s.
Proof. unfold catchBlock. destruct v; split_matches; reflexivity. Qed.

Lemma throw_readers (env : Env) (i : nat) (err : Thrown.t) (s : State) :
  readers (throw env i err s) = readers s.
Proof. unfold throw, finish. cbn. apply catchBlock_readers. Qed.

(** The continuations of [startGeneration] leave the readers of
    [handleImageSelect] alone. *)
Lemma resume_readers (env : Env) (i : nat) (j : Job) (e : Event) (s s' : State) :
  resume env i j e s = Some s' -> readers s' = readers s.
Proof.
  unfold resume.
  destruct (phase j), e; try discriminate; intros [= <-];
    unfold afterSubmit, loopTest, afterLoop, afterFetch; split_matches;
    rewrite ?throw_readers; reflexivity.
Qed.

Lemma Forall_snoc {A} (P : A -> Prop) (l : list A) (x : A) :
  Forall P l -> P x -> Forall P (l ++ [x]).
Proof. intros Hl Hx. apply Forall_app. split; [exact Hl | now constructor]. Qed.

Lemma Forall_removeAt {A} (P : A -> Prop) (k : nat) (l : list A) :
  Forall P l -> Forall P (removeAt k l).
Proof.
  intros H. revert k. induction H as [|x l Hx Hl IH]; intros k.
  - destruct k; constructor.
  - destruct k; simpl; [exact Hl | constructor; [exact Hx | apply IH]].
Qed.

Lemma startsWith_image_negb (t : jstring) :
  negb (Js.startsWith t (str "image/")) = false ->
  Js.startsWith t (str "image/") = true.
Proof. now destruct (Js.startsWith t (str "image/")). Qed.

Lemma wellFormed_initial (env : Env) : wellFormed env initialState.
Proof.
  unfold wellFormed. cbn. split; [|split; [|split; [|split; [|split; [|split]]]]].
  - left. split; reflexivity.
  - split; reflexivity.
  - intros j [].
  - constructor.
  - discriminate.
  - constructor.
  - constructor.
Qed.

Lemma jobInv_cells (s s' : State) (j : Job) :
  prompt s' = prompt s -> resolution s' = resolution s ->
  aspectRatio s' = aspectRatio s ->
  jobInv s j -> jobInv s' j.
Proof. unfold jobInv. intros -> -> ->. auto. Qed.

(** The handlers of the controls that hold no input of the request keep
    the invariant. *)
Lemma wellFormed_cells (env : Env) (s s' : State) :
  wellFormed env s ->
  prompt s' = prompt s -> resolution s' = resolution s ->
  aspectRatio s' = aspectRatio s -> isGenerating s' = isGenerating s ->
  statusMessage s' = statusMessage s -> jobs s' = jobs s ->
  Forall (fun v => Video.prompt v <> []) (history s') ->
  (forall img, selectedImage s' = Some img -> imageTyped img) ->
  Forall imageFile (readers s') ->
  Forall (okCall env) (log s') ->
  wellFormed env s'.
Proof.
  intros [Hone [Hst [Hjobs [Hh [Hi [Hr Hl]]]]]] Hp Hres Ha Hg Hs Hj Hh' Hi' Hr' Hl'.
  unfold wellFormed, oneJob. rewrite Hj, Hg, Hs.
  split; [exact Hone|]. split; [exact Hst|]. split; [|auto].
  intros j Hin. exact (jobInv_cells s s' j Hp Hres Ha (Hjobs j Hin)).
Qed.

(** An input changed while no invocation is under way keeps the
    invariant. *)
Lemma wellFormed_input (env : Env) (s s' : State) :
  wellFormed env s ->
  isGenerating s = false ->
  isGenerating s' = isGenerating s -> statusMessage s' = statusMessage s ->
  jobs s' = jobs s -> history s' = history s ->
  selectedImage s' = selectedImage s -> readers s' = readers s ->
  log s' = log s ->
  wellFormed env s'.
Proof.
  intros [Hone [Hst [Hjobs [Hh [Hi [Hr Hl]]]]]] Hidle Hg Hs Hj Hh' Hi' Hr' Hl'.
  assert (Hnil : jobs s = []).
  { destruct Hone as [[H _] | [j [_ H]]]; [exact H | congruence]. }
  unfold wellFormed, oneJob. rewrite Hj, Hg, Hs, Hh', Hi', Hr', Hl'.
  split; [exact Hone|]. split; [exact Hst|]. split; [|auto].
  rewrite Hnil. intros j [].
Qed.

Lemma not_blank_nonEmpty (p : jstring) :
  Js.nonEmpty (Js.trim p) = true -> ~ blank p /\ p <> [].
Proof.
  intros H. split.
  - intros Hb. apply trim_nil in Hb. rewrite Hb in H. discriminate.
  - intros ->. discriminate.
Qed.

Lemma startGeneration_wellFormed (env : Env) (s : State) :
  wellFormed env s -> submitDisabled s = false ->
  wellFormed env (startGeneration env s).
Proof.
  intros [Hone [Hst [Hjobs [Hh [Hi [Hr Hl]]]]]] Hdis.
  unfold submitDisabled in Hdis. apply orb_false_iff in Hdis.
  destruct Hdis as [Hg Hcond].
  assert (Hnil : jobs s = []).
  { destruct Hone as [[H _] | [j [_ H]]]; [exact H | congruence]. }
  unfold startGeneration. rewrite Hcond.
  destruct (selectedImage s) as [img|] eqn:Himg.
  - unfold wellFormed. cbn. rewrite Hnil. cbn.
    split; [right; eexists; split; reflexivity|].
    split; [split; discriminate|]. split; [|split; [exact Hh|split; [|split]]].
    + intros j [<- | []]. unfold jobInv. cbn. repeat split. now apply Hi.
    + rewrite Himg. exact Hi.
    + exact Hr.
    + apply Forall_snoc; [exact Hl|]. cbn. now apply (Hi img).
  - rewrite andb_true_r in Hcond. apply negb_false_iff in Hcond.
    destruct (not_blank_nonEmpty _ Hcond) as [Hnb Hne].
    unfold wellFormed. cbn. rewrite Hnil. cbn.
    split; [right; eexists; split; reflexivity|].
    split; [split; discriminate|]. split; [|split; [exact Hh|split; [|split]]].
    + intros j [<- | []]. unfold jobInv. cbn. repeat split.
    + rewrite Himg. exact Hi.
    + exact Hr.
    + apply Forall_snoc; [exact Hl|]. cbn.
      rewrite (orElse_nonEmpty _ _ Hne). repeat split; assumption.
Qed.

Lemma resumed_wellFormed (env : Env) (j : Job) (s s' : State) :
  wellFormed env s -> jobs s = [j] -> readers s' = readers s ->
  resumed env 0 j s s' -> wellFormed env s'.
Proof.
  intros [Hone [Hst [Hjobs [Hh [Hi [Hr Hl]]]]]] Hj Hrd Hres.
  assert (Hg : isGenerating s = true).
  { destruct Hone as [[H _] | [j0 [_ H]]]; [congruence | exact H]. }
  assert (Hstatus : statusMessage s <> []).
  { intros E. apply Hst in E. congruence. }
  pose proof (Hjobs j ltac:(rewrite Hj; now left)) as [Hjp [Hjr [Hja Hjph]]].
  destruct Hres as [[Hsame [Hst' [p [c [Hj' [Hl' Hsus]]]]]]
                   | [[err [s0 [-> [Hsame [Hj0 Hl0]]]]]
                   | [blobUrl [now1 [now2 [Hph ->]]]]]].
  - destruct Hsame as [Hp [Hres [Ha [Hg' [Hh' [He' Hi']]]]]].
    rewrite Hj in Hj'. cbn in Hj'.
    unfold wellFormed, oneJob. rewrite Hj', Hh', Hi', Hl', Hrd.
    split; [right; exists (setPhase p j); split; [reflexivity | congruence]|].
    split; [split; [discriminate | intros E; now apply Hst' in E]|].
    split; [|split; [exact Hh|split; [exact Hi|split; [exact Hr|]]]].
    + intros j' [<- | []]. unfold jobInv. cbn. rewrite Hp, Hres, Ha.
      repeat split; try assumption.
      destruct Hsus as [[-> _] | [[op [-> [Hd _]]] | [[op [-> [Hs _]]] | [u [-> _]]]]];
        try exact I; try exact Hd.
      rewrite Hs in Hjph. exact Hjph.
    + apply Forall_snoc; [exact Hl|].
      destruct Hsus as [[_ [img [dataUrl [Hs ->]]]] | [[op [_ [_ ->]]]
                       | [[op [_ [Hs ->]]] | [u [_ [Hu ->]]]]]]; cbn.
      * rewrite Hs in Hjph. repeat split; try assumption.
        apply orElse_nonEmpty_r. discriminate.
      * reflexivity.
      * rewrite Hs in Hjph. split; [reflexivity | exact Hjph].
      * exists u. split; [exact Hu | reflexivity].
  - destruct Hsame as [Hp [Hres [Ha [Hg' [Hh' [He' Hi']]]]]].
    destruct (throw_fields env 0 err s0) as [T1 [T2 [T3 [T4 [T5 [T6 [T7 [T8 T9]]]]]]]].
    unfold wellFormed, oneJob.
    rewrite T4, T5, T6, T7, T8, Hj0, Hj, Hh', Hi', Hrd. cbn [removeAt].
    split; [left; split; reflexivity|].
    split; [split; reflexivity|]. split; [intros j' []|].
    split; [exact Hh|]. split; [exact Hi|]. split; [exact Hr|].
    destruct T9 as [-> | ->]; rewrite Hl0; [exact Hl|].
    apply Forall_snoc; [exact Hl | exact I].
  - unfold wellFormed, oneJob. rewrite Hrd. cbn. rewrite Hj. cbn.
    split; [left; split; reflexivity|].
    split; [split; reflexivity|]. split; [intros j' []|].
    split; [|split; [discriminate | split; [exact Hr | exact Hl]]].
    constructor; [|exact Hh]. cbn. apply orElse_nonEmpty_r, placeholder_nonEmpty.
Qed.

(** Every step keeps the invariant. *)
Lemma step_wellFormed (env : Env) (s : State) (e : Event) (s' : State) :
  wellFormed env s -> step env s e = Some s' -> wellFormed env s'.
Proof.
  intros Hinv Hstep.
  assert (Hsettle : forall i,
             match nth_error (jobs s) i with
             | Some j => resume env i j e s
             | None => None
             end = Some s' -> wellFormed env s').
  { intros i H. destruct (nth_error (jobs s) i) as [j|] eqn:Hnth; [|discriminate].
    destruct Hinv as [Hone Hrest]. pose proof Hone as Hone'.
    destruct Hone' as [[Hj _] | [j0 [Hj _]]]; rewrite Hj in Hnth.
    - destruct i; discriminate.
    - apply nth_error_single in Hnth. destruct Hnth as [-> ->].
      apply (resumed_wellFormed env j0 s s' (conj Hone Hrest) Hj).
      + exact (resume_readers env 0 j0 e s s' H).
      + exact (resume_resumed env 0 j0 e s s' H). }
  pose proof Hinv as [Hone [Hst [Hjobs [Hh [Hi [Hr Hl]]]]]].
  destruct e; cbn [step target] in Hstep; try (exact (Hsettle _ Hstep));
    try (destruct (nth_error (readers s) k) as [f0|] eqn:Hk; [|discriminate]);
    injection Hstep as <-.
  - destruct (isGenerating s) eqn:Hg; [exact Hinv|].
    now apply (wellFormed_input env s).
  - destruct (isGenerating s) eqn:Hg; [exact Hinv|].
    now apply (wellFormed_input env s).
  - destruct (isGenerating s) eqn:Hg; [exact Hinv|].
    now apply (wellFormed_input env s).
  - unfold handleImageSelect.
    destruct (negb (Js.startsWith (fileType f) (str "image/"))) eqn:Ht.
    + apply (wellFormed_cells env s); try reflexivity; assumption.
    + apply startsWith_image_negb in Ht.
      apply (wellFormed_cells env s); try reflexivity; try assumption; cbn.
      * apply Forall_snoc; assumption.
      * apply Forall_snoc; assumption.
  - apply (wellFormed_cells env s); try reflexivity; try assumption; cbn.
    + intros img [= <-]. unfold imageTyped. cbn.
      rewrite Forall_forall in Hr. apply Hr. eapply nth_error_In. exact Hk.
    + now apply Forall_removeAt.
  - apply (wellFormed_cells env s); try reflexivity; try assumption.
    cbn. discriminate.
  - destruct (submitDisabled s) eqn:Hdis; [exact Hinv|].
    now apply startGeneration_wellFormed.
  - unfold removeVideo.
    destruct (find _ (history s)) as [v|];
      (apply (wellFormed_cells env s); try reflexivity;
       [exact Hinv | | exact Hi | exact Hr |]); cbn.
    + apply Forall_forall. intros x Hx. apply filter_In in Hx.
      rewrite Forall_forall in Hh. apply Hh, Hx.
    + apply Forall_snoc; [exact Hl | exact I].
    + apply Forall_forall. intros x Hx. apply filter_In in Hx.
      rewrite Forall_forall in Hh. apply Hh, Hx.
    + exact Hl.
Qed.

Lemma exec_wellFormed (env : Env) (events : list Event) :
  forall s s', wellFormed env s -> exec env s events = Some s' -> wellFormed env s'.
Proof.
  induction events as [|e events IH]; intros s s' Hinv Hexec; simpl in Hexec.
  - now injection Hexec as <-.
  - destruct (step env s e) as [s1|] eqn:Hstep; [|discriminate].
    exact (IH s1 s' (step_wellFormed env s e s1 Hinv Hstep) Hexec).
Qed.

Lemma reachable_wellFormed (env : Env) (s : State) :
  reachable env s -> wellFormed env s.
Proof.
  intros [events Hexec].
  exact (exec_wellFormed env events initialState s (wellFormed_initial env) Hexec).
Qed.

(** ** Consequences of the invariant *)

(** X1. While a generation is under way the prompt, the resolution and
    the aspect ratio shown are those the running request was started with:
    the controls that change them are disabled, and the prompt is cleared
    only when the run ends. *)
Theorem inputs_frozen_while_generating (env : Env) (s : State) (j : Job) :
  reachable env s ->
  In j (jobs s) ->
  jobPrompt j = prompt s
  /\ jobResolution j = resolution s
  /\ jobAspectRatio j = aspectRatio s.
Proof.
  intros Hreach Hin.
  destruct (reachable_wellFormed env s Hreach) as [_ [_ [Hjobs _]]].
  destruct (Hjobs j Hin) as [Hp [Hr [Ha _]]]. auto.
Qed.

Lemma inputs_frozen_while_generating_witness :
  exists s j,
    exec (Sample.env Studio1) initialState
      (polling ++ [ChangePrompt (str "a dog"); ClickResolution R1080p]) = Some s
    /\ In j (jobs s)
    /\ prompt s = str "a cat on a skateboard"
    /\ jobPrompt j = prompt s
    /\ jobResolution j = resolution s
    /\ jobAspectRatio j = aspectRatio s.
Proof.
  eexists. eexists. split; [vm_compute; reflexivity|].
  split; [left; reflexivity|]. split; [reflexivity|].
  apply (inputs_frozen_while_generating (Sample.env Studio1)).
  - exists (polling ++ [ChangePrompt (str "a dog"); ClickResolution R1080p]).
    vm_compute. reflexivity.
  - left. reflexivity.
Defined.

(** X2. No video of the history has an empty prompt: a run records the
    prompt of its request or, when that is empty, the placeholder. *)
Theorem recorded_prompts_nonEmpty (env : Env) (s : State) (v : Video.t) :
  reachable env s -> In v (history s) -> Video.prompt v <> [].
Proof.
  intros Hreach Hin.
  destruct (reachable_wellFormed env s Hreach) as [_ [_ [_ [Hh _]]]].
  rewrite Forall_forall in Hh. now apply Hh.
Qed.

Lemma recorded_prompts_nonEmpty_witness :
  exists s v,
    exec (Sample.env Studio2) initialState imageRun = Some s
    /\ In v (history s)
    /\ Video.prompt v <> [].
Proof.
  eexists. eexists. split; [vm_compute; reflexivity|].
  split; [left; reflexivity|].
  eapply (recorded_prompts_nonEmpty (Sample.env Studio2)).
  - exists imageRun. vm_compute. reflexivity.
  - left. reflexivity.
Defined.


(** X3. Every call the component has made is well formed: a request to
    the model carries the key, the model name, one video and a prompt that
    is not empty, with an image whose type is an image type or else a
    prompt that is not blank; only pending operations are polled; every
    timer is of ten seconds; the download address is the video address
    followed by the key; only image files are read. *)
Theorem calls_wellFormed (env : Env) (s : State) (c : Effect) :
  reachable env s -> In c (log s) -> okCall env c.
Proof.
  intros Hreach Hin.
  destruct (reachable_wellFormed env s Hreach) as [_ [_ [_ [_ [_ [_ Hl]]]]]].
  rewrite Forall_forall in Hl. now apply Hl.
Qed.

Lemma calls_wellFormed_witness :
  exists s c,
    exec (Sample.env Studio3) initialState imageRun = Some s
    /\ nth_error (log s) 2 = Some c
    /\ okCall (Sample.env Studio3) c.
Proof.
  eexists. eexists. split; [vm_compute; reflexivity|].
  split; [reflexivity|].
  eapply (calls_wellFormed (Sample.env Studio3)).
  - exists imageRun. vm_compute. reflexivity.
  - right. right. left. reflexivity.
Defined.

(** X4. The status line is shown exactly while a generation is under
    way. *)
Theorem status_line_while_generating (env : Env) (s : State) :
  reachable env s -> (statusMessage s = [] <-> isGenerating s = false).
Proof.
  intros Hreach.
  destruct (reachable_wellFormed env s Hreach) as [Hone [Hst _]].
  rewrite <- Hst.
  destruct Hone as [[Hj Hg] | [j [Hj Hg]]]; rewrite Hj, Hg; split;
    intros H; try reflexivity; discriminate.
Qed.

Lemma status_line_while_generating_witness :
  exists s,
    exec (Sample.env Studio1) initialState polling = Some s
    /\ isGenerating s = true
    /\ (statusMessage s = [] <-> isGenerating s = false).
Proof.
  eexists. split; [vm_compute; reflexivity|]. split; [reflexivity|].
  apply (status_line_while_generating (Sample.env Studio1)).
  exists polling. vm_compute. reflexivity.
Defined.

(** X5. The selected image is always a file of an image type, and so is
    every file being read for the preview: [handleImageSelect] refuses the
    others. *)
Theorem selected_image_is_image (env : Env) (s : State) :
  reachable env s ->
  (forall img, selectedImage s = Some img -> imageFile (file img))
  /\ Forall imageFile (readers s).
Proof.
  intros Hreach.
  destruct (reachable_wellFormed env s Hreach) as [_ [_ [_ [_ [Hi [Hr _]]]]]].
  split; [exact Hi | exact Hr].
Qed.

Lemma selected_image_is_image_witness :
  exists s,
    exec (Sample.env Studio1) initialState
      [SelectFile (file Sample.image); LoadEnds 0 (preview Sample.image);
       SelectFile textFile] = Some s
    /\ selectedImage s = Some Sample.image
    /\ readers s = []
    /\ (forall img, selectedImage s = Some img -> imageFile (file img)).
Proof.
  eexists. split; [vm_compute; reflexivity|].
  split; [reflexivity|]. split; [reflexivity|].
  apply (selected_image_is_image (Sample.env Studio1)).
  exists [SelectFile (file Sample.image); LoadEnds 0 (preview Sample.image);
          SelectFile textFile].
  vm_compute. reflexivity.
Defined.


(** ** The adapter *)

Lemma not_found_not_in_signal : Js.includes API_KEY_RESET_REQUIRED NOT_FOUND = false.
Proof. vm_compute. reflexivity. Qed.

(** X6. The error that leaves [generateVeoVideo] or [getOperationStatus]
    never has the missing-entity text in its message, and the [catch]
    block of the adapter leaves such an error as it is: converting twice
    is converting once. *)
Theorem rethrow_hides_marker (e : Thrown.t) :
  ~ occurs NOT_FOUND (Thrown.message (Service.rethrow e))
  /\ Service.rethrow (Service.rethrow e) = Service.rethrow e.
Proof.
  destruct (Js.includes (Thrown.json e ++ Js.orElse (Thrown.message e) []) NOT_FOUND)
    eqn:E.
  - assert (H : Service.rethrow e = newError API_KEY_RESET_REQUIRED).
    { unfold Service.rethrow. now rewrite E. }
    rewrite H. split; [|reflexivity].
    intros O. apply includes_spec in O. cbn [newError Thrown.message] in O.
    rewrite not_found_not_in_signal in O. discriminate.
  - assert (H : Service.rethrow e = e).
    { unfold Service.rethrow. now rewrite E. }
    rewrite !H. split; [|reflexivity].
    intros O. apply includes_spec in O.
    rewrite (includes_app_r (Thrown.json e) _ _) in E; [discriminate|].
    now rewrite orElse_nil.
Qed.

(** X7. An answer to the download with status 404 asks for the
    credential reset whatever its body says. *)
Theorem fetch_404_resets (env : Env) (s : State) (i : nat) (j : Job)
    (response : Resp.t) (now1 now2 : N) :
  nth_error (jobs s) i = Some j ->
  phase j = Fetching ->
  Resp.status response = 404%N ->
  resetOutcome env i s (step env s (FetchResponds i response now1 now2)).
Proof.
  intros Hnth Hphase Hstatus. unfold step. cbn [target]. rewrite Hnth.
  unfold resume. rewrite Hphase.
  assert (Hok : Resp.ok response = false).
  { unfold Resp.ok. rewrite Hstatus. reflexivity. }
  unfold afterFetch, Service.fetchVideoBlobUrl. rewrite Hok, Hstatus.
  change (404 =? 404)%N with true. rewrite orb_true_r. apply throw_reset.
Qed.

Lemma fetch_404_resets_witness :
  let s := setJobs [Build_Job (str "a cat") R720p Ratio16x9 Fetching]
             (setIsGenerating true Sample.typed) in
  let response := {| Resp.status := 404; Resp.body := str "gone";
                     Resp.objectUrl := [] |} in
  resetOutcome (Sample.env Studio3) 0 s
    (step (Sample.env Studio3) s (FetchResponds 0 response 1 2)).
Proof.
  intros s response.
  apply (fetch_404_resets (Sample.env Studio3) s 0
           (Build_Job (str "a cat") R720p Ratio16x9 Fetching) response 1 2);
    reflexivity.
Defined.


(** ** Failures that do not ask for a reset *)

(** In [Studio1] and [Studio2] only the exact signal message makes the
    [catch] block send the notification. *)
Lemma catchBlock_no_reset (v : Version) (err : Thrown.t) (s : State) :
  v <> Studio3 ->
  Thrown.message err <> API_KEY_RESET_REQUIRED ->
  log (catchBlock v err s) = log s.
Proof.
  intros Hv Hm. apply Js_eqb_neq in Hm.
  destruct v; [| |congruence]; unfold catchBlock; rewrite orElse_nil, Hm;
    split_matches; reflexivity.
Qed.

(** A step that throws into the [catch] block without a call ends the run
    quietly. *)
Lemma throw_endsQuietly (env : Env) (i : nat) (err : Thrown.t) (s s0 : State) :
  log (catchBlock (version env) err s0) = log s ->
  jobs s0 = jobs s -> history s0 = history s ->
  endsQuietly i s (Some (throw env i err s0)).
Proof.
  intros Hl Hj Hh. eexists. split; [reflexivity|].
  destruct (throw_fields env i err s0) as [_ [_ [_ [T4 [_ [T6 [T7 [T8 _]]]]]]]].
  rewrite T4, T6, T7, T8, Hj, Hh. repeat split.
  unfold throw, finish. cbn. exact Hl.
Qed.

Lemma parse_Failed_prefix (w : jstring) :
  Json.parse (str "Failed to fetch video content: " ++ w) = None.
Proof. reflexivity. Qed.

(** X8. In [Studio1] and [Studio2] an answer to the download with status
    429 and no missing-entity text ends the run with the quota banner:
    the status is part of the message [fetchVideoBlobUrl] throws. *)
Theorem fetch_429_is_quota (env : Env) (s : State) (i : nat) (j : Job)
    (response : Resp.t) (now1 now2 : N) :
  version env <> Studio3 ->
  nth_error (jobs s) i = Some j ->
  phase j = Fetching ->
  Resp.status response = 429%N ->
  ~ occurs NOT_FOUND (Resp.body response) ->
  exists s',
    step env s (FetchResponds i response now1 now2) = Some s'
    /\ error s' = Some {| message := VString (quotaMessage (version env));
                          isQuota := true |}
    /\ endsQuietly i s (Some s').
Proof.
  intros Hv Hnth Hphase Hstatus Hbody. unfold step. cbn [target]. rewrite Hnth.
  unfold resume. rewrite Hphase.
  assert (Hok : Resp.ok response = false).
  { unfold Resp.ok. rewrite Hstatus. reflexivity. }
  unfold afterFetch, Service.fetchVideoBlobUrl.
  rewrite Hok, (includes_false _ _ Hbody), Hstatus.
  change (negb false) with true. change (false || (429 =? 404)%N) with false.
  cbv iota.
  set (msg := str "Failed to fetch video content: "
              ++ Js.numberToString 429 ++ str " " ++ Resp.body response).
  assert (Hclean : cleanMessage msg = VString msg).
  { unfold cleanMessage, msg. now rewrite parse_Failed_prefix. }
  assert (Hsig : Js.eqb msg API_KEY_RESET_REQUIRED = false) by reflexivity.
  destruct (isQuotaError_string msg) as [quota [Hq Hiff]].
  assert (Hquota : quota = true).
  { apply Hiff. right. left.
    exists (str "Failed to fetch video content: "), (str " " ++ Resp.body response).
    reflexivity. }
  subst quota.
  assert (Hcatch : catchBlock (version env) (newError msg) s
                   = setError (Some {| message := VString (quotaMessage (version env));
                                       isQuota := true |}) s).
  { destruct (version env); [| |congruence]; unfold catchBlock;
      cbn [newError Thrown.message]; rewrite orElse_nil, Hclean, Hq, Hsig;
      reflexivity. }
  eexists. split; [reflexivity|]. split.
  - unfold throw, finish. rewrite Hcatch. reflexivity.
  - apply throw_endsQuietly; try reflexivity. now rewrite Hcatch.
Qed.

Lemma fetch_429_is_quota_witness :
  let s := setJobs [Build_Job (str "a cat") R720p Ratio16x9 Fetching]
             (setIsGenerating true Sample.typed) in
  let response := {| Resp.status := 429; Resp.body := str "slow down";
                     Resp.objectUrl := [] |} in
  exists s',
    step (Sample.env Studio2) s (FetchResponds 0 response 1 2) = Some s'
    /\ error s' = Some {| message := VString (quotaMessage Studio2); isQuota := true |}
    /\ endsQuietly 0 s (Some s').
Proof.
  intros s response.
  apply (fetch_429_is_quota (Sample.env Studio2) s 0
           (Build_Job (str "a cat") R720p Ratio16x9 Fetching) response 1 2).
  - discriminate.
  - reflexivity.
  - reflexivity.
  - reflexivity.
  - intros H. apply includes_spec in H. vm_compute in H. discriminate.
Defined.

Lemma matchBraces_before_errorJson (pre x : jstring) :
  Forall (fun c => c <> 123%N) pre ->
  Forall plainChar x ->
  Regex.matchBraces (pre ++ errorJson x) = Some (errorJson x).
Proof.
  intros Hpre Hx.
  pose (body := jsonText "'error':{'message':'" ++ x ++ jsonText "'}").
  assert (E : errorJson x = 123%N :: body ++ [125%N]).
  { unfold errorJson, body. rewrite <- !app_assoc. reflexivity. }
  rewrite E. replace (body ++ [125%N]) with (body ++ 125%N :: []) by reflexivity.
  rewrite matchBraces_found; [reflexivity | exact Hpre | | constructor].
  unfold body. rewrite !Forall_app. repeat split.
  - repeat constructor.
  - eapply Forall_impl; [|exact Hx]. apply plainChar_not_terminator.
  - repeat constructor.
Qed.

(** X9. [Studio3] unwraps the message of a failed download before it
    looks for the quota words: with the same status 429 and a body that
    is a JSON error, it shows the message of the body, and the status
    does not make it a quota failure. *)
Theorem fetch_429_unwrapped_in_studio3 (s : State) (j : Job) (key x : jstring)
    (now1 now2 : N) :
  let env := {| version := Studio3; API_KEY := key |} in
  let response := {| Resp.status := 429; Resp.body := errorJson x;
                     Resp.objectUrl := [] |} in
  jobs s = [j] ->
  phase j = Fetching ->
  plainText x ->
  ~ occurs NOT_FOUND (Resp.body response) ->
  exists s' quota,
    step env s (FetchResponds 0 response now1 now2) = Some s'
    /\ error s' = Some {| message := VString x; isQuota := quota |}
    /\ (quota = true <->
        occurs (str "RESOURCE_EXHAUSTED") x \/ occurs (str "429") x
        \/ occursIgnoringCase (str "quota") x)
    /\ endsQuietly 0 s (Some s').
Proof.
  intros env response Hjobs Hphase [Hx Hne] Hnot.
  unfold step. cbn [target]. rewrite Hjobs. cbn [nth_error].
  unfold resume. rewrite Hphase.
  assert (Hok : Resp.ok response = false) by reflexivity.
  unfold afterFetch, Service.fetchVideoBlobUrl.
  rewrite Hok, (includes_false _ _ Hnot).
  change (negb false) with true.
  change (false || (Resp.status response =? 404)%N) with false. cbv iota.
  set (pre := str "Failed to fetch video content: "
              ++ Js.numberToString (Resp.status response) ++ str " ").
  assert (Hmsg : str "Failed to fetch video content: "
                 ++ Js.numberToString (Resp.status response) ++ str " "
                 ++ Resp.body response = pre ++ errorJson x).
  { unfold pre. rewrite <- !app_assoc. reflexivity. }
  rewrite Hmsg.
  assert (Hpre : Forall (fun c => c <> 123%N) pre).
  { repeat constructor; vm_compute; discriminate. }
  assert (Hclean : parseErrorMessage (newError (pre ++ errorJson x)) = VString x).
  { unfold parseErrorMessage. cbn [newError Thrown.message Thrown.text].
    rewrite orElse_nonEmpty by discriminate.
    rewrite (matchBraces_before_errorJson pre x Hpre Hx), (parse_errorJson _ Hx).
    rewrite errorMessage_errorJson. cbn [Val.truthy].
    destruct x; [congruence | reflexivity]. }
  assert (Hx' : ~ occurs NOT_FOUND x).
  { intros [a [b E]]. apply Hnot. cbn [response Resp.body]. unfold errorJson.
    exists (jsonText "{'error':{'message':'" ++ a), (b ++ jsonText "'}}").
    rewrite E, <- !app_assoc. reflexivity. }
  destruct (isQuotaError_string x) as [quota [Hq Hiff]].
  assert (Hcatch : catchBlock Studio3 (newError (pre ++ errorJson x)) s
                   = setError (Some {| message := VString x; isQuota := quota |}) s).
  { unfold catchBlock. rewrite Hclean. cbn [newError Thrown.message].
    replace (Js.eqb (pre ++ errorJson x) API_KEY_RESET_REQUIRED) with false
      by reflexivity.
    cbn [Val.includes]. rewrite (includes_false _ _ Hx'), Hq. reflexivity. }
  eexists. exists quota. split; [reflexivity|]. split; [|split].
  - unfold throw, finish. cbn [version env]. rewrite Hcatch. reflexivity.
  - exact Hiff.
  - apply throw_endsQuietly; try reflexivity. cbn [version env].
    now rewrite Hcatch.
Qed.

Lemma fetch_429_unwrapped_in_studio3_witness :
  let s := setJobs [Build_Job (str "a cat") R720p Ratio16x9 Fetching]
             (setIsGenerating true Sample.typed) in
  let response := {| Resp.status := 429;
                     Resp.body := errorJson (str "Too many requests");
                     Resp.objectUrl := [] |} in
  exists s',
    step (Sample.env Studio3) s (FetchResponds 0 response 1 2) = Some s'
    /\ error s' = Some {| message := VString (str "Too many requests");
                          isQuota := false |}
    /\ (exists s1,
          step (Sample.env Studio1) s (FetchResponds 0 response 1 2) = Some s1
          /\ error s1 = Some {| message := VString (quotaMessage Studio1);
                                isQuota := true |}).
Proof.
  intros s response.
  destruct (fetch_429_unwrapped_in_studio3 s
              (Build_Job (str "a cat") R720p Ratio16x9 Fetching)
              (str "KEY") (str "Too many requests") 1 2)
    as [s' [quota [Hstep [Herr [Hiff _]]]]].
  - reflexivity.
  - reflexivity.
  - split; [|discriminate].
    repeat constructor; vm_compute; try discriminate; intros H; discriminate.
  - intros H. apply includes_spec in H. vm_compute in H. discriminate.
  - exists s'. split; [exact Hstep|]. split.
    + rewrite Herr. destruct quota; [|reflexivity].
      exfalso. destruct (proj1 Hiff eq_refl) as [H | [H | H]].
      * apply includes_spec in H. vm_compute in H. discriminate.
      * apply includes_spec in H. vm_compute in H. discriminate.
      * apply (lowerIncludes_spec _ _ quota_letters) in H. vm_compute in H.
        discriminate.
    + eexists. split; vm_compute; reflexivity.
Defined.


(** [Studio3] asks for the reset whenever the unwrapped message is a text
    that holds the missing-entity text. *)
Lemma catchBlock_marker_studio3 (err : Thrown.t) (c : jstring) (s : State) :
  parseErrorMessage err = VString c ->
  occurs NOT_FOUND c ->
  catchBlock Studio3 err s = call OnKeyReset s.
Proof.
  intros Hc Hocc. unfold catchBlock. rewrite Hc. cbn [Val.includes].
  rewrite (proj2 (includes_spec _ _) Hocc).
  now destruct (Js.eqb (Thrown.message err) API_KEY_RESET_REQUIRED).
Qed.

Lemma throw_reset_studio3 (env : Env) (i : nat) (err : Thrown.t) (c : jstring)
    (s : State) :
  version env = Studio3 ->
  parseErrorMessage err = VString c ->
  occurs NOT_FOUND c ->
  resetOutcome env i s (Some (throw env i err s)).
Proof.
  intros Hv Hc Hocc. eexists. split; [reflexivity|].
  unfold throw. rewrite Hv, (catchBlock_marker_studio3 err c s Hc Hocc).
  cbn. repeat split; auto.
Qed.

(** X10. A rejection that reaches the [catch] block without passing
    through a [catch] of the adapter (the download request itself
    failing) is not converted into the reset signal.  [Studio1] and
    [Studio2] then never send the notification, whatever the message
    holds; [Studio3], which looks for the missing-entity text itself,
    sends it when the unwrapped message is a text that holds it. *)
Theorem unconverted_rejection (env : Env) (s : State) (i : nat) (j : Job)
    (e : Thrown.t) :
  nth_error (jobs s) i = Some j ->
  phase j = Fetching ->
  (version env <> Studio3 ->
   Thrown.message e <> API_KEY_RESET_REQUIRED ->
   endsQuietly i s (step env s (FetchThrows i e)))
  /\ (forall c,
         version env = Studio3 ->
         parseErrorMessage e = VString c ->
         occurs NOT_FOUND c ->
         resetOutcome env i s (step env s (FetchThrows i e))).
Proof.
  intros Hnth Hphase.
  assert (Hstep : step env s (FetchThrows i e) = Some (throw env i e s)).
  { unfold step. cbn [target]. rewrite Hnth. unfold resume. now rewrite Hphase. }
  rewrite Hstep. split.
  - intros Hv Hm. apply throw_endsQuietly; try reflexivity.
    now apply catchBlock_no_reset.
  - intros c Hv Hc Hocc. now apply (throw_reset_studio3 env i e c).
Qed.

Lemma unconverted_rejection_witness :
  let s := setJobs [Build_Job (str "a cat") R720p Ratio16x9 Fetching]
             (setIsGenerating true Sample.typed) in
  let e := newError (str "Requested entity was not found") in
  endsQuietly 0 s (step (Sample.env Studio1) s (FetchThrows 0 e))
  /\ resetOutcome (Sample.env Studio3) 0 s
       (step (Sample.env Studio3) s (FetchThrows 0 e)).
Proof.
  intros s e. split.
  - destruct (unconverted_rejection (Sample.env Studio1) s 0
                (Build_Job (str "a cat") R720p Ratio16x9 Fetching) e
                eq_refl eq_refl) as [H _].
    apply H; discriminate.
  - destruct (unconverted_rejection (Sample.env Studio3) s 0
                (Build_Job (str "a cat") R720p Ratio16x9 Fetching) e
                eq_refl eq_refl) as [_ H].
    apply (H (str "Requested entity was not found")).
    + reflexivity.
    + vm_compute. reflexivity.
    + exists [], []. reflexivity.
Defined.

(** X11. When the finished operation carries an error of its own,
    [Studio3] asks for the credential reset if the message of that error
    holds the missing-entity text; [Studio1] and [Studio2] throw it as an
    ordinary failure and do not send the notification. *)
Theorem job_error_run (env : Env) (s : State) (i : nat) (j : Job)
    (previous operation : Op.t) (stage : Stage) (m : jstring) :
  nth_error (jobs s) i = Some j ->
  phase j = Polling previous ->
  Op.done operation = true ->
  Op.error operation = Some m ->
  (version env = Studio3 ->
   occurs NOT_FOUND m ->
   resetOutcome env i s (step env s (PollReturns i operation stage)))
  /\ (version env <> Studio3 ->
      m <> API_KEY_RESET_REQUIRED ->
      endsQuietly i s (step env s (PollReturns i operation stage))).
Proof.
  intros Hnth Hphase Hdone Herr.
  assert (Hstep : step env s (PollReturns i operation stage)
                  = Some (afterLoop env i j operation s)).
  { unfold step. cbn [target]. rewrite Hnth. unfold resume. rewrite Hphase.
    unfold loopTest. now rewrite Hdone. }
  rewrite Hstep. unfold afterLoop. rewrite Herr. split.
  - intros Hv Hocc. rewrite Hv.
    assert (Hne : m <> []).
    { intros ->. destruct Hocc as [a [b E]]. destruct a; discriminate. }
    rewrite (orElse_nonEmpty _ _ Hne), (proj2 (includes_spec _ _) Hocc).
    apply throw_reset.
  - intros Hv Hm.
    assert (Hthrow : endsQuietly i s
                       (Some (throw env i
                                (newError
                                   (Js.orElse m
                                      (str "The video generation failed on the server.")))
                                s))).
    { apply throw_endsQuietly; try reflexivity.
      apply catchBlock_no_reset; [exact Hv|].
      cbn [newError Thrown.message]. destruct m; [discriminate | exact Hm]. }
    destruct (version env); [exact Hthrow | exact Hthrow | congruence].
Qed.

Lemma job_error_run_witness :
  let s := setJobs [Build_Job (str "a cat") R720p Ratio16x9 (Polling Sample.pending)]
             (setIsGenerating true Sample.typed) in
  let operation := {| Op.name := str "operations/1"; Op.done := true;
                      Op.error := Some (str "Requested entity was not found.");
                      Op.uri := None |} in
  resetOutcome (Sample.env Studio3) 0 s
    (step (Sample.env Studio3) s (PollReturns 0 operation Stage0))
  /\ endsQuietly 0 s (step (Sample.env Studio2) s (PollReturns 0 operation Stage0)).
Proof.
  intros s operation. split.
  - destruct (job_error_run (Sample.env Studio3) s 0
                (Build_Job (str "a cat") R720p Ratio16x9 (Polling Sample.pending))
                Sample.pending operation Stage0
                (str "Requested entity was not found.")
                eq_refl eq_refl eq_refl eq_refl) as [H _].
    apply H; [reflexivity|]. exists [], (str "."). reflexivity.
  - destruct (job_error_run (Sample.env Studio2) s 0
                (Build_Job (str "a cat") R720p Ratio16x9 (Polling Sample.pending))
                Sample.pending operation Stage0
                (str "Requested entity was not found.")
                eq_refl eq_refl eq_refl eq_refl) as [_ H].
    apply H; discriminate.
Defined.

(** X12. When the image cannot be read, [fileToBase64] rejects with the
    event of the reader, which has no message: nothing is submitted, and
    the banner shows the stock text in [Studio1] and [Studio2] and the
    printed event in [Studio3]. *)
Theorem file_read_failure (env : Env) (s : State) (i : nat) (j : Job)
    (img : SelectedImage) :
  nth_error (jobs s) i = Some j ->
  phase j = ReadingFile img ->
  exists s',
    step env s (FileReadFails i progressEvent) = Some s'
    /\ error s'
       = Some {| message :=
                   VString match version env with
                           | Studio3 => str "[object ProgressEvent]"
                           | _ => str "An unexpected error occurred during generation."
                           end;
                 isQuota := false |}
    /\ endsQuietly i s (Some s').
Proof.
  intros Hnth Hphase.
  assert (Hstep : step env s (FileReadFails i progressEvent)
                  = Some (throw env i progressEvent s)).
  { unfold step. cbn [target]. rewrite Hnth. unfold resume. now rewrite Hphase. }
  rewrite Hstep. eexists. split; [reflexivity|]. split.
  - unfold throw, finish. destruct (version env); reflexivity.
  - apply throw_endsQuietly; try reflexivity. destruct (version env); reflexivity.
Qed.

Lemma file_read_failure_witness :
  let s := setJobs [Build_Job [] R720p Ratio16x9 (ReadingFile Sample.image)]
             (setIsGenerating true Sample.imageOnly) in
  exists s',
    step (Sample.env Studio1) s (FileReadFails 0 progressEvent) = Some s'
    /\ error s'
       = Some {| message := VString (str "An unexpected error occurred during generation.");
                 isQuota := false |}
    /\ endsQuietly 0 s (Some s').
Proof.
  intros s.
  apply (file_read_failure (Sample.env Studio1) s 0
           (Build_Job [] R720p Ratio16x9 (ReadingFile Sample.image)) Sample.image);
    reflexivity.
Defined.


(** ** A message that is not a text *)

Lemma parseErrorMessage_signal (err : Thrown.t) :
  Thrown.message err = API_KEY_RESET_REQUIRED ->
  parseErrorMessage err = VString API_KEY_RESET_REQUIRED.
Proof. intros H. unfold parseErrorMessage. rewrite H. reflexivity. Qed.

(** X13. When the JSON text of a failure holds at [error.message] a value
    that is not a text (a number, [true], an object), the quota test of
    the [catch] block throws: the block sets no banner and sends no
    notification, and the run ends with the banner as it was. *)
Theorem non_text_message_sets_no_banner (env : Env) (i : nat) (err : Thrown.t)
    (s : State) :
  notText (unwrappedMessage (version env) err) ->
  catchBlock (version env) err s = s
  /\ error (throw env i err s) = error s
  /\ log (throw env i err s) = log s.
Proof.
  intros Hnt.
  assert (Hcatch : catchBlock (version env) err s = s).
  { unfold unwrappedMessage in Hnt. unfold catchBlock.
    destruct (version env).
    - destruct (cleanMessage _); try contradiction; reflexivity.
    - destruct (cleanMessage _); try contradiction; reflexivity.
    - destruct (Js.eqb (Thrown.message err) API_KEY_RESET_REQUIRED) eqn:E.
      + apply Js_eqb_eq in E. rewrite (parseErrorMessage_signal err E) in Hnt.
        contradiction.
      + destruct (parseErrorMessage err); try contradiction; reflexivity. }
  split; [exact Hcatch|]. unfold throw, finish. rewrite Hcatch. split; reflexivity.
Qed.

Lemma non_text_message_sets_no_banner_witness :
  let err := newError (jsonText "{'error':{'message':{'code':503}}}") in
  catchBlock Studio3 err Sample.typed = Sample.typed
  /\ error (throw (Sample.env Studio3) 0 err Sample.typed) = None
  /\ log (throw (Sample.env Studio3) 0 err Sample.typed) = [].
Proof.
  intros err.
  apply (non_text_message_sets_no_banner (Sample.env Studio3) 0 err Sample.typed).
  vm_compute. exact I.
Defined.

(** ** The image payload *)

Lemma untilComma_app (b rest : jstring) :
  ~ In 44%N b -> untilComma (b ++ 44%N :: rest) = b.
Proof.
  induction b as [|c b IH]; intros H; simpl; [reflexivity|].
  destruct (N.eqb_spec c 44) as [-> | _]; [exfalso; apply H; now left|].
  f_equal. apply IH. intros Hin. apply H. now right.
Qed.

Lemma untilComma_all (b : jstring) : ~ In 44%N b -> untilComma b = b.
Proof.
  induction b as [|c b IH]; intros H; simpl; [reflexivity|].
  destruct (N.eqb_spec c 44) as [-> | _]; [exfalso; apply H; now left|].
  f_equal. apply IH. intros Hin. apply H. now right.
Qed.

Lemma secondPiece_skip (a rest : jstring) :
  ~ In 44%N a -> secondPiece (a ++ 44%N :: rest) = Some (untilComma rest).
Proof.
  induction a as [|c a IH]; intros H; simpl; [reflexivity|].
  destruct (N.eqb_spec c 44) as [-> | _]; [exfalso; apply H; now left|].
  apply IH. intros Hin. apply H. now right.
Qed.

(** X14. The image bytes sent to the service are the piece of the data
    URL between its first comma and its second one, or its end: for a
    data URL, which has one comma, the base64 text.  A result without a
    comma gives no bytes at all. *)
Theorem fileToBase64_payload :
  (forall head payload : jstring,
      ~ In 44%N head -> ~ In 44%N payload ->
      secondPiece (head ++ 44%N :: payload) = Some payload)
  /\ (forall head payload rest : jstring,
         ~ In 44%N head -> ~ In 44%N payload ->
         secondPiece (head ++ 44%N :: payload ++ 44%N :: rest) = Some payload)
  /\ (forall result : jstring, ~ In 44%N result <-> secondPiece result = None).
Proof.
  split; [|split].
  - intros head payload Hh Hp.
    now rewrite (secondPiece_skip _ _ Hh), (untilComma_all _ Hp).
  - intros head payload rest Hh Hp.
    now rewrite (secondPiece_skip _ _ Hh), (untilComma_app _ _ Hp).
  - intros result. induction result as [|c r IH]; simpl.
    + split; [reflexivity | intros _ []].
    + destruct (N.eqb_spec c 44) as [-> | Hc].
      * split; [intros H; exfalso; apply H; now left | discriminate].
      * rewrite <- IH. split.
        -- intros H Hin. apply H. now right.
        -- intros H [E | Hin]; [congruence | now apply H].
Qed.

Lemma fileToBase64_payload_witness :
  secondPiece (str "data:image/png;base64,AAAA") = Some (str "AAAA").
Proof.
  destruct fileToBase64_payload as [H _].
  apply (H (str "data:image/png;base64") (str "AAAA")).
  - intros Hin. vm_compute in Hin. intuition discriminate.
  - intros Hin. vm_compute in Hin. intuition discriminate.
Defined.

(** ** The history *)

(** X15. Removing a video a second time changes nothing more: no entry
    has the id any more, so no URL is released and the history stays. *)
Theorem removeVideo_twice (id : jstring) (s : State) :
  removeVideo id (removeVideo id s) = removeVideo id s.
Proof.
  set (rest := filter (fun v => negb (Js.eqb (Video.id v) id)) (history s)).
  assert (Hh : history (removeVideo id s) = rest).
  { unfold removeVideo. now destruct (find _ (history s)). }
  assert (Hothers : forall w, In w rest -> Video.id w <> id).
  { intros w Hw. apply filter_In in Hw. destruct Hw as [_ Hw].
    apply negb_true_iff in Hw. now apply Js_eqb_neq. }
  unfold removeVideo at 1. rewrite Hh.
  rewrite (find_others id rest Hothers), (filter_others id rest Hothers).
  rewrite <- Hh. unfold removeVideo. now destruct (find _ (history s)).
Qed.

(** ** The submit button *)

Lemma replaceAt_last {A} (l : list A) (x y : A) :
  replaceAt (List.length l) x (l ++ [y]) = l ++ [x].
Proof. induction l as [|z l IH]; simpl; [reflexivity | now rewrite IH]. Qed.

(** X16. A click on the submit button is ignored or starts a run: the
    button is disabled when [startGeneration] would refuse the request, so
    a click never sets the banner that asks for a prompt or an image. *)
Theorem click_starts_or_ignored (env : Env) (s s' : State) :
  step env s ClickGenerate = Some s' ->
  s' = s
  \/ (isGenerating s = false
      /\ isGenerating s' = true
      /\ error s' = None
      /\ jobs s' = jobs s ++ [{| jobPrompt := prompt s;
                                 jobResolution := resolution s;
                                 jobAspectRatio := aspectRatio s;
                                 phase := match selectedImage s with
                                          | Some img => ReadingFile img
                                          | None => Submitting
                                          end |}]
      /\ exists c, log s' = log s ++ [c]).
Proof.
  cbn [step]. intros [= <-].
  destruct (submitDisabled s) eqn:Hdis; [now left|]. right.
  unfold submitDisabled in Hdis. apply orb_false_iff in Hdis.
  destruct Hdis as [Hg Hcond]. unfold startGeneration. rewrite Hcond.
  split; [exact Hg|].
  destruct (selectedImage s) as [img|]; cbn; rewrite replaceAt_last;
    repeat split; eexists; reflexivity.
Qed.

Lemma click_starts_or_ignored_witness :
  exists s',
    step (Sample.env Studio1) Sample.typed ClickGenerate = Some s'
    /\ isGenerating s' = true
    /\ error s' = None.
Proof.
  eexists. split; [reflexivity|].
  destruct (click_starts_or_ignored (Sample.env Studio1) Sample.typed _ eq_refl)
    as [H | [_ [Hg [He _]]]].
  - vm_compute in H. discriminate.
  - split; [exact Hg | exact He].
Defined.

(** ** Numbers in the JSON text *)

(** X17. A number at [error.message] counts by its value: one that is
    zero, or so small that it is read as zero, is passed over like an
    absent member, and the next choice is taken; the least positive
    number that is not read as zero is returned as it is. *)
Theorem zero_number_is_passed_over :
  parseErrorMessage
    (newError (jsonText "oops {'error':{'message':1e-400},'message':'shown'}"))
  = VString (str "shown")
  /\ parseErrorMessage
       (newError (jsonText "oops {'error':{'message':-0.0e9},'message':'shown'}"))
     = VString (str "shown")
  /\ parseErrorMessage
       (newError (jsonText "oops {'error':{'message':2.4703282292062327e-324}}"))
     = VString (jsonText "oops {'error':{'message':2.4703282292062327e-324}}")
  /\ parseErrorMessage
       (newError (jsonText "oops {'error':{'message':2.4703282292062328e-324}}"))
     = VNumber (str "2.4703282292062328e-324")
  /\ cleanMessage (jsonText "{'error':{'message':0}}")
     = VString (jsonText "{'error':{'message':0}}").
Proof. repeat split; vm_compute; reflexivity. Qed.


(** ** The component [App] *)

Lemma reachable_step (env : Env) (s s' : State) (e : Event) :
  reachable env s -> step env s e = Some s' -> reachable env s'.
Proof.
  intros [events Hexec] Hstep. exists (events ++ [e]).
  rewrite exec_app, Hexec. simpl. now rewrite Hstep.
Qed.

Lemma appInv_checked (env : Env) (g : App.t) :
  appInv env g -> App.checking g = false -> App.hasKey g <> None.
Proof. intros [Hnull _] Hc Hk. apply Hnull in Hk. congruence. Qed.

(** [setHasKey] once the check is over. *)
Lemma appInv_setHasKey (env : Env) (b : bool) (g : App.t) :
  App.checking g = false ->
  (App.hasKey g = Some true <-> App.studio g <> None) ->
  (forall st, App.studio g = Some st -> reachable env st) ->
  appInv env (App.setHasKey b g).
Proof.
  intros Hc Hshown Hst.
  assert (Hinit : reachable env initialState) by (now exists []).
  unfold appInv, App.setHasKey. cbn. rewrite Hc.
  split; [split; discriminate|]. split; [discriminate|].
  destruct b.
  - destruct (App.hasKey g) as [[|]|] eqn:Hk; split;
      try (split; [discriminate | reflexivity]);
      try (intros st [= <-]; exact Hinit).
    + split; [intros _; now apply Hshown | reflexivity].
    + exact Hst.
  - split; [split; [discriminate | congruence] | discriminate].
Qed.

Lemma app_step_inv (env : Env) (g g' : App.t) (e : App.Event) :
  appInv env g -> App.step env g e = Some g' -> appInv env g'.
Proof.
  intros Hinv Hstep. pose proof Hinv as [Hnull [Hdial [Hshown Hst]]].
  assert (Hopen : forall n, App.dialogs g = S n -> App.checking g = false).
  { intros n Hd. destruct (App.checking g); [|reflexivity].
    specialize (Hdial eq_refl). congruence. }
  destruct e; cbn [App.step] in Hstep.
  - destruct (App.checking g) eqn:Hc; [|discriminate]. injection Hstep as <-.
    apply appInv_setHasKey; [reflexivity | exact Hshown | exact Hst].
  - destruct (App.checking g) eqn:Hc; [|discriminate]. injection Hstep as <-.
    apply appInv_setHasKey; [reflexivity | exact Hshown | exact Hst].
  - unfold App.view in Hstep.
    destruct (App.hasKey g) as [[|]|] eqn:Hk; injection Hstep as <-;
      try exact Hinv.
    unfold appInv, App.handleSelectKey. cbn. rewrite Hk.
    split; [exact Hnull|]. split; [|split; [exact Hshown | exact Hst]].
    intros Hc. apply Hnull in Hc. discriminate.
  - destruct (App.dialogs g) as [|n] eqn:Hd; [discriminate|]. injection Hstep as <-.
    apply appInv_setHasKey; [exact (Hopen n eq_refl) | exact Hshown | exact Hst].
  - destruct (App.dialogs g) as [|n] eqn:Hd; [discriminate|]. injection Hstep as <-.
    unfold appInv, App.setDialogs. cbn. rewrite (Hopen n eq_refl).
    split; [|split; [discriminate | split; [exact Hshown | exact Hst]]].
    rewrite (Hopen n eq_refl) in Hnull. exact Hnull.
  - destruct (App.studio g) as [st|] eqn:Hs; [|discriminate].
    destruct (step env st e) as [st'|] eqn:Hstep'; [|discriminate].
    injection Hstep as <-.
    assert (Hk : App.hasKey g = Some true).
    { apply Hshown. discriminate. }
    assert (Hc : App.checking g = false).
    { destruct (App.checking g); [|reflexivity].
      assert (App.hasKey g = None) by now apply Hnull. congruence. }
    destruct (existsb App.isKeyReset (App.newCalls st st')).
    + apply appInv_setHasKey; [exact Hc | | ].
      * rewrite Hs. split; [discriminate | intros _; exact Hk].
      * rewrite Hs. exact Hst.
    + unfold appInv, App.setStudio. cbn. rewrite Hc, Hk.
      split; [split; discriminate|]. split; [discriminate|].
      split; [split; [discriminate | reflexivity]|].
      intros st0 [= <-]. exact (reachable_step env st st' e (Hst st eq_refl) Hstep').
Qed.

Lemma app_reachable_inv (env : Env) (g : App.t) :
  App.reachable env g -> appInv env g.
Proof.
  intros [events Hexec].
  assert (H : forall events g0 g1,
             appInv env g0 -> App.exec env g0 events = Some g1 -> appInv env g1).
  { clear. induction events as [|e events IH]; intros g0 g1 Hinv Hexec;
      simpl in Hexec.
    - now injection Hexec as <-.
    - destruct (App.step env g0 e) as [g'|] eqn:Hstep; [|discriminate].
      exact (IH g' g1 (app_step_inv env g0 g' e Hinv Hstep) Hexec). }
  apply (H events App.initial g); [|exact Hexec].
  unfold appInv. cbn. split; [split; reflexivity|]. split; [reflexivity|].
  split; [split; [discriminate | congruence] | discriminate].
Qed.


Lemma newCalls_none (s s' : State) : log s' = log s -> App.newCalls s s' = [].
Proof. intros H. unfold App.newCalls. rewrite H. apply skipn_all. Qed.

Lemma newCalls_one (s s' : State) (c : Effect) :
  log s' = log s ++ [c] -> App.newCalls s s' = [c].
Proof.
  intros H. unfold App.newCalls. rewrite H, skipn_app, skipn_all, Nat.sub_diag.
  reflexivity.
Qed.

(** The notification is sent only by the [catch] block of the one
    invocation under way, which then returns: the studio that sent it is
    idle. *)
Lemma reset_ends_job (env : Env) (s s' : State) (e : Event) :
  oneJob s -> step env s e = Some s' ->
  In OnKeyReset (App.newCalls s s') ->
  jobs s' = [] /\ isGenerating s' = false.
Proof.
  intros Hone Hstep Hin.
  assert (Hsettle : forall i,
             match nth_error (jobs s) i with
             | Some j => resume env i j e s
             | None => None
             end = Some s' -> jobs s' = [] /\ isGenerating s' = false).
  { intros i H. destruct (nth_error (jobs s) i) as [j|] eqn:Hnth; [|discriminate].
    destruct Hone as [[Hj _] | [j0 [Hj _]]]; rewrite Hj in Hnth.
    - destruct i; discriminate.
    - apply nth_error_single in Hnth. destruct Hnth as [-> ->].
      destruct (resume_resumed env 0 j0 e s s' H)
        as [[_ [_ [p [c [_ [Hl Hsus]]]]]] | [[err [s0 [-> [_ [Hj0 _]]]]]
           | [blobUrl [now1 [now2 [_ ->]]]]]].
      + rewrite (newCalls_one s s' c Hl) in Hin. destruct Hin as [E | []].
        subst c.
        destruct Hsus as [[_ [img [d [_ Hc]]]] | [[op [_ [_ Hc]]]
                         | [[op [_ [_ Hc]]] | [u [_ [_ Hc]]]]]]; discriminate.
      + destruct (throw_fields env 0 err s0) as [_ [_ [_ [_ [_ [T6 [T7 _]]]]]]].
        rewrite T6, T7, Hj0, Hj. split; reflexivity.
      + rewrite newCalls_none in Hin by reflexivity. destruct Hin. }
  destruct e; cbn [step target] in Hstep; try (exact (Hsettle _ Hstep));
    try (destruct (nth_error (readers s) k); [|discriminate]);
    injection Hstep as <-; exfalso.
  - destruct (isGenerating s); rewrite newCalls_none in Hin by reflexivity;
      destruct Hin.
  - destruct (isGenerating s); rewrite newCalls_none in Hin by reflexivity;
      destruct Hin.
  - destruct (isGenerating s); rewrite newCalls_none in Hin by reflexivity;
      destruct Hin.
  - unfold handleImageSelect in Hin. destruct (negb _).
    + rewrite newCalls_none in Hin by reflexivity. destruct Hin.
    + rewrite (newCalls_one _ _ (ReadAsDataURL f)) in Hin by reflexivity.
      destruct Hin as [H | []]. discriminate.
  - rewrite newCalls_none in Hin by reflexivity. destruct Hin.
  - rewrite newCalls_none in Hin by reflexivity. destruct Hin.
  - destruct (submitDisabled s).
    + rewrite newCalls_none in Hin by reflexivity. destruct Hin.
    + unfold startGeneration in Hin. destruct (_ && _).
      * rewrite newCalls_none in Hin by reflexivity. destruct Hin.
      * destruct (selectedImage s);
          erewrite newCalls_one in Hin by reflexivity;
          destruct Hin as [H | []]; discriminate.
  - unfold removeVideo in Hin. destruct (find _ _).
    + erewrite newCalls_one in Hin by reflexivity.
      destruct Hin as [H | []]. discriminate.
    + rewrite newCalls_none in Hin by reflexivity. destruct Hin.
Qed.

Lemma app_exec_app (env : Env) (g : App.t) (es1 es2 : list App.Event) :
  App.exec env g (es1 ++ es2)
  = match App.exec env g es1 with
    | Some g' => App.exec env g' es2
    | None => None
    end.
Proof.
  revert g. induction es1 as [|e es1 IH]; intros g; simpl; [reflexivity|].
  now destruct (App.step env g e).
Qed.

(** X18. [App] shows the spinner exactly while the check of the key is
    pending, and the studio exactly when the key is taken as selected; the
    studio it shows was mounted in its initial state and has been driven
    by its own events since: it is in a state the studio can be in, with
    at most one generation under way. *)
Theorem app_shows_a_studio (env : Env) (g : App.t) :
  App.reachable env g ->
  (App.view g = App.Spinner <-> App.checking g = true)
  /\ (App.view g = App.Studio <-> exists st, App.studio g = Some st)
  /\ (forall st,
         App.studio g = Some st ->
         reachable env st /\ List.length (jobs st) <= 1).
Proof.
  intros Hreach.
  destruct (app_reachable_inv env g Hreach) as [Hnull [_ [Hshown Hst]]].
  split; [|split].
  - rewrite <- Hnull. unfold App.view.
    destruct (App.hasKey g) as [[|]|]; split; intros H; try reflexivity;
      discriminate.
  - unfold App.view. destruct (App.hasKey g) as [[|]|] eqn:Hk; split;
      try discriminate; try reflexivity.
    + intros _. destruct (App.studio g) as [st|]; [now exists st|].
      exfalso. now apply (proj1 Hshown).
    + intros [st Hs]. assert (H : Some false = Some true).
      { apply Hshown. rewrite Hs. discriminate. }
      discriminate.
    + intros [st Hs]. assert (H : @None bool = Some true).
      { apply Hshown. rewrite Hs. discriminate. }
      discriminate.
  - intros st Hs. split; [exact (Hst st Hs)|].
    destruct (reachable_wellFormed env st (Hst st Hs)) as [Hone _].
    destruct Hone as [[Hj _] | [j [Hj _]]]; rewrite Hj; cbn; lia.
Qed.

Lemma app_shows_a_studio_witness :
  exists g st,
    App.exec (Sample.env Studio1) App.initial
      (App.CheckReturns true :: List.map App.InStudio imageRun) = Some g
    /\ App.studio g = Some st
    /\ reachable (Sample.env Studio1) st
    /\ List.length (jobs st) <= 1.
Proof.
  eexists. eexists. split; [vm_compute; reflexivity|].
  split; [reflexivity|].
  eapply (app_shows_a_studio (Sample.env Studio1)).
  - exists (App.CheckReturns true :: List.map App.InStudio imageRun).
    vm_compute. reflexivity.
  - reflexivity.
Defined.

(** X19. When the studio sends the credential-reset notification, [App]
    replaces it by the key prompt.  The studio that leaves is idle, and
    its state goes with it: the studio shown once a key dialog has closed
    starts from the initial state, with an empty history. *)
Theorem reset_loses_session (env : Env) (g : App.t) (st st' : State)
    (e : Event) :
  App.reachable env g ->
  App.studio g = Some st ->
  step env st e = Some st' ->
  In OnKeyReset (App.newCalls st st') ->
  exists g1,
    App.step env g (App.InStudio e) = Some g1
    /\ App.view g1 = App.KeyPrompt
    /\ App.studio g1 = None
    /\ jobs st' = [] /\ isGenerating st' = false
    /\ exists g2,
        App.exec env g1 [App.ClickSelectKey; App.DialogResolves] = Some g2
        /\ App.view g2 = App.Studio
        /\ App.studio g2 = Some initialState.
Proof.
  intros Hreach Hs Hstep Hin.
  destruct (app_reachable_inv env g Hreach) as [_ [_ [_ Hst]]].
  destruct (reachable_wellFormed env st (Hst st Hs)) as [Hone _].
  destruct (reset_ends_job env st st' e Hone Hstep Hin) as [Hj Hg].
  assert (Hex : existsb App.isKeyReset (App.newCalls st st') = true).
  { apply existsb_exists. exists OnKeyReset. split; [exact Hin | reflexivity]. }
  eexists. split; [cbn [App.step]; rewrite Hs, Hstep, Hex; reflexivity|].
  split; [reflexivity|]. split; [reflexivity|]. split; [exact Hj|].
  split; [exact Hg|].
  eexists. split; [reflexivity|]. split; reflexivity.
Qed.

Lemma reset_loses_session_witness :
  exists g1 g2,
    App.exec (Sample.env Studio1) App.initial session = Some g1
    /\ App.view g1 = App.KeyPrompt
    /\ App.exec (Sample.env Studio1) g1 [App.ClickSelectKey; App.DialogResolves]
       = Some g2
    /\ App.studio g2 = Some initialState.
Proof.
  set (env := Sample.env Studio1).
  set (e := SubmitThrows 0 (newError (str "Requested entity was not found."))).
  set (before := App.CheckReturns true
                 :: List.map App.InStudio
                      (imageRun ++ [ChangePrompt (str "a dog"); ClickGenerate])).
  assert (Hbefore : exists g st st',
             App.exec env App.initial before = Some g
             /\ App.studio g = Some st
             /\ step env st e = Some st'
             /\ In OnKeyReset (App.newCalls st st')).
  { eexists. eexists. eexists. split; [vm_compute; reflexivity|].
    split; [reflexivity|]. split; [vm_compute; reflexivity|].
    vm_compute. left. reflexivity. }
  destruct Hbefore as [g [st [st' [Hg [Hs [Hstep Hin]]]]]].
  destruct (reset_loses_session env g st st' e (ex_intro _ before Hg) Hs Hstep Hin)
    as [g1 [H1 [Hv [_ [_ [_ [g2 [H2 [_ Hst2]]]]]]]]].
  exists g1, g2. split; [|split; [exact Hv | split; [exact H2 | exact Hst2]]].
  change session with (before ++ [App.InStudio e]).
  rewrite app_exec_app, Hg. cbn [App.exec]. rewrite H1. reflexivity.
Defined.

